(** * TikTok sentiment analyzer: the text normalizer and the lexicon scorer

    A shallow embedding of [utils.py] (cleaning, slang normalization,
    tokenization) and [sentiment.py] (lexicon loading, scoring,
    classification, batch summary, word ranking), followed by the
    properties the specification states about them.

    Conventions of the embedding.
    - A Python [str] is a list of Unicode code points ([pystr]); a
      literal is written [py "text"].
    - Whitespace ([str.split], [str.strip], [\s]) is Python's fixed
      table.  The tables behind [\w], [\d] and [str.lower] are fixed on
      ASCII and taken from a [UnicodeData] instance elsewhere, since the
      Unicode database is not part of the sources.  [str.lower] is the
      code point wise mapping.
    - A Python [float] is an IEEE 754 binary64 number, with the
      operations of the Standard Library's [SpecFloat] (rounding to
      nearest, ties to even); [round(x, n)] is the float nearest to the
      decimal number with [n] places nearest to [x].  Rationals ([Q])
      only serve to state how far a float lies from an exact value.
    - A Python [dict] used as a map is a [gmap]; where the insertion
      order is observable ([get_top_words]) it is an association list in
      insertion order. *)

From Stdlib Require Import ZArith QArith Qabs Qround Qpower Lqa List String Ascii Lia Bool.
From Stdlib Require Import Floats.SpecFloat.
From stdpp Require Import base gmap list sorting strings.

Set Default Proof Using "Type".

(** ** Python strings *)

Abbreviation char := N.
Abbreviation pystr := (list N).
Abbreviation float := spec_float.

Definition py (s : string) : pystr :=
  (fun a => N_of_ascii a) <$> list_ascii_of_string s.

(** Values an untyped caller may pass where a [str] is expected. *)
Inductive py_value :=
  | PyStr (s : pystr)
  | PyNone
  | PyBool (b : bool)
  | PyInt (z : Z)
  | PyFloat (x : float).

(** [Py_UNICODE_ISSPACE]: the whitespace of [str.split], [str.strip]
    and of [\s] in a [str] pattern. *)
Definition is_space (c : char) : bool :=
  ((9 <=? c) && (c <=? 13) || (28 <=? c) && (c <=? 32) || (c =? 133)
   || (c =? 160) || (c =? 5760) || (8192 <=? c) && (c <=? 8202)
   || (c =? 8232) || (c =? 8233) || (c =? 8239) || (c =? 8287)
   || (c =? 12288))%N.

Definition ascii_word (c : char) : bool :=
  ((48 <=? c) && (c <=? 57) || (65 <=? c) && (c <=? 90) || (c =? 95)
   || (97 <=? c) && (c <=? 122))%N.

Definition ascii_digit (c : char) : bool := ((48 <=? c) && (c <=? 57))%N.

Definition ascii_lower (c : char) : char :=
  (if (65 <=? c) && (c <=? 90) then c + 32 else c)%N.

(** The part of the Unicode database that the sources rely on through
    [re] and [str.lower], outside ASCII. *)
Class UnicodeData := {
  uni_word : char -> bool;
  uni_digit : char -> bool;
  uni_lower : char -> char;
  uni_word_not_space : forall c, uni_word c = true -> is_space c = false;
  uni_digit_word : forall c, uni_digit c = true -> uni_word c = true
}.

Section Utils.
Context `{UnicodeData}.

(** [\w] *)
Definition is_word (c : char) : bool :=
  if (c <? 128)%N then ascii_word c else uni_word c.

(** [\d] *)
Definition is_digit (c : char) : bool :=
  if (c <? 128)%N then ascii_digit c else uni_digit c.

Definition lower_char (c : char) : char :=
  if (c <? 128)%N then ascii_lower c else uni_lower c.

(** [str.lower] *)
Definition lower (s : pystr) : pystr := lower_char <$> s.

(** *** [re.sub]

    [re_sub_from] scans the text from left to right.  At a position where
    the pattern matches ([try_match] sees the character before the
    position and the rest of the text, and gives the length of the match
    and its replacement) the replacement is emitted and the scan resumes
    after the match: [skip] counts the characters of the current match
    that are still to be passed over.  Elsewhere the character is kept.
    None of the patterns below matches the empty string. *)
Section ReSub.
Variable try_match : option char -> pystr -> option (nat * pystr).

Fixpoint re_sub_from (skip : nat) (prev : option char) (s : pystr) : pystr :=
  match s with
  | [] => []
  | c :: s' =>
      match skip with
      | S k => re_sub_from k (Some c) s'
      | O =>
          match try_match prev s with
          | Some (S k, repl) => repl ++ re_sub_from k (Some c) s'
          | _ => c :: re_sub_from 0 (Some c) s'
          end
      end
  end.

Definition re_sub (s : pystr) : pystr := re_sub_from 0 None s.
End ReSub.

(** Length of the longest prefix whose characters all satisfy [p]: a
    greedy [p+] or [p*]. *)
Fixpoint span_len (p : char -> bool) (s : pystr) : nat :=
  match s with
  | c :: s' => if p c then S (span_len p s') else 0
  | [] => 0
  end.

Fixpoint starts_with (pre s : pystr) : bool :=
  match pre, s with
  | [], _ => true
  | a :: pre', b :: s' => (a =? b)%N && starts_with pre' s'
  | _ :: _, [] => false
  end.

Definition non_space (c : char) : bool := negb (is_space c).

(** A literal prefix followed by [\S+]. *)
Definition literal_then_nonspace (pre s : pystr) : option (nat * pystr) :=
  if starts_with pre s then
    match span_len non_space (drop (length pre) s) with
    | O => None
    | n => Some (length pre + n, [])
    end
  else None.

(** [https?://\S+|www\.\S+]: the optional [s] is tried first, then the
    pattern without it, then the second alternative. *)
Definition match_url (prev : option char) (s : pystr) : option (nat * pystr) :=
  match literal_then_nonspace (py "https://") s with
  | Some r => Some r
  | None =>
      match literal_then_nonspace (py "http://") s with
      | Some r => Some r
      | None => literal_then_nonspace (py "www.") s
      end
  end.

Definition remove_urls (text : pystr) : pystr := re_sub match_url text.

(** [@\w+], replaced by nothing. *)
Definition match_mention (prev : option char) (s : pystr) : option (nat * pystr) :=
  match s with
  | c :: rest =>
      if (c =? 64)%N then
        match span_len is_word rest with
        | O => None
        | n => Some (S n, [])
        end
      else None
  | [] => None
  end.

Definition remove_mentions (text : pystr) : pystr := re_sub match_mention text.

(** [#(\w+)], replaced by its group: the [#] goes, the word stays. *)
Definition match_hashtag (prev : option char) (s : pystr) : option (nat * pystr) :=
  match s with
  | c :: rest =>
      if (c =? 35)%N then
        match span_len is_word rest with
        | O => None
        | n => Some (S n, take n rest)
        end
      else None
  | [] => None
  end.

Definition unwrap_hashtags (text : pystr) : pystr := re_sub match_hashtag text.

(** The character class of [remove_emojis], range by range. *)
Definition is_emoji (c : char) : bool :=
  ((0x1F600 <=? c) && (c <=? 0x1F64F)
   || (0x1F300 <=? c) && (c <=? 0x1F5FF)
   || (0x1F680 <=? c) && (c <=? 0x1F6FF)
   || (0x1F1E0 <=? c) && (c <=? 0x1F1FF)
   || (0x2702 <=? c) && (c <=? 0x27B0)
   || (0x24C2 <=? c) && (c <=? 0x1F251)
   || (0x1F926 <=? c) && (c <=? 0x1F937)
   || (0x10000 <=? c) && (c <=? 0x10FFFF)
   || (0x2640 <=? c) && (c <=? 0x2642)
   || (0x2600 <=? c) && (c <=? 0x2B55)
   || (c =? 0x200D) || (c =? 0x23CF) || (c =? 0x23E9) || (c =? 0x231A)
   || (c =? 0xFE0F) || (c =? 0x3030))%N.

Definition match_emoji (prev : option char) (s : pystr) : option (nat * pystr) :=
  match span_len is_emoji s with
  | O => None
  | n => Some (n, [])
  end.

Definition remove_emojis (text : pystr) : pystr := re_sub match_emoji text.

(** [[^\w\s]], replaced by one space. *)
Definition is_special (c : char) : bool := negb (is_word c || is_space c).

Definition match_special (prev : option char) (s : pystr) : option (nat * pystr) :=
  match s with
  | c :: _ => if is_special c then Some (1, [32%N]) else None
  | [] => None
  end.

Definition replace_special (text : pystr) : pystr := re_sub match_special text.

(** [\b]: exactly one of the two neighbours is a word character; the
    outside of the text counts as a non-word character. *)
Definition word_at (c : option char) : bool :=
  match c with Some c => is_word c | None => false end.

Definition word_boundary (before after : option char) : bool :=
  xorb (word_at before) (word_at after).

(** The greedy [\d+] gives back digits one at a time until the closing
    [\b] holds: the longest [k <= n] with a boundary after [k] digits. *)
Fixpoint backtrack_digits (s : pystr) (k : nat) : option nat :=
  match k with
  | O => None
  | S k' =>
      if word_boundary (s !! k') (s !! k) then Some k
      else backtrack_digits s k'
  end.

(** [\b\d+\b], replaced by nothing. *)
Definition match_number (prev : option char) (s : pystr) : option (nat * pystr) :=
  if word_boundary prev (head s) then
    match backtrack_digits s (span_len is_digit s) with
    | Some k => Some (k, [])
    | None => None
    end
  else None.

Definition remove_numbers (text : pystr) : pystr := re_sub match_number text.

(** *** [str.split], [str.join], [str.strip] *)

(** [split_from tok s]: [tok] is the token being read. *)
Fixpoint split_from (tok s : pystr) : list pystr :=
  match s with
  | [] => match tok with [] => [] | _ => [tok] end
  | c :: s' =>
      if is_space c then
        match tok with
        | [] => split_from [] s'
        | _ => tok :: split_from [] s'
        end
      else split_from (tok ++ [c]) s'
  end.

Definition split (s : pystr) : list pystr := split_from [] s.

Fixpoint join (sep : pystr) (l : list pystr) : pystr :=
  match l with
  | [] => []
  | [w] => w
  | w :: l' => w ++ sep ++ join sep l'
  end.

Fixpoint lstrip (s : pystr) : pystr :=
  match s with
  | c :: s' => if is_space c then lstrip s' else s
  | [] => []
  end.

Definition strip (s : pystr) : pystr :=
  reverse (lstrip (reverse (lstrip s))).

Definition remove_extra_whitespace (text : pystr) : pystr :=
  join (py " ") (split text).

End Utils.

(** ** Slang normalization and the cleaning pipeline *)

(** The table of [utils.py], entry by entry. *)
Definition SLANG_ENTRIES : list (string * string) :=
  [
    ("gak", "tidak"); ("ga", "tidak"); ("nggak", "tidak");
    ("enggak", "tidak"); ("gk", "tidak"); ("g", "tidak");
    ("tdk", "tidak"); ("yg", "yang"); ("dgn", "dengan");
    ("dg", "dengan"); ("utk", "untuk"); ("u/", "untuk");
    ("krn", "karena"); ("krna", "karena"); ("karna", "karena");
    ("tp", "tapi"); ("tpi", "tapi"); ("sm", "sama");
    ("sma", "sama"); ("jg", "juga"); ("jga", "juga");
    ("bgt", "banget"); ("bngt", "banget"); ("bngtt", "banget");
    ("bgtt", "banget"); ("bet", "banget"); ("skrg", "sekarang");
    ("skr", "sekarang"); ("skg", "sekarang"); ("bsk", "besok");
    ("kmrn", "kemarin"); ("kmrin", "kemarin"); ("blm", "belum");
    ("blom", "belum"); ("udh", "sudah"); ("udah", "sudah");
    ("sdh", "sudah"); ("sdah", "sudah"); ("dah", "sudah");
    ("org", "orang"); ("orng", "orang"); ("org2", "orang-orang");
    ("kyk", "kayak"); ("kek", "kayak"); ("ky", "kayak");
    ("emg", "memang"); ("emng", "memang"); ("mmg", "memang");
    ("aja", "saja"); ("aj", "saja"); ("doang", "saja");
    ("doank", "saja"); ("dng", "dong"); ("donk", "dong");
    ("sih", "sih"); ("si", "sih"); ("loh", "lho");
    ("lo", "lho"); ("kok", "kok"); ("knp", "kenapa");
    ("knapa", "kenapa"); ("gmn", "gimana"); ("gmna", "gimana");
    ("gmana", "gimana"); ("bgmn", "bagaimana"); ("apaan", "apa");
    ("apa2", "apa-apa"); ("dmn", "dimana"); ("dmna", "dimana");
    ("kpn", "kapan"); ("kapn", "kapan"); ("brp", "berapa");
    ("brapa", "berapa"); ("lg", "lagi"); ("lgi", "lagi");
    ("lg2", "lagi-lagi"); ("pake", "pakai"); ("pk", "pakai");
    ("pke", "pakai"); ("bs", "bisa"); ("bsa", "bisa");
    ("hrs", "harus"); ("hrus", "harus"); ("msh", "masih");
    ("msih", "masih"); ("klo", "kalau"); ("kalo", "kalau");
    ("kl", "kalau"); ("ato", "atau"); ("atw", "atau");
    ("dr", "dari"); ("dri", "dari"); ("pd", "pada");
    ("pda", "pada"); ("ke", "ke"); ("k", "ke");
    ("abis", "habis"); ("abs", "habis"); ("hbs", "habis");
    ("btw", "ngomong-ngomong"); ("fyi", "untuk informasi"); ("thx", "terima kasih");
    ("tks", "terima kasih"); ("mksh", "terima kasih"); ("makasi", "terima kasih");
    ("makasih", "terima kasih"); ("mksih", "terima kasih"); ("pls", "tolong");
    ("pliss", "tolong"); ("plisss", "tolong"); ("gws", "get well soon");
    ("wkwk", "haha"); ("wkwkwk", "haha"); ("wkwkwkwk", "haha");
    ("hahaha", "haha"); ("hahahaha", "haha"); ("kwkwk", "haha");
    ("awkwk", "haha"); ("xixi", "haha"); ("hehe", "haha");
    ("hihi", "haha"); ("hoho", "haha"); ("huhu", "sedih");
    ("hiks", "sedih")
  ]%string.

Definition SLANG_DICT : gmap pystr pystr :=
  list_to_map ((fun e => (py e.1, py e.2)) <$> SLANG_ENTRIES).

Section Cleaning.
Context `{UnicodeData}.

Definition normalize_word (word : pystr) : pystr :=
  match SLANG_DICT !! lower word with
  | Some expansion => expansion
  | None => word
  end.

Definition normalize_slang (text : pystr) : pystr :=
  join (py " ") (normalize_word <$> split text).

(** The steps of [clean_text] on a non-empty [str], in the order of the
    source. *)
Definition clean_str (text : pystr) (normalize : bool) : pystr :=
  let text := lower text in
  let text := remove_urls text in
  let text := remove_mentions text in
  let text := unwrap_hashtags text in
  let text := remove_emojis text in
  let text := replace_special text in
  let text := remove_numbers text in
  let text := if normalize then normalize_slang text else text in
  let text := remove_extra_whitespace text in
  strip text.

(** [if not text or not isinstance(text, str): return ""] *)
Definition clean_text (text : py_value) (normalize : bool) : pystr :=
  match text with
  | PyStr (c :: s) => clean_str (c :: s) normalize
  | _ => []
  end.

Definition clean_batch (texts : list py_value) (normalize : bool) : list pystr :=
  (fun t => clean_text t normalize) <$> texts.

Definition tokenize (text : pystr) : list pystr := split text.

End Cleaning.

(** A sample of the Unicode tables, enough to evaluate the functions on
    concrete texts: outside ASCII it knows the CJK unified ideographs
    U+4E00..U+9FFF as word characters (they are letters, category Lo) and
    nothing else. *)
Definition sample_word (c : char) : bool := ((0x4E00 <=? c) && (c <=? 0x9FFF))%N.

#[export] Program Instance sample_unicode : UnicodeData := {|
  uni_word := sample_word;
  uni_digit := fun _ => false;
  uni_lower := fun c => c
|}.
Next Obligation.
  intros c Hc. unfold sample_word in Hc. unfold is_space.
  apply andb_true_iff in Hc as [H1 H2].
  apply N.leb_le in H1. apply N.leb_le in H2.
  repeat match goal with
  | |- context [(c <=? ?a)%N] => rewrite (proj2 (N.leb_gt c a)) by lia
  | |- context [(c =? ?a)%N] => rewrite (proj2 (N.eqb_neq c a)) by lia
  end.
  rewrite !andb_false_r. reflexivity.
Qed.
Next Obligation. intros c Hc. discriminate. Qed.

(** ** Numbers

    Binary64: 53 bits of precision, exponents below 1024. *)

Definition prec : Z := 53.
Definition emax : Z := 1024.

Definition fadd : float -> float -> float := SFadd prec emax.
Definition fmul : float -> float -> float := SFmul prec emax.
Definition fdiv : float -> float -> float := SFdiv prec emax.
Definition fopp : float -> float := SFopp.
Definition flt : float -> float -> bool := SFltb.
Definition fle : float -> float -> bool := SFleb.
Definition feq : float -> float -> bool := SFeqb.

(** A Python number: an [int] or a [float]. *)
Inductive number :=
  | Int (z : Z)
  | Float (x : float).

(** [float(z)] for an int [z]: the float nearest to it.  (Python raises
    [OverflowError] from [2 ^ 1024] on, which no length reaches; here
    the result is then an infinity.) *)
Definition float_of_int (z : Z) : float := binary_normalize prec emax z 0 false.

(** An int as the operand of a division: mantissa [|z|], exponent 0. *)
Definition integer_operand (z : Z) : float :=
  match z with
  | Z0 => S754_zero false
  | Zpos p => S754_finite false p 0
  | Zneg p => S754_finite true p 0
  end.

(** [a / b] on ints: the float nearest to the quotient, the exact
    quotient being rounded once. *)
Definition int_truediv (a b : Z) : float :=
  fdiv (integer_operand a) (integer_operand b).

(** The float written [k * 10 ** -ndigits] in decimal digits: the one
    nearest to that number. *)
Definition float_of_decimal (k : Z) (ndigits : nat) : float :=
  int_truediv k (10 ^ Z.of_nat ndigits).

(** The literals of the sources. *)
Definition fzero : float := S754_zero false.
Definition half : float := Eval vm_compute in float_of_decimal 5 1.
Definition tenth : float := Eval vm_compute in float_of_decimal 1 1.
Definition hundred : float := Eval vm_compute in float_of_int 100.

(** The number a float stands for (0 for an infinity and a NaN, which
    stand for none). *)
Definition float_value (x : float) : Q :=
  match x with
  | S754_finite s m e =>
      (if s then - (inject_Z (Zpos m) * 2 ^ e) else inject_Z (Zpos m) * 2 ^ e)%Q
  | _ => 0%Q
  end.

(** The integer nearest to [q], ties going to the even one. *)
Definition round_half_even (q : Q) : Z :=
  let f := Qfloor q in
  match (q - inject_Z f ?= 1 # 2)%Q with
  | Lt => f
  | Gt => (f + 1)%Z
  | Eq => if Z.even f then f else (f + 1)%Z
  end.

(** [round(x, ndigits)] for a float [x] and [ndigits >= 0]: the exact
    value of [x] is rounded to a decimal string of [ndigits] places,
    half to even, and the string is read back as a float; the sign
    stays, also on a result that is zero.  Infinities, NaNs and zeros
    round to themselves, and so does every float beyond 323 places. *)
Definition py_round (x : float) (ndigits : nat) : float :=
  match x with
  | S754_finite s m e =>
      if (323 <? ndigits)%nat then x
      else
        let k := round_half_even
                   (inject_Z (Zpos m) * 2 ^ e * inject_Z (10 ^ Z.of_nat ndigits))%Q in
        match k with
        | Zpos p => fdiv (S754_finite s p 0) (integer_operand (10 ^ Z.of_nat ndigits))
        | _ => S754_zero s
        end
  | _ => x
  end.

(** [sum] of floats: from the int 0, adding from the left.  (From
    CPython 3.12 on, [sum] also compensates the rounding errors of the
    additions; that is not modelled.) *)
Definition py_sum (l : list float) : float := fold_left fadd l (float_of_int 0).

(** *** Classes of floats *)

Definition is_nan (x : float) : bool :=
  match x with S754_nan => true | _ => false end.

Definition is_zero (x : float) : bool :=
  match x with S754_zero _ => true | _ => false end.

Definition zero_or_nan (x : float) : bool :=
  match x with S754_zero _ | S754_nan => true | _ => false end.

Definition zero_or_finite (x : float) : bool :=
  match x with S754_zero _ | S754_finite _ _ _ => true | _ => false end.

(** A zero, or a finite float in canonical form: what a Python [float]
    that is neither an infinity nor a NaN holds. *)
Definition is_finite (x : float) : bool :=
  match x with
  | S754_zero _ => true
  | S754_finite _ _ _ => valid_binary prec emax x
  | _ => false
  end.

(** The float of mantissa [m] and exponent [e] when [m] is not
    negative. *)
Definition nonneg_float (m e : Z) : float :=
  match m with
  | Z0 => S754_zero false
  | Zpos p => S754_finite false p e
  | Zneg _ => S754_nan
  end.

(** *** The order of the floats *)

(** A rank that orders the floats as [SFcompare] does: by class, then
    by exponent and mantissa. *)
Definition float_key (x : float) : Z * Z * Z :=
  match x with
  | S754_nan => (0, 0, 0)
  | S754_infinity true => (-2, 0, 0)
  | S754_infinity false => (2, 0, 0)
  | S754_zero _ => (0, 0, 0)
  | S754_finite true m e => (-1, - e, Zneg m)
  | S754_finite false m e => (1, e, Zpos m)
  end%Z.

Definition key_compare (a b : Z * Z * Z) : comparison :=
  match (a.1.1 ?= b.1.1)%Z with
  | Eq => match (a.1.2 ?= b.1.2)%Z with
          | Eq => (a.2 ?= b.2)%Z
          | c => c
          end
  | c => c
  end.

(** The number of places by which [shr_fexp] shifts a mantissa. *)
Definition shift_of (m e : Z) : Z :=
  Z.max 0 (fexp prec emax (Zdigits2 m + e) - e).

(** ** The lexicon and its cache *)

(** The parsed lexicon document: section name to (word to weight).  A
    weight is a float; a weight written as an integer is taken as the
    float it denotes, which gives what Python computes as long as the
    integers and their products stay below [2 ^ 53]. *)
Abbreviation lexicon := (gmap pystr (gmap pystr float)).

(** [lexicon.get(name, {})] *)
Definition lexicon_get (lex : lexicon) (name : string) : gmap pystr float :=
  default ∅ (lex !! py name).

Definition EMPTY_LEXICON : lexicon :=
  <[py "positif" := ∅]> (<[py "negatif" := ∅]>
    (<[py "intensifier" := ∅]> (<[py "negator" := ∅]> ∅))).

(** What [open] and [json.load] find at [LEXICON_PATH]: no file, a
    file that is no JSON text, or a lexicon document, that is, a JSON
    object whose sections are objects from words to numbers.  A JSON
    text of another shape (a list, a weight that is a string), on which
    the scorer would raise [AttributeError] or [TypeError] after
    [load_lexicon] has returned it, is not modelled. *)
Inductive lexicon_file :=
  | FileNotFound
  | FileMalformed
  | FileJson (lex : lexicon).

(** The process state the module touches: the file and the module-level
    cache [_lexicon].  The warning printed on a missing file is not
    modelled. *)
Record world := World {
  file_at_path : lexicon_file;
  cached_lexicon : option lexicon
}.

Inductive exn := JSONDecodeError.

Inductive outcome (A : Type) :=
  | Returns (a : A)
  | Raises (e : exn).
Arguments Returns {A} a.
Arguments Raises {A} e.

(** Computations that read and write the cache and may raise. *)
Definition M (A : Type) : Type := world -> outcome A * world.

#[export] Instance M_ret : MRet M := fun A a w => (Returns a, w).

#[export] Instance M_bind : MBind M := fun A B k m w =>
  match m w with
  | (Returns a, w') => k a w'
  | (Raises e, w') => (Raises e, w')
  end.

(** Only [FileNotFoundError] is caught; a decoding error leaves
    [load_lexicon] as an exception. *)
Definition load_lexicon : M lexicon :=
  fun w =>
    match cached_lexicon w with
    | Some lex => (Returns lex, w)
    | None =>
        match file_at_path w with
        | FileJson lex => (Returns lex, World (file_at_path w) (Some lex))
        | FileMalformed => (Raises JSONDecodeError, w)
        | FileNotFound =>
            (Returns EMPTY_LEXICON, World (file_at_path w) (Some EMPTY_LEXICON))
        end
    end.

(** ** Scoring *)

Section Sentiment.
Context `{UnicodeData}.

(** The [if]/[elif] on the positive and the negative section. *)
Definition base_weight (lex : lexicon) (word : pystr) : float :=
  match lexicon_get lex "positif" !! word with
  | Some w => w
  | None =>
      match lexicon_get lex "negatif" !! word with
      | Some w => w
      | None => fzero
      end
  end.

(** The body of the loop up to [score += word_score]. *)
Definition word_score (lex : lexicon) (prev_word prev_prev_word word : pystr) : float :=
  let word_score := base_weight lex word in
  let word_score :=
    match lexicon_get lex "negator" !! prev_word with
    | Some negator_value => fmul word_score negator_value
    | None => word_score
    end in
  let word_score :=
    match lexicon_get lex "intensifier" !! prev_word with
    | Some intensifier_value => fmul word_score intensifier_value
    | None => word_score
    end in
  match lexicon_get lex "intensifier" !! prev_prev_word with
  | Some intensifier_value => fmul word_score (fmul intensifier_value half)
  | None => word_score
  end.

(** The variables the loop updates. *)
Record loop_state := LoopState {
  score : float;
  prev_word : pystr;
  prev_prev_word : pystr
}.

Definition loop_body (lex : lexicon) (st : loop_state) (word : pystr) : loop_state :=
  {| score := fadd (score st) (word_score lex (prev_word st) (prev_prev_word st) word);
     prev_prev_word := prev_word st;
     prev_word := word |}.

(** [calculate_sentiment_score] after the lexicon is loaded. *)
Definition score_with (lex : lexicon) (text : py_value) : float :=
  let cleaned := clean_text text true in
  let words := tokenize cleaned in
  match words with
  | [] => fzero
  | _ :: _ =>
      let st := fold_left (loop_body lex) words (LoopState fzero [] []) in
      let normalized_score :=
        fdiv (score st) (float_of_int (Z.max (Z.of_nat (length words)) 1)) in
      py_round normalized_score 3
  end.

Definition calculate_sentiment_score (text : py_value) : M float :=
  lex ← load_lexicon;
  mret (score_with lex text).

Definition classify_sentiment (score positive_threshold negative_threshold : float)
  : pystr :=
  if flt positive_threshold score then py "positive"
  else if flt score negative_threshold then py "negative"
  else py "neutral".

(** The defaults [0.1] and [-0.1]. *)
Definition POSITIVE_THRESHOLD : float := tenth.
Definition NEGATIVE_THRESHOLD : float := Eval vm_compute in fopp tenth.

Record AnalysisResult := Result {
  original_text : py_value;
  cleaned_text : pystr;
  sentiment_score : float;
  sentiment_label : pystr
}.

Definition analyze_text (text : py_value) : M AnalysisResult :=
  let cleaned := clean_text text true in
  score ← calculate_sentiment_score text;
  let label := classify_sentiment score POSITIVE_THRESHOLD NEGATIVE_THRESHOLD in
  mret {| original_text := text;
         cleaned_text := cleaned;
         sentiment_score := score;
         sentiment_label := label |}.

(** The loop of [analyze_batch], [results] being the list built so far. *)
Fixpoint analyze_loop (texts : list py_value) (results : list AnalysisResult)
  : M (list AnalysisResult) :=
  match texts with
  | [] => mret results
  | text :: rest =>
      result ← analyze_text text;
      analyze_loop rest (results ++ [result])
  end.

Definition analyze_batch (texts : list py_value) : M (list AnalysisResult) :=
  analyze_loop texts [].

(** ** Batch summary *)

(** The percentages and the average are the int [0] in the summary of
    no results, and floats otherwise. *)
Record BatchSummary := Summary {
  total : Z;
  positive_count : Z;
  negative_count : Z;
  neutral_count : Z;
  positive_pct : number;
  negative_pct : number;
  neutral_pct : number;
  avg_score : number
}.

(** [sum(1 for r in results if r['sentiment_label'] == label)] *)
Definition count_label (label : pystr) (results : list AnalysisResult) : Z :=
  Z.of_nat (length (filter (fun r => sentiment_label r = label) results)).

(** [round(count / total * 100, 1)] *)
Definition percentage (count total : Z) : float :=
  py_round (fmul (int_truediv count total) hundred) 1.

Definition get_sentiment_summary (results : list AnalysisResult) : BatchSummary :=
  match results with
  | [] => Summary 0 0 0 0 (Int 0) (Int 0) (Int 0) (Int 0)
  | _ :: _ =>
      let total := Z.of_nat (length results) in
      let positive := count_label (py "positive") results in
      let negative := count_label (py "negative") results in
      let neutral := count_label (py "neutral") results in
      let avg_score :=
        fdiv (py_sum (sentiment_score <$> results)) (float_of_int total) in
      {| total := total;
         positive_count := positive;
         negative_count := negative;
         neutral_count := neutral;
         positive_pct := Float (percentage positive total);
         negative_pct := Float (percentage negative total);
         neutral_pct := Float (percentage neutral total);
         avg_score := Float (py_round avg_score 3) |}
  end.

(** ** Word ranking *)

(** A [dict] whose order is observed: the items in insertion order. *)
Abbreviation ordered_dict := (list (pystr * Z)).

(** [d[word] = d.get(word, 0) + 1]: an existing key keeps its place, a
    new one goes last. *)
Fixpoint dict_incr (word : pystr) (d : ordered_dict) : ordered_dict :=
  match d with
  | [] => [(word, (0 + 1)%Z)]
  | (k, v) :: d' =>
      if decide (k = word) then (k, (v + 1)%Z) :: d'
      else (k, v) :: dict_incr word d'
  end.

(** [d[k] = v] *)
Fixpoint dict_set (k : pystr) (v : Z) (d : ordered_dict) : ordered_dict :=
  match d with
  | [] => [(k, v)]
  | (k', v') :: d' =>
      if decide (k' = k) then (k', v) :: d'
      else (k', v') :: dict_set k v d'
  end.

(** [dict(items)] *)
Definition dict_of_items (items : list (pystr * Z)) : ordered_dict :=
  fold_left (fun d kv => dict_set kv.1 kv.2 d) items [].

(** The inner loop: count the tokens longer than two characters. *)
Definition count_words (word_freq : ordered_dict) (words : list pystr) : ordered_dict :=
  fold_left
    (fun d word => if (2 <? length word)%nat then dict_incr word d else d)
    words word_freq.

(** [if sentiment and result['sentiment_label'] != sentiment: continue] *)
Definition skipped (sentiment : option pystr) (result : AnalysisResult) : bool :=
  match sentiment with
  | Some (c :: s) => negb (bool_decide (sentiment_label result = c :: s))
  | _ => false
  end.

Definition word_frequencies (results : list AnalysisResult) (sentiment : option pystr)
  : ordered_dict :=
  fold_left
    (fun d result =>
       if skipped sentiment result then d
       else count_words d (tokenize (cleaned_text result)))
    results [].

(** [sorted(items, key=lambda x: x[1], reverse=True)]: a stable sort,
    larger counts first; items with equal counts keep their order.
    [insert_item] puts an item in front of the sorted items that followed
    it in the input: past the strictly larger counts and no further. *)
Fixpoint insert_item (x : pystr * Z) (l : list (pystr * Z)) : list (pystr * Z) :=
  match l with
  | [] => [x]
  | y :: l' => if (x.2 <? y.2)%Z then y :: insert_item x l' else x :: l
  end.

Definition sorted_by_count (items : list (pystr * Z)) : list (pystr * Z) :=
  foldr insert_item [] items.

(** [l[:n]] for a Python [int]: a negative [n] counts from the end. *)
Definition slice_to {A} (l : list A) (n : Z) : list A :=
  if (0 <=? n)%Z then take (Z.to_nat n) l
  else take (Z.to_nat (Z.of_nat (length l) + n)) l.

Definition get_top_words (results : list AnalysisResult) (sentiment : option pystr)
  (top_n : Z) : ordered_dict :=
  let word_freq := word_frequencies results sentiment in
  let sorted_words := sorted_by_count word_freq in
  dict_of_items (slice_to sorted_words top_n).

End Sentiment.

(** ** A sample lexicon and sample runs *)

Definition words_of (l : list (string * float)) : gmap pystr float :=
  list_to_map ((fun e => (py e.1, e.2)) <$> l).

Definition sample_lexicon : lexicon :=
  <[py "positif" := words_of [("bagus", float_of_int 3);
                              ("recommended", float_of_int 2)]]>
  (<[py "negatif" := words_of [("jelek", float_of_int (-3));
                               ("nyesel", float_of_int (-2))]]>
  (<[py "intensifier" := words_of [("banget", float_of_decimal 15 1);
                                   ("parah", float_of_decimal 15 1)]]>
  (<[py "negator" := words_of [("tidak", float_of_int (-1))]]> ∅))).

Definition sample_world : world := World (FileJson sample_lexicon) None.

Definition run {A} (m : M A) (w : world) : outcome A := (m w).1.

(** ** The specification's side

    Definitions that follow the words of the specification, to be
    compared with the ones above. *)

Section Specification.
Context `{UnicodeData}.

(** The token [k] places before position [i], if there is one. *)
Definition token_before (words : list pystr) (i k : nat) : option pystr :=
  if (k <=? i)%nat then words !! (i - k)%nat else None.

(** The value of a modifier: the weight of the token in the mapping,
    when there is such a token and the mapping lists it. *)
Definition modifier_value (mapping : gmap pystr float) (token : option pystr)
  : option float :=
  match token with
  | Some t => mapping !! t
  | None => None
  end.

(** The weight of the token at position [i], as section 4.3 words it. *)
Definition spec_token_weight (lex : lexicon) (words : list pystr) (i : nat) : float :=
  match words !! i with
  | None => fzero
  | Some token =>
      let weight :=
        match lexicon_get lex "positif" !! token with
        | Some w => w
        | None =>
            match lexicon_get lex "negatif" !! token with
            | Some w => w
            | None => fzero
            end
        end in
      let weight :=
        match modifier_value (lexicon_get lex "negator") (token_before words i 1) with
        | Some v => fmul weight v
        | None => weight
        end in
      let weight :=
        match modifier_value (lexicon_get lex "intensifier") (token_before words i 1) with
        | Some v => fmul weight v
        | None => weight
        end in
      match modifier_value (lexicon_get lex "intensifier") (token_before words i 2) with
      | Some v => fmul weight (fmul v half)
      | None => weight
      end
  end.

(** The running total over the first [n] tokens. *)
Fixpoint spec_total (lex : lexicon) (words : list pystr) (n : nat) : float :=
  match n with
  | O => fzero
  | S n' => fadd (spec_total lex words n') (spec_token_weight lex words n')
  end.

(** Whitespace splitting: [words] are the runs of characters other than
    whitespace of the text, each as long as it can be, in their order. *)
Inductive whitespace_tokens : pystr -> list pystr -> Prop :=
  | tokens_nil : whitespace_tokens [] []
  | tokens_space (sp : char) (s : pystr) (words : list pystr) :
      is_space sp = true ->
      whitespace_tokens s words ->
      whitespace_tokens (sp :: s) words
  | tokens_last (t : pystr) :
      t <> [] ->
      Forall (fun c => is_space c = false) t ->
      whitespace_tokens t [t]
  | tokens_more (t : pystr) (sp : char) (s : pystr) (words : list pystr) :
      t <> [] ->
      Forall (fun c => is_space c = false) t ->
      is_space sp = true ->
      whitespace_tokens s words ->
      whitespace_tokens (t ++ sp :: s) (t :: words).

(** [k] is the integer nearest to [q], the even one of the two when [q]
    lies half way between them. *)
Definition nearest_integer (q : Q) (k : Z) : Prop :=
  (Qabs (inject_Z k - q) <= 1 # 2)%Q
  /\ ((Qabs (inject_Z k - q) == 1 # 2)%Q -> Z.even k = true).

(** [r] is [x] rounded to [ndigits] decimal places: the float written
    with the digits of the decimal number of [ndigits] places nearest to
    [x], with the sign of [x]; a zero, an infinity and a NaN stay as
    they are. *)
Definition rounded_to_decimals (ndigits : nat) (x r : float) : Prop :=
  match x with
  | S754_finite s m e =>
      exists k : Z,
        nearest_integer
          (inject_Z (Zpos m) * 2 ^ e * inject_Z (10 ^ Z.of_nat ndigits))%Q k
        /\ r = match k with
               | Z0 => S754_zero s
               | _ => float_of_decimal (if s then (- k)%Z else k) ndigits
               end
  | _ => r = x
  end.

(** The score of the tokens [words], as section 4.3 words it: 0.0 for
    no token, and otherwise the running total divided by the token count
    and rounded to 3 decimal places. *)
Definition stated_score (lex : lexicon) (words : list pystr) (score : float) : Prop :=
  match words with
  | [] => score = fzero
  | _ :: _ =>
      rounded_to_decimals 3
        (fdiv (spec_total lex words (length words))
              (float_of_int (Z.of_nat (length words))))
        score
  end.

(** [k] tenths is the share of [count] in [total], in percent, rounded
    to one decimal place: the nearest such decimal, but for what the
    rounding of the division and of the multiplication by 100 can move
    the value before (less than [2 ^ -43]). *)
Definition rounded_share (k count total : Z) : Prop :=
  (Qabs (inject_Z k / 10 - 100 * inject_Z count / inject_Z total)
   <= (1 # 20) + 2 ^ (-43))%Q.

(** What the loop variables hold when [i] tokens have been read. *)
Definition loop_state_at (lex : lexicon) (words : list pystr) (i : nat)
  (st : loop_state) : Prop :=
  score st = spec_total lex words i
  /\ prev_word st = default [] (token_before words i 1)
  /\ prev_prev_word st = default [] (token_before words i 2).

(** The lexicon lists words: the empty string is no negator and no
    intensifier. *)
Definition lists_words (lex : lexicon) : Prop :=
  lexicon_get lex "negator" !! ([] : pystr) = None
  /\ lexicon_get lex "intensifier" !! ([] : pystr) = None.

(** The lexicon can be had: it is cached, or the file is absent or
    holds a lexicon document. *)
Definition loadable (w : world) : Prop :=
  cached_lexicon w <> None \/ file_at_path w <> FileMalformed.

(** The record [analyze_text] builds once the lexicon is loaded. *)
Definition result_with (lex : lexicon) (text : py_value) : AnalysisResult :=
  {| original_text := text;
     cleaned_text := clean_text text true;
     sentiment_score := score_with lex text;
     sentiment_label :=
       classify_sentiment (score_with lex text)
         POSITIVE_THRESHOLD NEGATIVE_THRESHOLD |}.

(** A value that is not a non-empty [str]. *)
Definition not_a_text (text : py_value) : Prop :=
  match text with
  | PyStr (_ :: _) => False
  | _ => True
  end.

Definition is_label (l : pystr) : Prop :=
  l = py "positive" \/ l = py "negative" \/ l = py "neutral".

(** The tokens [get_top_words] reads, in the order it reads them. *)
Definition tokens_read (results : list AnalysisResult) (sentiment : option pystr)
  : list pystr :=
  concat ((fun r => if skipped sentiment r then [] else tokenize (cleaned_text r))
          <$> results).

(** The position at which [word] first appears in [stream]. *)
Fixpoint first_index (word : pystr) (stream : list pystr) : option nat :=
  match stream with
  | [] => None
  | t :: stream' =>
      if decide (t = word) then Some O
      else S <$> first_index word stream'
  end.

(** How often [word] appears in [stream]. *)
Definition occurrences (word : pystr) (stream : list pystr) : Z :=
  Z.of_nat (length (filter (fun t => t = word) stream)).

(** [a]'s word first appears in [stream] before [b]'s word does. *)
Definition seen_before (stream : list pystr) (a b : pystr * Z) : Prop :=
  exists ia ib,
    first_index a.1 stream = Some ia
    /\ first_index b.1 stream = Some ib
    /\ (ia < ib)%nat.

(** The order of the table: the larger count first and, among equal
    counts, the word seen first. *)
Definition ranked_before (stream : list pystr) (a b : pystr * Z) : Prop :=
  (b.2 < a.2)%Z \/ (a.2 = b.2 /\ seen_before stream a b).

(** What [word_freq] holds when the tokens of [stream] have been read. *)
Definition counted (stream : list pystr) (d : list (pystr * Z)) : Prop :=
  NoDup d.*1
  /\ StronglySorted (seen_before stream) d
  /\ Forall (fun kv => (2 < length kv.1)%nat
                        /\ kv.2 = occurrences kv.1 stream) d
  /\ (forall t, t ∈ stream -> (2 < length t)%nat -> t ∈ d.*1)
  /\ (forall k, k ∈ d.*1 -> k ∈ stream).

(** One more occurrence of [word], for the item that counts it. *)
Definition bump (word : pystr) (kv : pystr * Z) : pystr * Z :=
  if decide (kv.1 = word) then (kv.1, (kv.2 + 1)%Z) else kv.

(** Neither punctuation nor any other special character. *)
Definition word_or_space (c : char) : Prop :=
  is_word c = true \/ is_space c = true.

(** "Already clean": lower case, every character a word character or
    whitespace (so no punctuation and no other character that is
    neither, and with them no URL, no mention, no hashtag), and no token
    that the slang table lists. *)
Definition already_clean (x : pystr) : Prop :=
  lower x = x
  /\ Forall word_or_space x
  /\ remove_urls x = x
  /\ remove_mentions x = x
  /\ Forall (fun t => SLANG_DICT !! t = None) (split x).

(** A token made of digits only: a standalone number. *)
Definition is_number (t : pystr) : bool := forallb is_digit t.

(** The tokens of [x] that are no standalone numbers. *)
Definition kept_tokens (x : pystr) : list pystr :=
  filter (fun t => is_number t = false) (split x).

(** A character that stays as it is through [clean_text]: a word
    character or whitespace, in lower case, outside the emoji ranges. *)
Definition plain_char (c : char) : Prop :=
  word_or_space c
  /\ lower_char c = c
  /\ is_emoji c = false.

(** No character from the ranges that [remove_emojis] deletes. *)
Definition emoji_free (x : pystr) : Prop :=
  Forall (fun c => is_emoji c = false) x.

End Specification.

(** * More of the sources *)

(** The order of the labels, from the lowest. *)
Definition label_rank (label : pystr) : nat :=
  if decide (label = py "positive") then 2
  else if decide (label = py "negative") then 0
  else 1.

(** Every negator and every intensifier value is a finite float: no
    infinity (as the JSON number [1e999] gives) and no NaN. *)
Definition finite_modifiers (lex : lexicon) : Prop :=
  forall (name : string) (word : pystr) (v : float),
    name = "negator"%string \/ name = "intensifier"%string ->
    lexicon_get lex name !! word = Some v ->
    is_finite v = true.

(** [get_word_frequencies] of [utils.py]: the counting loop of
    [get_top_words] over plain texts, and all the items, sorted. *)
Definition get_word_frequencies (texts : list pystr) : list (pystr * Z) :=
  let freq := fold_left (fun d text => count_words d (tokenize text)) texts [] in
  dict_of_items (sorted_by_count freq).

Section MoreUtils.
Context `{UnicodeData}.

(** [#\w+], replaced by nothing: [remove_hashtags] deletes the hashtag,
    where [clean_text] keeps its word. *)
Definition match_hashtag_word (prev : option char) (s : pystr) : option (nat * pystr) :=
  match s with
  | c :: rest =>
      if (c =? 35)%N then
        match span_len is_word rest with
        | O => None
        | n => Some (S n, [])
        end
      else None
  | [] => None
  end.

Definition remove_hashtags (text : pystr) : pystr := re_sub match_hashtag_word text.

End MoreUtils.

(** ** [visualization.py]: what the charts compute from the results *)

(** [COLORS[key]] for the three labels. *)
Definition COLORS (key : pystr) : pystr :=
  if decide (key = py "positive") then py "#22c55e"
  else if decide (key = py "negative") then py "#ef4444"
  else py "#6b7280".

(** The colour [create_score_histogram] gives the bar of a bin, from the
    centre [(bins[i] + bins[i+1]) / 2] of the bin. *)
Definition patch_facecolor (bin_low bin_high : float) : pystr :=
  let bin_center := fdiv (fadd bin_low bin_high) (float_of_int 2) in
  if flt tenth bin_center then COLORS (py "positive")
  else if flt bin_center (fopp tenth) then COLORS (py "negative")
  else COLORS (py "neutral").

(** The frequencies [create_wordcloud_by_sentiment] hands to the word
    cloud: the words of the results whose label equals [sentiment]. *)
Definition wordcloud_frequencies (results : list AnalysisResult) (sentiment : pystr)
  : list (pystr * Z) :=
  fold_left
    (fun d result =>
       if bool_decide (sentiment_label result = sentiment)
       then count_words d (tokenize (cleaned_text result))
       else d)
    results [].

(** ** [scraper.py]: from the items of the dataset to the comments *)

(** What the Apify client hands over: decoded JSON.  The fields of an
    object are those of a Python [dict], each key once. *)
#[warnings="-register-all"]
Inductive json :=
  | JNull
  | JBool (b : bool)
  | JNum (x : number)
  | JStr (s : pystr)
  | JList (elements : list json)
  | JObj (fields : list (pystr * json)).

Inductive scraper_error := ValueError | AttributeError.

Inductive attempt (A : Type) :=
  | Done (a : A)
  | Failed (e : scraper_error).
Arguments Done {A} a.
Arguments Failed {A} e.

#[export] Instance attempt_ret : MRet attempt := fun A a => Done a.

#[export] Instance attempt_bind : MBind attempt := fun A B k m =>
  match m with
  | Done a => k a
  | Failed e => Failed e
  end.

(** [bool(v)], as [not text] uses it. *)
Definition truthy (v : json) : bool :=
  match v with
  | JNull => false
  | JBool b => b
  | JNum (Int z) => negb (z =? 0)%Z
  | JNum (Float x) => negb (feq x fzero)
  | JStr s => match s with [] => false | _ :: _ => true end
  | JList l => match l with [] => false | _ :: _ => true end
  | JObj f => match f with [] => false | _ :: _ => true end
  end.

Fixpoint fields_get (fields : list (pystr * json)) (key : pystr) : option json :=
  match fields with
  | [] => None
  | (k, v) :: rest => if decide (k = key) then Some v else fields_get rest key
  end.

(** [d.get(key, default)]: only a [dict] has a [get]. *)
Definition py_get (d : json) (key : string) (fallback : json) : attempt json :=
  match d with
  | JObj fields => Done (default fallback (fields_get fields (py key)))
  | _ => Failed AttributeError
  end.

Record comment := Comment {
  comment_text : json;
  username : json;
  video_url : pystr;
  likes_count : json;
  reply_count : json;
  created_at : json
}.

Record video_meta := VideoMeta {
  meta_video_url : pystr;
  video_title : pystr;
  author : pystr;
  meta_likes_count : Z;
  comments_count : Z
}.

Record scrape_result := ScrapeResult {
  videos : list video_meta;
  comments : list comment
}.

(** One turn of the loop over the items: [None] stands for [continue]. *)
Definition comment_of_item (video_url : pystr) (item : json) : attempt (option comment) :=
  text ← py_get item "text" (JStr []);
  if negb (truthy text) then mret None
  else
    author ← py_get item "author" (JObj []);
    username ← py_get author "uniqueId" (JStr (py "user"));
    likes_count ← py_get item "diggCount" (JNum (Int 0));
    reply_count ← py_get item "replyCount" (JNum (Int 0));
    created_at ← py_get item "createTimeISO" (JStr []);
    mret (Some {| comment_text := text;
                  username := username;
                  video_url := video_url;
                  likes_count := likes_count;
                  reply_count := reply_count;
                  created_at := created_at |}).

Fixpoint collect_comments (video_url : pystr) (items : list json)
  (comments : list comment) : attempt (list comment) :=
  match items with
  | [] => mret comments
  | item :: rest =>
      c ← comment_of_item video_url item;
      collect_comments video_url rest
        (match c with Some c => comments ++ [c] | None => comments end)
  end.

(** [scrape_comments_apify], given what the run of the actor leaves in
    its dataset ([max_comments] only goes into the input of the actor;
    failures of the client itself are not modelled). *)
Definition scrape_comments_apify (video_url api_token : pystr) (max_comments : Z)
  (dataset : list json) : attempt scrape_result :=
  match api_token with
  | [] => Failed ValueError
  | _ :: _ =>
      comments ← collect_comments video_url dataset [];
      mret {| videos := [ {| meta_video_url := video_url;
                             video_title := py "TikTok Video";
                             author := py "Unknown";
                             meta_likes_count := 0;
                             comments_count := 0 |} ];
              comments := comments |}
  end.

(** [item.get('text', '')] of an item that is an object. *)
Definition item_text (item : json) : json :=
  match item with
  | JObj fields => default (JStr []) (fields_get fields (py "text"))
  | _ => JNull
  end.

(** An item the loop can handle: an object whose author, if the text
    makes it look for one, is missing or an object itself. *)
Definition usable_item (item : json) : Prop :=
  match item with
  | JObj fields =>
      truthy (item_text item) = false
      \/ match fields_get fields (py "author") with
         | None | Some (JObj _) => True
         | Some _ => False
         end
  | _ => False
  end.

(** No [@\w+] starts anywhere in [s]. *)
Fixpoint mention_free `{UnicodeData} (s : pystr) : Prop :=
  match s with
  | [] => True
  | c :: s' => match_mention None s = None /\ mention_free s'
  end.

(** * Properties *)

(** ** Binary64: the order *)

Lemma Pos_compare_cont_Eq (a b : positive) :
  Pos.compare_cont Eq a b = (a ?= b)%positive.
Proof. reflexivity. Qed.

Lemma SFcompare_key (x y : float) :
  SFcompare x y
  = if is_nan x || is_nan y then None
    else Some (key_compare (float_key x) (float_key y)).
Proof.
  destruct x as [sx|sx| |sx mx ex], y as [sy|sy| |sy my ey];
    try destruct sx; try destruct sy; try reflexivity.
  unfold key_compare. cbn [SFcompare is_nan orb float_key fst snd].
  change (-1 ?= -1)%Z with Eq. cbv iota.
  rewrite Z.compare_opp, (Z.compare_antisym ex ey).
  destruct (ex ?= ey)%Z; reflexivity.
Qed.

Lemma key_compare_lt_le_trans (a b c : Z * Z * Z) :
  key_compare a b = Lt -> key_compare b c <> Gt -> key_compare a c = Lt.
Proof.
  destruct a as [[a1 a2] a3], b as [[b1 b2] b3], c as [[c1 c2] c3].
  unfold key_compare. cbn [fst snd].
  destruct (Z.compare_spec a1 b1), (Z.compare_spec b1 c1),
    (Z.compare_spec a2 b2), (Z.compare_spec b2 c2),
    (Z.compare_spec a3 b3), (Z.compare_spec b3 c3);
    intros Hab Hbc; try discriminate; try (exfalso; apply Hbc; reflexivity);
    subst;
    repeat match goal with
      | |- context [(?x ?= ?y)%Z] => destruct (Z.compare_spec x y)
      end; try reflexivity; try lia.
Qed.

Lemma key_compare_le_lt_trans (a b c : Z * Z * Z) :
  key_compare a b <> Gt -> key_compare b c = Lt -> key_compare a c = Lt.
Proof.
  destruct a as [[a1 a2] a3], b as [[b1 b2] b3], c as [[c1 c2] c3].
  unfold key_compare. cbn [fst snd].
  destruct (Z.compare_spec a1 b1), (Z.compare_spec b1 c1),
    (Z.compare_spec a2 b2), (Z.compare_spec b2 c2),
    (Z.compare_spec a3 b3), (Z.compare_spec b3 c3);
    intros Hab Hbc; try discriminate; try (exfalso; apply Hab; reflexivity);
    subst;
    repeat match goal with
      | |- context [(?x ?= ?y)%Z] => destruct (Z.compare_spec x y)
      end; try reflexivity; try lia.
Qed.

Lemma key_compare_antisym (a b : Z * Z * Z) :
  key_compare b a = CompOpp (key_compare a b).
Proof.
  destruct a as [[a1 a2] a3], b as [[b1 b2] b3].
  unfold key_compare. cbn [fst snd].
  rewrite (Z.compare_antisym a1 b1), (Z.compare_antisym a2 b2),
    (Z.compare_antisym a3 b3).
  destruct (a1 ?= b1)%Z, (a2 ?= b2)%Z, (a3 ?= b3)%Z; reflexivity.
Qed.

Lemma flt_spec (x y : float) :
  flt x y = true
  <-> is_nan x = false /\ is_nan y = false
      /\ key_compare (float_key x) (float_key y) = Lt.
Proof.
  unfold flt, SFltb. rewrite SFcompare_key.
  destruct (is_nan x), (is_nan y); cbn [orb];
    try (split; [discriminate|intros (? & ? & ?); discriminate]).
  destruct (key_compare (float_key x) (float_key y));
    split; try discriminate; try tauto; intros (_ & _ & ?); discriminate.
Qed.

Lemma fle_spec (x y : float) :
  fle x y = true
  <-> is_nan x = false /\ is_nan y = false
      /\ key_compare (float_key x) (float_key y) <> Gt.
Proof.
  unfold fle, SFleb. rewrite SFcompare_key.
  destruct (is_nan x), (is_nan y); cbn [orb];
    try (split; [discriminate|intros (? & ? & ?); discriminate]).
  destruct (key_compare (float_key x) (float_key y));
    split; try discriminate; try tauto;
    try (intros _; repeat split; discriminate);
    try (intros (_ & _ & Hc); congruence).
Qed.

Lemma feq_spec (x y : float) :
  feq x y = true
  <-> is_nan x = false /\ is_nan y = false
      /\ key_compare (float_key x) (float_key y) = Eq.
Proof.
  unfold feq, SFeqb. rewrite SFcompare_key.
  destruct (is_nan x), (is_nan y); cbn [orb];
    try (split; [discriminate|intros (? & ? & ?); discriminate]).
  destruct (key_compare (float_key x) (float_key y));
    split; try discriminate; try tauto; intros (_ & _ & ?); discriminate.
Qed.

Lemma flt_fle_trans (x y z : float) :
  flt x y = true -> fle y z = true -> flt x z = true.
Proof.
  rewrite !flt_spec, fle_spec. intros (Hx & _ & Hxy) (_ & Hz & Hyz).
  repeat split; try assumption.
  exact (key_compare_lt_le_trans _ _ _ Hxy Hyz).
Qed.

Lemma fle_flt_trans (x y z : float) :
  fle x y = true -> flt y z = true -> flt x z = true.
Proof.
  rewrite !flt_spec, fle_spec. intros (Hx & _ & Hxy) (_ & Hz & Hyz).
  repeat split; try assumption.
  exact (key_compare_le_lt_trans _ _ _ Hxy Hyz).
Qed.

Lemma flt_irrefl (x : float) : flt x x = false.
Proof.
  destruct (flt x x) eqn:Hlt; [|reflexivity].
  apply flt_spec in Hlt as (_ & _ & Hc).
  pose proof (key_compare_antisym (float_key x) (float_key x)) as Ha.
  rewrite Hc in Ha. discriminate.
Qed.

Lemma flt_fle (x y : float) : flt x y = true -> fle x y = true.
Proof.
  rewrite flt_spec, fle_spec. intros (Hx & Hy & Hc).
  repeat split; try assumption. congruence.
Qed.

Lemma feq_fle (x y : float) : feq x y = true -> fle x y = true /\ fle y x = true.
Proof.
  rewrite feq_spec, !fle_spec. intros (Hx & Hy & Hc).
  repeat split; try assumption; [congruence|].
  rewrite key_compare_antisym, Hc. discriminate.
Qed.

Lemma flt_not_fle (x y : float) : flt x y = true -> fle y x = false.
Proof.
  intros Hlt. destruct (fle y x) eqn:Hle; [|reflexivity].
  pose proof (flt_fle_trans _ _ _ Hlt Hle) as Hxx.
  rewrite flt_irrefl in Hxx. discriminate.
Qed.


(** ** Binary64: what rounding does to a mantissa *)

Lemma digits2_pos_bounds (p : positive) :
  (2 ^ (Zpos (digits2_pos p) - 1) <= Zpos p < 2 ^ Zpos (digits2_pos p))%Z.
Proof.
  induction p as [p IH|p IH|]; cbn [digits2_pos].
  - rewrite Pos2Z.inj_succ.
    replace (Z.succ (Zpos (digits2_pos p)) - 1)%Z
      with (Z.succ (Zpos (digits2_pos p) - 1))%Z by lia.
    rewrite !Z.pow_succ_r by lia. lia.
  - rewrite Pos2Z.inj_succ.
    replace (Z.succ (Zpos (digits2_pos p)) - 1)%Z
      with (Z.succ (Zpos (digits2_pos p) - 1))%Z by lia.
    rewrite !Z.pow_succ_r by lia. lia.
  - cbn. lia.
Qed.

Lemma Zdigits2_bounds (m : Z) :
  (0 < m)%Z -> (2 ^ (Zdigits2 m - 1) <= m < 2 ^ Zdigits2 m)%Z.
Proof.
  destruct m as [|p|p]; try lia. intros _. apply digits2_pos_bounds.
Qed.

Lemma Zdigits2_nonneg (m : Z) : (0 <= Zdigits2 m)%Z.
Proof. destruct m; cbn; lia. Qed.

Lemma shr_1_m (mrs : shr_record) :
  (0 <= shr_m mrs)%Z -> shr_m (shr_1 mrs) = (shr_m mrs / 2)%Z.
Proof.
  destruct mrs as [m r s]. cbn [shr_m]. intros Hm.
  destruct m as [|[p|p|]|p]; cbn [shr_1 shr_m]; try reflexivity; try lia.
  - apply Z.div_unique with 1%Z; lia.
  - apply Z.div_unique with 0%Z; lia.
Qed.

Lemma div_pow2_twice (m a b : Z) :
  (0 <= a)%Z -> (0 <= b)%Z -> (m / 2 ^ a / 2 ^ b = m / 2 ^ (a + b))%Z.
Proof.
  intros Ha Hb.
  assert (H2a : (0 < 2 ^ a)%Z) by (apply Z.pow_pos_nonneg; lia).
  assert (H2b : (0 < 2 ^ b)%Z) by (apply Z.pow_pos_nonneg; lia).
  rewrite Z.pow_add_r by assumption.
  rewrite Z.div_div; [reflexivity|lia|lia].
Qed.

Lemma div_pow2_nonneg (m a : Z) : (0 <= m)%Z -> (0 <= a)%Z -> (0 <= m / 2 ^ a)%Z.
Proof.
  intros Hm Ha. apply Z.div_pos; [exact Hm|]. apply Z.pow_pos_nonneg; lia.
Qed.

Lemma iter_pos_shr_1_m (p : positive) (mrs : shr_record) :
  (0 <= shr_m mrs)%Z ->
  shr_m (SpecFloat.iter_pos shr_1 p mrs) = (shr_m mrs / 2 ^ Zpos p)%Z.
Proof.
  revert mrs. induction p as [p IH|p IH|]; intros mrs Hm; cbn [SpecFloat.iter_pos].
  - assert (H1 : (0 <= shr_m (shr_1 mrs))%Z).
    { rewrite shr_1_m by exact Hm. apply (div_pow2_nonneg _ 1); lia. }
    rewrite IH; [rewrite IH by exact H1|].
    + rewrite shr_1_m by exact Hm.
      change (shr_m mrs / 2)%Z with (shr_m mrs / 2 ^ 1)%Z.
      rewrite !div_pow2_twice by lia. f_equal. f_equal. lia.
    + rewrite IH by exact H1. apply div_pow2_nonneg; [exact H1|lia].
  - rewrite IH; [rewrite IH by exact Hm|].
    + rewrite div_pow2_twice by lia. f_equal. f_equal. lia.
    + rewrite IH by exact Hm. apply div_pow2_nonneg; [exact Hm|lia].
  - rewrite shr_1_m by exact Hm. reflexivity.
Qed.

Lemma shr_fexp_m (m e : Z) (l : location) :
  (0 <= m)%Z ->
  shr_fexp prec emax m e l
  = ((shr_fexp prec emax m e l).1, (e + shift_of m e)%Z)
  /\ shr_m (shr_fexp prec emax m e l).1 = (m / 2 ^ shift_of m e)%Z.
Proof.
  intros Hm. unfold shr_fexp, shift_of, shr.
  assert (Hrec : shr_m (shr_record_of_loc m l) = m).
  { destruct l as [|[| |]]; reflexivity. }
  destruct (fexp prec emax (Zdigits2 m + e) - e)%Z as [|p|p] eqn:Hn; cbn [fst snd].
  - rewrite Z.max_l by lia. rewrite Z.add_0_r, Hrec, Z.pow_0_r, Z.div_1_r.
    split; reflexivity.
  - rewrite Z.max_r by lia. split; [reflexivity|].
    rewrite iter_pos_shr_1_m by (rewrite Hrec; exact Hm).
    rewrite Hrec. reflexivity.
  - rewrite Z.max_l by lia. rewrite Z.add_0_r, Hrec, Z.pow_0_r, Z.div_1_r.
    split; reflexivity.
Qed.

Lemma round_nearest_even_range (m : Z) (l : location) :
  (m <= round_nearest_even m l <= m + 1)%Z.
Proof.
  unfold round_nearest_even.
  destruct l as [|[| |]]; try destruct (Z.even m); lia.
Qed.

(** The two shifts and the rounding between them. *)
Lemma binary_round_aux_spec (s : bool) (m e : Z) (l : location) :
  (0 <= m)%Z ->
  exists m1 m2 m3 e1 e3 : Z,
    e1 = (e + shift_of m e)%Z
    /\ m1 = (m / 2 ^ shift_of m e)%Z
    /\ (m1 <= m2 <= m1 + 1)%Z
    /\ e3 = (e1 + shift_of m2 e1)%Z
    /\ m3 = (m2 / 2 ^ shift_of m2 e1)%Z
    /\ (0 <= m3)%Z
    /\ binary_round_aux prec emax s m e l
       = match m3 with
         | Z0 => S754_zero s
         | Zpos p => if (e3 <=? emax - prec)%Z then S754_finite s p e3
                     else S754_infinity s
         | Zneg _ => S754_nan
         end.
Proof.
  intros Hm. unfold binary_round_aux.
  destruct (shr_fexp_m m e l Hm) as [Heq1 Hm1].
  rewrite Heq1.
  set (mrs1 := (shr_fexp prec emax m e l).1) in *.
  set (e1 := (e + shift_of m e)%Z).
  set (m2 := round_nearest_even (shr_m mrs1) (loc_of_shr_record mrs1)).
  assert (H1 : (0 <= shr_m mrs1)%Z).
  { rewrite Hm1. apply div_pow2_nonneg; [exact Hm|]. unfold shift_of. lia. }
  pose proof (round_nearest_even_range (shr_m mrs1) (loc_of_shr_record mrs1)) as Hr.
  fold m2 in Hr.
  assert (H2 : (0 <= m2)%Z) by lia.
  destruct (shr_fexp_m m2 e1 loc_Exact H2) as [Heq2 Hm3].
  rewrite Heq2.
  exists (shr_m mrs1), m2, (shr_m (shr_fexp prec emax m2 e1 loc_Exact).1),
    e1, (e1 + shift_of m2 e1)%Z.
  repeat split; try assumption; try lia.
  rewrite Hm3. apply div_pow2_nonneg; [exact H2|]. unfold shift_of. lia.
Qed.


(** ** Binary64: how far rounding moves a value *)

Lemma fexp_binary64 (z : Z) : fexp prec emax z = Z.max (z - 53) (-1074).
Proof. reflexivity. Qed.

Lemma pow2_pos (e : Z) : (0 < 2 ^ e)%Q.
Proof. apply Qpower_0_lt. reflexivity. Qed.

Lemma pow2_add (a b : Z) : (2 ^ (a + b) == 2 ^ a * 2 ^ b)%Q.
Proof. apply Qpower_plus. discriminate. Qed.

Lemma pow2_le (a b : Z) : (a <= b)%Z -> (2 ^ a <= 2 ^ b)%Q.
Proof. intros Hab. apply Qpower_le_compat_l; [exact Hab|discriminate]. Qed.

Lemma pow2_lt_inv (a b : Z) : (2 ^ a < 2 ^ b)%Q -> (a < b)%Z.
Proof. intros Hab. apply (Qpower_lt_compat_l_inv 2); [exact Hab|reflexivity]. Qed.

Lemma pow2_inject (n : Z) : (0 <= n)%Z -> (inject_Z (2 ^ n) == 2 ^ n)%Q.
Proof. intros Hn. apply (Zpower_Qpower 2 n Hn). Qed.

Lemma pow2_succ (a : Z) : (2 ^ (a + 1) == 2 * 2 ^ a)%Q.
Proof. rewrite pow2_add. change (2 ^ 1)%Q with 2%Q. ring. Qed.

(** Shifting [n] places keeps the value between the same two
    neighbours, now [2 ^ n] times as far apart. *)
Lemma shift_between (m e n : Z) (x : Q) :
  (0 <= m)%Z -> (0 <= n)%Z ->
  (inject_Z m * 2 ^ e <= x)%Q ->
  (x <= inject_Z (m + 1) * 2 ^ e)%Q ->
  (inject_Z (m / 2 ^ n) * 2 ^ (e + n) <= x)%Q
  /\ (x <= inject_Z (m / 2 ^ n + 1) * 2 ^ (e + n))%Q.
Proof.
  intros Hm Hn Hlo Hhi.
  assert (H2n : (0 < 2 ^ n)%Z) by (apply Z.pow_pos_nonneg; lia).
  pose proof (Z.mul_div_le m (2 ^ n) H2n) as Hdiv_lo.
  pose proof (Z.mul_succ_div_gt m (2 ^ n) H2n) as Hdiv_hi.
  pose proof (pow2_pos e) as He.
  rewrite (Z.add_comm e n), pow2_add, <- (pow2_inject n Hn).
  split.
  - apply Qle_trans with (inject_Z m * 2 ^ e)%Q; [|exact Hlo].
    rewrite Qmult_assoc, <- inject_Z_mult.
    apply Qmult_le_compat_r; [|apply Qlt_le_weak; exact He].
    rewrite <- Zle_Qle. lia.
  - apply Qle_trans with (inject_Z (m + 1) * 2 ^ e)%Q; [exact Hhi|].
    rewrite Qmult_assoc, <- inject_Z_mult.
    apply Qmult_le_compat_r; [|apply Qlt_le_weak; exact He].
    rewrite <- Zle_Qle. lia.
Qed.

(** The exponent after a shift, for a value below [2 ^ (K + 1)]. *)
Lemma shift_exponent (m e K : Z) :
  (0 <= m)%Z ->
  (inject_Z m * 2 ^ e < 2 ^ (K + 1))%Q ->
  (e <= K - 52)%Z -> (-1000 <= K)%Z ->
  (e + shift_of m e <= K - 52)%Z.
Proof.
  intros Hm Hx He HK. unfold shift_of. rewrite fexp_binary64.
  destruct (Z.eq_dec m 0%Z) as [->|Hne].
  - cbn [Zdigits2]. lia.
  - pose proof (Zdigits2_bounds m ltac:(lia)) as [Hd _].
    assert (Hlt : (2 ^ (Zdigits2 m - 1 + e) < 2 ^ (K + 1))%Q).
    { apply Qle_lt_trans with (inject_Z m * 2 ^ e)%Q; [|exact Hx].
      rewrite pow2_add.
      apply Qmult_le_compat_r; [|apply Qlt_le_weak, pow2_pos].
      rewrite <- pow2_inject by (pose proof (Zdigits2_nonneg m); destruct m; cbn in *; lia).
      rewrite <- Zle_Qle. exact Hd. }
    apply pow2_lt_inv in Hlt. lia.
Qed.


(** Rounding a value of at most [2 ^ K], given between two neighbouring
    multiples of [2 ^ e], yields zero or a finite float within
    [2 ^ (K - 51)] of it. *)
Lemma binary_round_aux_bound (s : bool) (m e : Z) (l : location) (x : Q) (K : Z) :
  (0 <= m)%Z ->
  (inject_Z m * 2 ^ e <= x)%Q ->
  (x <= inject_Z (m + 1) * 2 ^ e)%Q ->
  (x <= 2 ^ K)%Q ->
  (-1000 <= K <= 1023)%Z ->
  (e <= K - 52)%Z ->
  exists m3 e3 : Z,
    (0 <= m3)%Z
    /\ (e3 <= K - 52)%Z
    /\ binary_round_aux prec emax s m e l
       = match m3 with
         | Z0 => S754_zero s
         | Zpos p => S754_finite s p e3
         | Zneg _ => S754_nan
         end
    /\ (Qabs (inject_Z m3 * 2 ^ e3 - x) <= 2 ^ (K - 51))%Q.
Proof.
  intros Hm Hlo Hhi HxK HK He.
  destruct (binary_round_aux_spec s m e l Hm)
    as (m1 & m2 & m3 & e1 & e3 & He1 & Hm1 & Hm2 & He3 & Hm3 & Hm3nn & Hres).
  assert (Hn1 : (0 <= shift_of m e)%Z) by (unfold shift_of; lia).
  assert (Hn3 : (0 <= shift_of m2 e1)%Z) by (unfold shift_of; lia).
  assert (HK1 : (2 ^ K < 2 ^ (K + 1))%Q).
  { rewrite pow2_succ. pose proof (pow2_pos K). lra. }
  (* the first shift *)
  assert (He1K : (e1 <= K - 52)%Z).
  { rewrite He1. apply shift_exponent; try assumption; try lia.
    apply Qle_lt_trans with x; [exact Hlo|].
    apply Qle_lt_trans with (2 ^ K)%Q; assumption. }
  destruct (shift_between m e (shift_of m e) x Hm Hn1 Hlo Hhi) as [Hlo1 Hhi1].
  rewrite <- He1, <- Hm1 in Hlo1, Hhi1.
  assert (Hm1nn : (0 <= m1)%Z) by (rewrite Hm1; apply div_pow2_nonneg; lia).
  (* the rounded mantissa *)
  pose proof (pow2_pos e1) as Hp1.
  assert (Hy1 : (inject_Z m1 * 2 ^ e1 <= inject_Z m2 * 2 ^ e1)%Q).
  { apply Qmult_le_compat_r; [|lra]. rewrite <- Zle_Qle. lia. }
  assert (Hy2 : (inject_Z m2 * 2 ^ e1 <= inject_Z (m1 + 1) * 2 ^ e1)%Q).
  { apply Qmult_le_compat_r; [|lra]. rewrite <- Zle_Qle. lia. }
  assert (Hm1s : (inject_Z (m1 + 1) * 2 ^ e1 == inject_Z m1 * 2 ^ e1 + 2 ^ e1)%Q).
  { rewrite inject_Z_plus. change (inject_Z 1) with 1%Q. ring. }
  set (y := (inject_Z m2 * 2 ^ e1)%Q) in *.
  assert (He1le : (2 ^ e1 <= 2 ^ (K - 52))%Q) by (apply pow2_le; exact He1K).
  assert (HK52 : (2 ^ (K - 52) < 2 ^ K)%Q).
  { apply Qpower_lt_compat_l; [lia|reflexivity]. }
  (* the second shift *)
  assert (Hm2nn : (0 <= m2)%Z) by lia.
  assert (He3K : (e3 <= K - 52)%Z).
  { rewrite He3. apply shift_exponent; try assumption; try lia.
    fold y. rewrite pow2_succ. lra. }
  assert (Hylo : (inject_Z m2 * 2 ^ e1 <= y)%Q) by (unfold y; lra).
  assert (Hyhi : (y <= inject_Z (m2 + 1) * 2 ^ e1)%Q).
  { unfold y. apply Qmult_le_compat_r; [|lra]. rewrite <- Zle_Qle. lia. }
  destruct (shift_between m2 e1 (shift_of m2 e1) y Hm2nn Hn3 Hylo Hyhi)
    as [Hlo3 Hhi3].
  rewrite <- He3, <- Hm3 in Hlo3, Hhi3.
  assert (Hm3s : (inject_Z (m3 + 1) * 2 ^ e3 == inject_Z m3 * 2 ^ e3 + 2 ^ e3)%Q).
  { rewrite inject_Z_plus. change (inject_Z 1) with 1%Q. ring. }
  assert (He3le : (2 ^ e3 <= 2 ^ (K - 52))%Q) by (apply pow2_le; exact He3K).
  exists m3, e3. split; [exact Hm3nn|]. split; [exact He3K|]. split.
  - rewrite Hres. destruct m3 as [|p|p]; try reflexivity.
    replace (e3 <=? emax - prec)%Z with true; [reflexivity|].
    symmetry. apply Z.leb_le. unfold emax, prec. lia.
  - assert (H51 : (2 ^ (K - 51) == 2 * 2 ^ (K - 52))%Q).
    { rewrite <- pow2_succ. replace (K - 52 + 1)%Z with (K - 51)%Z by lia.
      reflexivity. }
    rewrite H51. apply Qabs_Qle_condition.
    set (z := (inject_Z m3 * 2 ^ e3)%Q) in *.
    set (a := (inject_Z m1 * 2 ^ e1)%Q) in *.
    split; lra.
Qed.


(** *** Division *)

Lemma Zdigits2_pow2 (m : Z) : (0 < m)%Z -> (inject_Z m < 2 ^ Zdigits2 m)%Q.
Proof.
  intros Hm. pose proof (Zdigits2_bounds m Hm) as [_ Hhi].
  rewrite <- pow2_inject by apply Zdigits2_nonneg.
  rewrite <- Zlt_Qlt. exact Hhi.
Qed.

Lemma pow2_Zdigits2 (m : Z) : (0 < m)%Z -> (2 ^ (Zdigits2 m - 1) <= inject_Z m)%Q.
Proof.
  intros Hm. pose proof (Zdigits2_bounds m Hm) as [Hlo _].
  assert (Hd : (0 <= Zdigits2 m - 1)%Z) by (destruct m; cbn in *; lia).
  rewrite <- pow2_inject by exact Hd.
  rewrite <- Zle_Qle. exact Hlo.
Qed.

(** The quotient that [SFdiv_core_binary] hands to the rounding: its
    integer part at the exponent chosen, the exact quotient lying between
    it and its successor. *)
Lemma SFdiv_core_binary_between (m1 m2 : positive) (e1 e2 : Z) :
  let x := (inject_Z (Zpos m1) * 2 ^ e1 / (inject_Z (Zpos m2) * 2 ^ e2))%Q in
  exists (q e' : Z) (l : location),
    SFdiv_core_binary prec emax (Zpos m1) e1 (Zpos m2) e2 = (q, e', l)
    /\ (0 <= q)%Z
    /\ (inject_Z q * 2 ^ e' <= x)%Q
    /\ (x <= inject_Z (q + 1) * 2 ^ e')%Q
    /\ (e' <= fexp prec emax
                (Zdigits2 (Zpos m1) + e1 - (Zdigits2 (Zpos m2) + e2)))%Z.
Proof.
  intros x. unfold SFdiv_core_binary.
  set (d1 := Zdigits2 (Zpos m1)). set (d2 := Zdigits2 (Zpos m2)).
  set (e' := Z.min (fexp prec emax (d1 + e1 - (d2 + e2))) (e1 - e2)).
  set (s := (e1 - e2 - e')%Z).
  assert (Hs : (0 <= s)%Z) by (unfold s, e'; lia).
  set (m' := match s with
             | Zpos _ => Z.shiftl (Zpos m1) s
             | Z0 => Zpos m1
             | Zneg _ => Z0
             end).
  assert (Hm' : m' = (Zpos m1 * 2 ^ s)%Z).
  { unfold m'. destruct s as [|p|p] eqn:Hsp.
    - rewrite Z.pow_0_r. lia.
    - apply Z.shiftl_mul_pow2. lia.
    - lia. }
  pose proof (Z_div_mod m' (Zpos m2) ltac:(lia)) as Hdm.
  destruct (Z.div_eucl m' (Zpos m2)) as [q r] eqn:Hqr.
  destruct Hdm as [Hdm Hr].
  exists q, e', (new_location (Zpos m2) r).
  assert (H2s : (0 < 2 ^ s)%Z) by (apply Z.pow_pos_nonneg; lia).
  assert (Hq : (0 <= q)%Z) by nia.
  split; [reflexivity|]. split; [exact Hq|].
  assert (Hx : (x == inject_Z m' / inject_Z (Zpos m2) * 2 ^ e')%Q).
  { unfold x. rewrite Hm', inject_Z_mult, (pow2_inject s Hs).
    replace e1 with (s + e' + e2)%Z at 1 by (unfold s; lia).
    rewrite !pow2_add.
    pose proof (pow2_pos e2). pose proof (pow2_pos e'). pose proof (pow2_pos s).
    field. repeat split; first [lra | intros Hz; discriminate Hz]. }
  assert (Hm2 : (0 < inject_Z (Zpos m2))%Q) by reflexivity.
  pose proof (pow2_pos e') as He'.
  split; [|split].
  - rewrite Hx. apply Qmult_le_compat_r; [|lra].
    apply Qle_shift_div_l; [exact Hm2|].
    rewrite <- inject_Z_mult, <- Zle_Qle. lia.
  - rewrite Hx. apply Qmult_le_compat_r; [|lra].
    apply Qle_shift_div_r; [exact Hm2|].
    rewrite <- inject_Z_mult, <- Zle_Qle. lia.
  - unfold e'. lia.
Qed.

(** The float nearest to a quotient of at most [2 ^ K] is zero or finite
    and within [2 ^ (K - 51)] of it. *)
Lemma int_truediv_bound (a b : positive) (K : Z) :
  (inject_Z (Zpos a) / inject_Z (Zpos b) <= 2 ^ K)%Q ->
  (-1000 <= K <= 1023)%Z ->
  exists m3 e3 : Z,
    (0 <= m3)%Z
    /\ (e3 <= K - 52)%Z
    /\ int_truediv (Zpos a) (Zpos b)
       = match m3 with
         | Z0 => S754_zero false
         | Zpos p => S754_finite false p e3
         | Zneg _ => S754_nan
         end
    /\ (Qabs (inject_Z m3 * 2 ^ e3 - inject_Z (Zpos a) / inject_Z (Zpos b))
        <= 2 ^ (K - 51))%Q.
Proof.
  intros HxK HK.
  destruct (SFdiv_core_binary_between a b 0 0)
    as (q & e' & l & Hcore & Hq & Hlo & Hhi & He').
  cbv zeta in Hlo, Hhi.
  assert (Hx : (inject_Z (Zpos a) * 2 ^ 0 / (inject_Z (Zpos b) * 2 ^ 0)
                == inject_Z (Zpos a) / inject_Z (Zpos b))%Q).
  { change (2 ^ 0)%Q with 1%Q. rewrite !Qmult_1_r. reflexivity. }
  rewrite Hx in Hlo, Hhi.
  set (x := (inject_Z (Zpos a) / inject_Z (Zpos b))%Q) in *.
  assert (He'K : (e' <= K - 52)%Z).
  { rewrite fexp_binary64 in He'.
    set (D := (Zdigits2 (Zpos a) + 0 - (Zdigits2 (Zpos b) + 0))%Z) in *.
    assert (HD : (2 ^ (D - 1) < 2 ^ K)%Q).
    { apply Qlt_le_trans with x; [|exact HxK].
      pose proof (pow2_Zdigits2 (Zpos a) ltac:(lia)) as Ha.
      pose proof (Zdigits2_pow2 (Zpos b) ltac:(lia)) as Hb.
      assert (Hb0 : (0 < inject_Z (Zpos b))%Q) by reflexivity.
      unfold x. apply Qlt_shift_div_l; [exact Hb0|].
      apply Qlt_le_trans with (2 ^ (D - 1) * 2 ^ Zdigits2 (Zpos b))%Q.
      - apply Qmult_lt_l; [apply pow2_pos|exact Hb].
      - rewrite <- pow2_add.
        replace (D - 1 + Zdigits2 (Zpos b))%Z with (Zdigits2 (Zpos a) - 1)%Z
          by (unfold D; lia).
        exact Ha. }
    apply pow2_lt_inv in HD. lia. }
  destruct (binary_round_aux_bound false q e' l x K Hq Hlo Hhi HxK HK He'K)
    as (m3 & e3 & Hm3 & He3 & Hres & Herr).
  exists m3, e3. repeat split; try assumption.
  unfold int_truediv, fdiv. cbn [integer_operand SFdiv xorb].
  rewrite Hcore. exact Hres.
Qed.

(** *** Multiplication *)

Lemma fmul_bound (mx my : positive) (ex ey K : Z) :
  (inject_Z (Zpos mx) * 2 ^ ex * (inject_Z (Zpos my) * 2 ^ ey) <= 2 ^ K)%Q ->
  (-1000 <= K <= 1023)%Z ->
  (ex + ey <= K - 52)%Z ->
  exists m3 e3 : Z,
    (0 <= m3)%Z
    /\ (e3 <= K - 52)%Z
    /\ fmul (S754_finite false mx ex) (S754_finite false my ey)
       = match m3 with
         | Z0 => S754_zero false
         | Zpos p => S754_finite false p e3
         | Zneg _ => S754_nan
         end
    /\ (Qabs (inject_Z m3 * 2 ^ e3
              - inject_Z (Zpos mx) * 2 ^ ex * (inject_Z (Zpos my) * 2 ^ ey))
        <= 2 ^ (K - 51))%Q.
Proof.
  intros HxK HK He.
  set (x := (inject_Z (Zpos mx) * 2 ^ ex * (inject_Z (Zpos my) * 2 ^ ey))%Q) in *.
  assert (Hx : (x == inject_Z (Zpos (mx * my)) * 2 ^ (ex + ey))%Q).
  { unfold x. rewrite Pos2Z.inj_mul, inject_Z_mult, pow2_add. ring. }
  assert (Hlo : (inject_Z (Zpos (mx * my)) * 2 ^ (ex + ey) <= x)%Q)
    by (rewrite Hx; apply Qle_refl).
  assert (Hhi : (x <= inject_Z (Zpos (mx * my) + 1) * 2 ^ (ex + ey))%Q).
  { rewrite Hx. apply Qmult_le_compat_r; [|apply Qlt_le_weak, pow2_pos].
    rewrite <- Zle_Qle. lia. }
  destruct (binary_round_aux_bound false (Zpos (mx * my)) (ex + ey) loc_Exact
              x K ltac:(lia) Hlo Hhi HxK HK He)
    as (m3 & e3 & Hm3 & He3 & Hres & Herr).
  exists m3, e3. repeat split; assumption.
Qed.


(** ** Percentages as decimals *)

Lemma round_half_even_error (q : Q) :
  (Qabs (inject_Z (round_half_even q) - q) <= 1 # 2)%Q.
Proof.
  pose proof (Qfloor_le q) as Hlo. pose proof (Qlt_floor q) as Hhi.
  rewrite inject_Z_plus in Hhi. change (inject_Z 1) with 1%Q in Hhi.
  apply Qabs_Qle_condition. unfold round_half_even.
  destruct (q - inject_Z (Qfloor q) ?= 1 # 2)%Q eqn:Hc.
  - apply Qeq_alt in Hc.
    destruct (Z.even (Qfloor q)).
    + split; lra.
    + rewrite inject_Z_plus. change (inject_Z 1) with 1%Q. split; lra.
  - apply Qlt_alt in Hc. split; lra.
  - apply Qgt_alt in Hc. rewrite inject_Z_plus.
    change (inject_Z 1) with 1%Q. split; lra.
Qed.

Lemma round_half_even_nonneg (q : Q) : (0 <= q)%Q -> (0 <= round_half_even q)%Z.
Proof.
  intros Hq. assert (Hf : (0 <= Qfloor q)%Z).
  { change 0%Z with (Qfloor 0). apply Qfloor_resp_le. exact Hq. }
  unfold round_half_even.
  destruct (q - inject_Z (Qfloor q) ?= 1 # 2)%Q; try destruct (Z.even (Qfloor q)); lia.
Qed.

Lemma float_value_rounded (m e : Z) :
  (0 <= m)%Z ->
  (float_value match m with
               | Z0 => S754_zero false
               | Zpos p => S754_finite false p e
               | Zneg _ => S754_nan
               end == inject_Z m * 2 ^ e)%Q.
Proof.
  intros Hm. destruct m as [|p|p]; cbn [float_value]; try lia; [ring|reflexivity].
Qed.

Lemma float_of_decimal_0 (ndigits : nat) :
  float_of_decimal 0 ndigits = S754_zero false.
Proof.
  unfold float_of_decimal, int_truediv. cbn [integer_operand].
  assert (Hp : (0 < 10 ^ Z.of_nat ndigits)%Z) by (apply Z.pow_pos_nonneg; lia).
  destruct (10 ^ Z.of_nat ndigits)%Z as [|p|p]; try lia. reflexivity.
Qed.

(** On a float that is not negative, [round] gives the float written
    with the digits of the nearest decimal number. *)
Lemma py_round_nonneg (m : positive) (e : Z) (ndigits : nat) :
  (ndigits <= 323)%nat ->
  py_round (S754_finite false m e) ndigits
  = float_of_decimal
      (round_half_even
         (inject_Z (Zpos m) * 2 ^ e * inject_Z (10 ^ Z.of_nat ndigits))%Q)
      ndigits.
Proof.
  intros Hn. unfold py_round.
  replace (323 <? ndigits)%nat with false by (symmetry; apply Nat.ltb_ge; exact Hn).
  set (q := (inject_Z (Zpos m) * 2 ^ e * inject_Z (10 ^ Z.of_nat ndigits))%Q).
  assert (Hq : (0 <= q)%Q).
  { unfold q. pose proof (pow2_pos e).
    assert (Hp : (0 < 10 ^ Z.of_nat ndigits)%Z) by (apply Z.pow_pos_nonneg; lia).
    assert (H10 : (0 <= inject_Z (10 ^ Z.of_nat ndigits))%Q).
    { change 0%Q with (inject_Z 0). rewrite <- Zle_Qle. lia. }
    assert (Hm : (0 <= inject_Z (Zpos m))%Q) by (unfold Qle; cbn; lia).
    apply Qmult_le_0_compat; [apply Qmult_le_0_compat|]; try assumption. lra. }
  pose proof (round_half_even_nonneg q Hq) as Hk.
  destruct (round_half_even q) as [|p|p]; try lia.
  - rewrite float_of_decimal_0. reflexivity.
  - reflexivity.
Qed.

Lemma hundred_value :
  hundred = S754_finite false 7036874417766400 (-46).
Proof. reflexivity. Qed.

(** A percentage is the float written with one decimal, [k / 10], which
    is, up to the rounding of the float operations, the decimal nearest
    to [100 * count / total]. *)
Lemma percentage_decimal (count total : Z) :
  (0 <= count <= total)%Z -> (0 < total)%Z ->
  exists k m e : Z,
    (0 <= k <= 1000)%Z
    /\ percentage count total = float_of_decimal k 1
    /\ (Qabs (inject_Z k / 10 - 100 * inject_Z count / inject_Z total)
        <= (1 # 20) + 2 ^ (-43))%Q
    /\ (0 <= m)%Z /\ (e <= -45)%Z
    /\ percentage count total = nonneg_float m e
    /\ (Qabs (inject_Z m * 2 ^ e - inject_Z k / 10) <= 2 ^ (-44))%Q.
Proof.
  intros Hc Ht.
  assert (H43 : (2 ^ (-43) == 1 # 8796093022208)%Q) by reflexivity.
  assert (H44 : (2 ^ (-44) == 1 # 17592186044416)%Q) by reflexivity.
  assert (H51 : (2 ^ (0 - 51) == 1 # 2251799813685248)%Q) by reflexivity.
  assert (H744 : (2 ^ (7 - 51) == 1 # 17592186044416)%Q) by reflexivity.
  assert (H27 : (2 ^ 7 == 128)%Q) by reflexivity.
  assert (H20 : (2 ^ 0 == 1)%Q) by reflexivity.
  assert (H010 : (inject_Z 0 / 10 == 0)%Q) by reflexivity.
  assert (Hzero : forall x : Q, (0 <= x)%Q -> (x <= 1 # 1000000)%Q ->
            exists k m e : Z,
              (0 <= k <= 1000)%Z
              /\ S754_zero false = float_of_decimal k 1
              /\ (Qabs (inject_Z k / 10 - x) <= (1 # 20) + 2 ^ (-43))%Q
              /\ (0 <= m)%Z /\ (e <= -45)%Z
              /\ S754_zero false = nonneg_float m e
              /\ (Qabs (inject_Z m * 2 ^ e - inject_Z k / 10) <= 2 ^ (-44))%Q).
  { intros x Hx0 Hx1. exists 0%Z, 0%Z, (-45)%Z.
    split; [lia|]. split; [reflexivity|]. split.
    { rewrite H43, H010. apply Qabs_Qle_condition; split; lra. }
    split; [lia|]. split; [lia|]. split; [reflexivity|].
    rewrite H44, H010. change (inject_Z 0) with 0%Q. rewrite Qmult_0_l.
    apply Qabs_Qle_condition; split; lra. }
  destruct total as [|b|b]; try lia. destruct count as [|a|a]; try lia.
  - (* no item with the label *)
    unfold percentage, int_truediv. cbn [integer_operand fdiv SFdiv xorb].
    destruct (Hzero 0%Q ltac:(lra) ltac:(lra))
      as (k & m & e & Hk & Hf & Hq & Hm & He & Hn & Hv).
    exists k, m, e.
    assert (H0b : (100 * inject_Z 0 / inject_Z (Z.pos b) == 0)%Q).
    { unfold Qdiv. change (inject_Z 0) with 0%Q. ring. }
    rewrite H0b. repeat split; try assumption; lia.
  - set (x := (inject_Z (Zpos a) / inject_Z (Zpos b))%Q).
    assert (Hb : (0 < inject_Z (Zpos b))%Q) by reflexivity.
    assert (Hx0 : (0 <= x)%Q).
    { unfold x. apply Qle_shift_div_l; [exact Hb|]. rewrite Qmult_0_l.
      unfold Qle; cbn; lia. }
    assert (Hx1 : (x <= 2 ^ 0)%Q).
    { rewrite H20. unfold x. apply Qle_shift_div_r; [exact Hb|].
      rewrite Qmult_1_l, <- Zle_Qle. lia. }
    assert (Hgoal : (100 * inject_Z (Zpos a) / inject_Z (Zpos b) == 100 * x)%Q).
    { unfold x. field. intros Hz. discriminate Hz. }
    destruct (int_truediv_bound a b 0 Hx1 ltac:(lia))
      as (mq & eq & Hmq & Heq & Hq & Hqerr).
    fold x in Hqerr. rewrite H51 in Hqerr. rewrite H20 in Hx1.
    apply Qabs_Qle_condition in Hqerr.
    unfold percentage. rewrite Hq, hundred_value.
    destruct mq as [|mq|mq]; try lia.
    + (* the quotient underflows to zero *)
      cbn [fmul SFmul xorb py_round].
      change (inject_Z 0) with 0%Q in Hqerr. rewrite Qmult_0_l in Hqerr.
      destruct (Hzero (100 * x)%Q ltac:(lra) ltac:(lra))
        as (k & m & e & Hk & Hf & Hk1 & Hm & He & Hn & Hv).
      exists k, m, e. rewrite Hgoal. repeat split; try assumption; lia.
    + set (vq := (inject_Z (Zpos mq) * 2 ^ eq)%Q) in *.
      assert (H100 : (inject_Z 7036874417766400 * 2 ^ (-46) == 100)%Q) by reflexivity.
      assert (Hprod : (vq * (inject_Z 7036874417766400 * 2 ^ (-46)) <= 2 ^ 7)%Q).
      { rewrite H100, H27. lra. }
      destruct (fmul_bound mq 7036874417766400 eq (-46) 7 Hprod ltac:(lia) ltac:(lia))
        as (mv & ev & Hmv & Hev & Hv & Hverr).
      fold vq in Hverr. rewrite H100, H744 in Hverr.
      apply Qabs_Qle_condition in Hverr.
      rewrite Hv. destruct mv as [|mv|mv]; try lia.
      * cbn [py_round].
        change (inject_Z 0) with 0%Q in Hverr. rewrite Qmult_0_l in Hverr.
        destruct (Hzero (100 * x)%Q ltac:(lra) ltac:(lra))
          as (k & m & e & Hk & Hf & Hk1 & Hm & He & Hn & Hvk).
        exists k, m, e. rewrite Hgoal. repeat split; try assumption; lia.
      * rewrite (py_round_nonneg mv ev 1) by lia.
        change (inject_Z (10 ^ Z.of_nat 1)) with 10%Q.
        set (v := (inject_Z (Zpos mv) * 2 ^ ev)%Q) in *.
        pose proof (round_half_even_error (v * 10)) as Hk.
        apply Qabs_Qle_condition in Hk.
        assert (Hvpos : (0 <= v)%Q).
        { unfold v. apply Qmult_le_0_compat; [unfold Qle; cbn; lia|].
          apply Qlt_le_weak, pow2_pos. }
        assert (Hv0 : (0 <= v * 10)%Q) by lra.
        pose proof (round_half_even_nonneg (v * 10) Hv0) as Hknn.
        set (k := round_half_even (v * 10)) in *.
        assert (Hk1000 : (k <= 1000)%Z).
        { assert (Hlt : (inject_Z k < inject_Z 1001)%Q)
            by (change (inject_Z 1001) with 1001%Q; lra).
          rewrite <- Zlt_Qlt in Hlt. lia. }
        assert (Hnear : (Qabs (inject_Z k / 10
                               - 100 * inject_Z (Zpos a) / inject_Z (Zpos b))
                         <= (1 # 20) + 2 ^ (-43))%Q).
        { rewrite Hgoal, H43. apply Qabs_Qle_condition.
          unfold Qdiv. change (/ 10)%Q with (1 # 10)%Q. split; lra. }
        destruct k as [|p|p]; try lia.
        -- exists 0%Z, 0%Z, (-45)%Z. rewrite float_of_decimal_0.
           split; [lia|]. split; [reflexivity|]. split; [exact Hnear|].
           split; [lia|]. split; [lia|]. split; [reflexivity|].
           rewrite H44, H010. change (inject_Z 0) with 0%Q. rewrite Qmult_0_l.
           apply Qabs_Qle_condition; split; lra.
        -- assert (Hp7 : (inject_Z (Zpos p) / inject_Z (Zpos 10) <= 2 ^ 7)%Q).
           { rewrite H27. apply Qle_shift_div_r; [reflexivity|].
             assert (Hle : (inject_Z (Zpos p) <= inject_Z 1000)%Q)
               by (rewrite <- Zle_Qle; exact Hk1000).
             change (inject_Z 1000) with 1000%Q in Hle.
             change (inject_Z 10) with 10%Q. lra. }
           destruct (int_truediv_bound p 10 7 Hp7 ltac:(lia))
             as (mr & er & Hmr & Her & Hr & Hrerr).
           exists (Zpos p), mr, er.
           split; [lia|]. split; [reflexivity|]. split; [exact Hnear|].
           split; [exact Hmr|]. split; [lia|]. split.
           ++ unfold float_of_decimal. change (10 ^ Z.of_nat 1)%Z with 10%Z.
              exact Hr.
           ++ rewrite <- H744. exact Hrerr.
Qed.


(** ** Binary64: results that are not zero *)

(** A value of at least the smallest positive float does not round to
    zero. *)
Lemma binary_round_aux_positive (s : bool) (m e : Z) (l : location) :
  (0 < m)%Z -> (-1073 <= Zdigits2 m + e)%Z ->
  (exists p e3, binary_round_aux prec emax s m e l = S754_finite s p e3)
  \/ binary_round_aux prec emax s m e l = S754_infinity s.
Proof.
  intros Hm Hd.
  destruct (binary_round_aux_spec s m e l ltac:(lia))
    as (m1 & m2 & m3 & e1 & e3 & He1 & Hm1 & Hm2 & He3 & Hm3 & Hm3nn & Hres).
  pose proof (Zdigits2_bounds m Hm) as [Hlo _].
  assert (Hd1 : (1 <= Zdigits2 m)%Z) by (destruct m; cbn in *; lia).
  assert (Hn1 : (0 <= shift_of m e <= Zdigits2 m - 1)%Z).
  { unfold shift_of. rewrite fexp_binary64. lia. }
  assert (Hm1pos : (0 < m1)%Z).
  { rewrite Hm1. apply Z.div_str_pos. split; [apply Z.pow_pos_nonneg; lia|].
    apply Z.le_trans with (2 ^ (Zdigits2 m - 1))%Z; [|exact Hlo].
    apply Z.pow_le_mono_r; lia. }
  assert (Hm2pos : (0 < m2)%Z) by lia.
  assert (He1lo : (-1074 <= e1)%Z).
  { rewrite He1. unfold shift_of. rewrite fexp_binary64. lia. }
  pose proof (Zdigits2_bounds m2 Hm2pos) as [Hlo2 _].
  assert (Hd2 : (1 <= Zdigits2 m2)%Z) by (destruct m2; cbn in *; lia).
  assert (Hn3 : (0 <= shift_of m2 e1 <= Zdigits2 m2 - 1)%Z).
  { unfold shift_of. rewrite fexp_binary64. lia. }
  assert (Hm3pos : (0 < m3)%Z).
  { rewrite Hm3. apply Z.div_str_pos. split; [apply Z.pow_pos_nonneg; lia|].
    apply Z.le_trans with (2 ^ (Zdigits2 m2 - 1))%Z; [|exact Hlo2].
    apply Z.pow_le_mono_r; lia. }
  rewrite Hres. destruct m3 as [|p|p]; try lia.
  destruct (e3 <=? emax - prec)%Z; [left; eauto|right; reflexivity].
Qed.

(** [float(n)] of a positive int is positive (and infinite only for an
    int that no length reaches). *)
Lemma float_of_int_positive (p : positive) :
  (exists q e, float_of_int (Zpos p) = S754_finite false q e)
  \/ float_of_int (Zpos p) = S754_infinity false.
Proof.
  unfold float_of_int, binary_normalize, binary_round.
  destruct (shl_align p 0 (fexp prec emax (Zpos (digits2_pos p) + 0)))
    as [mz ez] eqn:Halign.
  apply binary_round_aux_positive; [lia|].
  assert (Hd : (1 <= Zdigits2 (Zpos mz))%Z) by (cbn; lia).
  unfold shl_align in Halign. rewrite fexp_binary64 in Halign.
  destruct (Z.max (Zpos (digits2_pos p) + 0 - 53) (-1074) - 0)%Z eqn:Hs;
    inversion Halign; subst; lia.
Qed.

Lemma fdiv_zero_float_of_int (p : positive) :
  fdiv (S754_zero false) (float_of_int (Zpos p)) = S754_zero false.
Proof.
  destruct (float_of_int_positive p) as [(q & e & ->)| ->]; reflexivity.
Qed.

Lemma fdiv_nan_l (y : float) : fdiv S754_nan y = S754_nan.
Proof. reflexivity. Qed.

(** ** Binary64: valid finite floats *)

Lemma half_decimal : float_of_decimal 5 1 = half.
Proof. reflexivity. Qed.

Lemma valid_binary_bounds (s : bool) (m : positive) (e : Z) :
  valid_binary prec emax (S754_finite s m e) = true ->
  (Zpos m < 2 ^ 53)%Z /\ (e <= 971)%Z.
Proof.
  cbn [valid_binary]. unfold bounded, canonical_mantissa.
  rewrite andb_true_iff, Z.eqb_eq, Z.leb_le, fexp_binary64.
  intros [Hc He]. split; [|exact He].
  pose proof (digits2_pos_bounds m) as [_ Hhi].
  apply Z.lt_le_trans with (2 ^ Zpos (digits2_pos m))%Z; [exact Hhi|].
  apply Z.pow_le_mono_r; lia.
Qed.

(** Halving a finite float gives zero or a finite float: no overflow. *)
Lemma fmul_half_finite (x : float) :
  is_finite x = true -> zero_or_finite (fmul x half) = true.
Proof.
  destruct x as [s|s| |s m e]; try discriminate; [reflexivity|].
  cbn [is_finite]. intros Hvalid.
  destruct (valid_binary_bounds s m e Hvalid) as [Hm He].
  unfold fmul, half. cbn [SFmul].
  set (x := (inject_Z (Zpos (m * 4503599627370496)) * 2 ^ (e + -53))%Q).
  assert (Hlo : (inject_Z (Zpos (m * 4503599627370496)) * 2 ^ (e + -53) <= x)%Q)
    by apply Qle_refl.
  assert (Hhi : (x <= inject_Z (Zpos (m * 4503599627370496) + 1) * 2 ^ (e + -53))%Q).
  { unfold x. apply Qmult_le_compat_r; [|apply Qlt_le_weak, pow2_pos].
    rewrite <- Zle_Qle. lia. }
  assert (HxK : (x <= 2 ^ 1023)%Q).
  { unfold x.
    apply Qle_trans with (inject_Z (2 ^ 105) * 2 ^ (e + -53))%Q.
    - apply Qmult_le_compat_r; [|apply Qlt_le_weak, pow2_pos].
      rewrite <- Zle_Qle. rewrite Pos2Z.inj_mul.
      change (Zpos 4503599627370496) with (2 ^ 52)%Z.
      change (2 ^ 105)%Z with (2 ^ 53 * 2 ^ 52)%Z. nia.
    - rewrite (pow2_inject 105) by lia. rewrite <- pow2_add.
      apply pow2_le. lia. }
  destruct (binary_round_aux_bound (xorb s false)
              (Zpos (m * 4503599627370496)) (e + -53) loc_Exact x 1023
              ltac:(lia) Hlo Hhi HxK ltac:(lia) ltac:(lia))
    as (m3 & e3 & Hm3 & _ & Hres & _).
  rewrite Hres. destruct m3; try reflexivity. lia.
Qed.

Lemma fmul_zero_or_nan (x y : float) :
  zero_or_nan x = true -> zero_or_nan (fmul x y) = true.
Proof. destruct x as [s|s| |s m e], y as [t|t| |t n f]; try discriminate; reflexivity. Qed.

Lemma fmul_is_zero (x y : float) :
  is_zero x = true -> zero_or_finite y = true -> is_zero (fmul x y) = true.
Proof. destruct x as [s|s| |s m e], y as [t|t| |t n f]; try discriminate; reflexivity. Qed.

Lemma fadd_zero_or_nan (x y : float) :
  x = S754_zero false \/ x = S754_nan ->
  zero_or_nan y = true ->
  fadd x y = S754_zero false \/ fadd x y = S754_nan.
Proof.
  intros [-> | ->]; destruct y as [[|]|t| |t n f]; try discriminate; intros _;
    auto.
Qed.

Lemma fadd_pos_zero (y : float) :
  is_zero y = true -> fadd (S754_zero false) y = S754_zero false.
Proof. destruct y as [[|]|t| |t n f]; try discriminate; reflexivity. Qed.


(** *** Addition *)

Lemma iter_xO_pow2 (p d : positive) :
  Zpos (Pos.iter xO p d) = (Zpos p * 2 ^ Zpos d)%Z.
Proof.
  induction d as [|d IH] using Pos.peano_ind.
  - cbn [Pos.iter]. rewrite Pos2Z.inj_xO. lia.
  - rewrite Pos.iter_succ, Pos2Z.inj_xO, IH, Pos2Z.inj_succ, Z.pow_succ_r by lia.
    lia.
Qed.

Lemma shl_align_spec (m : positive) (e e' : Z) :
  ((shl_align m e e').2 <= e)%Z
  /\ (inject_Z (Zpos (shl_align m e e').1) * 2 ^ (shl_align m e e').2
      == inject_Z (Zpos m) * 2 ^ e)%Q
  /\ (e' <= e -> (shl_align m e e').2 = e')%Z.
Proof.
  unfold shl_align. destruct (e' - e)%Z as [|d|d] eqn:Hd; cbn [fst snd].
  - split; [lia|]. split; [reflexivity|lia].
  - split; [lia|]. split; [reflexivity|lia].
  - split; [lia|]. split; [|reflexivity].
    assert (He : (2 ^ e == 2 ^ Zpos d * 2 ^ e')%Q).
    { rewrite <- pow2_add. replace (Zpos d + e')%Z with e by lia. reflexivity. }
    rewrite iter_xO_pow2, inject_Z_mult, (pow2_inject (Zpos d)) by lia.
    rewrite He. ring.
Qed.

Lemma binary_round_bound (s : bool) (m : positive) (e K : Z) :
  (inject_Z (Zpos m) * 2 ^ e <= 2 ^ K)%Q ->
  (-1000 <= K <= 1023)%Z ->
  (e <= K - 52)%Z ->
  exists m3 e3 : Z,
    (0 <= m3)%Z
    /\ (e3 <= K - 52)%Z
    /\ binary_round prec emax s m e
       = match m3 with
         | Z0 => S754_zero s
         | Zpos p => S754_finite s p e3
         | Zneg _ => S754_nan
         end
    /\ (Qabs (inject_Z m3 * 2 ^ e3 - inject_Z (Zpos m) * 2 ^ e) <= 2 ^ (K - 51))%Q.
Proof.
  intros HxK HK He. unfold binary_round.
  destruct (shl_align_spec m e (fexp prec emax (Zpos (digits2_pos m) + e)))
    as (Hez & Hval & _).
  destruct (shl_align m e (fexp prec emax (Zpos (digits2_pos m) + e)))
    as [mz ez]. cbn [fst snd] in Hez, Hval.
  set (x := (inject_Z (Zpos m) * 2 ^ e)%Q) in *.
  assert (Hlo : (inject_Z (Zpos mz) * 2 ^ ez <= x)%Q) by (rewrite Hval; apply Qle_refl).
  assert (Hhi : (x <= inject_Z (Zpos mz + 1) * 2 ^ ez)%Q).
  { rewrite <- Hval. apply Qmult_le_compat_r; [|apply Qlt_le_weak, pow2_pos].
    rewrite <- Zle_Qle. lia. }
  exact (binary_round_aux_bound s (Zpos mz) ez loc_Exact x K ltac:(lia)
           Hlo Hhi HxK HK ltac:(lia)).
Qed.

(** The sum of two floats that are not negative. *)
Lemma fadd_bound (m1 m2 e1 e2 K : Z) :
  (0 <= m1)%Z -> (0 <= m2)%Z ->
  (e1 <= K - 52)%Z -> (e2 <= K - 52)%Z ->
  (inject_Z m1 * 2 ^ e1 + inject_Z m2 * 2 ^ e2 <= 2 ^ K)%Q ->
  (-1000 <= K <= 1023)%Z ->
  exists m3 e3 : Z,
    (0 <= m3)%Z
    /\ (e3 <= K - 52)%Z
    /\ fadd (nonneg_float m1 e1) (nonneg_float m2 e2) = nonneg_float m3 e3
    /\ (Qabs (inject_Z m3 * 2 ^ e3 - (inject_Z m1 * 2 ^ e1 + inject_Z m2 * 2 ^ e2))
        <= 2 ^ (K - 51))%Q.
Proof.
  intros Hm1 Hm2 He1 He2 HxK HK.
  assert (Hpos : (0 < 2 ^ (K - 51))%Q) by apply pow2_pos.
  destruct m1 as [|p1|p1]; try lia; destruct m2 as [|p2|p2]; try lia.
  - exists 0%Z, e1. repeat split; try lia; try reflexivity.
    apply Qabs_Qle_condition. change (inject_Z 0) with 0%Q.
    split; ring_simplify; lra.
  - exists (Zpos p2), e2. repeat split; try lia; try reflexivity.
    apply Qabs_Qle_condition. change (inject_Z 0) with 0%Q.
    split; ring_simplify; lra.
  - exists (Zpos p1), e1. repeat split; try lia; try reflexivity.
    apply Qabs_Qle_condition. change (inject_Z 0) with 0%Q.
    split; ring_simplify; lra.
  - unfold fadd. cbn [nonneg_float SFadd cond_Zopp].
    set (ez := Z.min e1 e2).
    destruct (shl_align_spec p1 e1 ez) as (_ & Hv1 & Hz1).
    destruct (shl_align_spec p2 e2 ez) as (_ & Hv2 & Hz2).
    rewrite Hz1 in Hv1 by (unfold ez; lia).
    rewrite Hz2 in Hv2 by (unfold ez; lia).
    set (a1 := (shl_align p1 e1 ez).1) in *.
    set (a2 := (shl_align p2 e2 ez).1) in *.
    change (Zpos a1 + Zpos a2)%Z with (Zpos (a1 + a2)).
    cbn [binary_normalize].
    assert (Hsum : (inject_Z (Zpos (a1 + a2)) * 2 ^ ez
                    == inject_Z (Zpos p1) * 2 ^ e1 + inject_Z (Zpos p2) * 2 ^ e2)%Q).
    { rewrite <- Hv1, <- Hv2, Pos2Z.inj_add, inject_Z_plus. ring. }
    assert (HK' : (inject_Z (Zpos (a1 + a2)) * 2 ^ ez <= 2 ^ K)%Q)
      by (rewrite Hsum; exact HxK).
    destruct (binary_round_bound false (a1 + a2) ez K HK' HK ltac:(unfold ez; lia))
      as (m3 & e3 & Hm3 & He3 & Hres & Herr).
    exists m3, e3. repeat split; try assumption.
    rewrite <- Hsum. exact Herr.
Qed.

(** ** The rounding of [round], in words *)

Lemma round_half_even_nearest (q : Q) : nearest_integer q (round_half_even q).
Proof.
  split; [apply round_half_even_error|].
  pose proof (Qfloor_le q) as Hlo. pose proof (Qlt_floor q) as Hhi.
  rewrite inject_Z_plus in Hhi. change (inject_Z 1) with 1%Q in Hhi.
  unfold round_half_even.
  destruct (q - inject_Z (Qfloor q) ?= 1 # 2)%Q eqn:Hc.
  - intros _. destruct (Z.even (Qfloor q)) eqn:He; [exact He|].
    rewrite Z.even_add, He. reflexivity.
  - apply Qlt_alt in Hc. intros Habs. exfalso.
    rewrite Qabs_neg in Habs by lra. lra.
  - apply Qgt_alt in Hc. intros Habs. exfalso.
    rewrite inject_Z_plus in Habs. change (inject_Z 1) with 1%Q in Habs.
    rewrite Qabs_pos in Habs by lra. lra.
Qed.

Lemma nearest_integer_unique (q : Q) (k k' : Z) :
  nearest_integer q k -> nearest_integer q k' -> k = k'.
Proof.
  intros [Hk Hke] [Hk' Hke'].
  apply Qabs_Qle_condition in Hk as Hkb. apply Qabs_Qle_condition in Hk' as Hkb'.
  assert (Hd : (-1 <= k - k' <= 1)%Z).
  { assert (H1 : (inject_Z (k - k') <= inject_Z 1)%Q).
    { unfold Z.sub. rewrite inject_Z_plus, inject_Z_opp.
      change (inject_Z 1) with 1%Q. lra. }
    assert (H2 : (inject_Z (-1) <= inject_Z (k - k'))%Q).
    { unfold Z.sub. rewrite inject_Z_plus, inject_Z_opp.
      change (inject_Z (-1)) with (-1)%Q. lra. }
    rewrite <- Zle_Qle in H1, H2. lia. }
  destruct (Z.eq_dec k k') as [Heq|Hne]; [exact Heq|exfalso].
  assert (Hcase : (k = k' + 1 \/ k' = k + 1)%Z) by lia.
  destruct Hcase as [-> | ->].
  - rewrite inject_Z_plus in *. change (inject_Z 1) with 1%Q in *.
    assert (Hq : (q == inject_Z k' + (1 # 2))%Q) by lra.
    assert (E1 : Z.even (k' + 1) = true).
    { apply Hke. rewrite Hq.
      assert (Hr : (inject_Z k' + 1 - (inject_Z k' + (1 # 2)) == 1 # 2)%Q) by ring.
      rewrite Hr. reflexivity. }
    assert (E2 : Z.even k' = true).
    { apply Hke'. rewrite Hq.
      assert (Hr : (inject_Z k' - (inject_Z k' + (1 # 2)) == - (1 # 2))%Q) by ring.
      rewrite Hr. reflexivity. }
    rewrite Z.even_add, E2 in E1. discriminate.
  - rewrite inject_Z_plus in *. change (inject_Z 1) with 1%Q in *.
    assert (Hq : (q == inject_Z k + (1 # 2))%Q) by lra.
    assert (E1 : Z.even (k + 1) = true).
    { apply Hke'. rewrite Hq.
      assert (Hr : (inject_Z k + 1 - (inject_Z k + (1 # 2)) == 1 # 2)%Q) by ring.
      rewrite Hr. reflexivity. }
    assert (E2 : Z.even k = true).
    { apply Hke. rewrite Hq.
      assert (Hr : (inject_Z k - (inject_Z k + (1 # 2)) == - (1 # 2))%Q) by ring.
      rewrite Hr. reflexivity. }
    rewrite Z.even_add, E2 in E1. discriminate.
Qed.

(** [round(x, ndigits)] rounds to [ndigits] decimal places. *)
Lemma py_round_rounded (x : float) (ndigits : nat) :
  (ndigits <= 323)%nat -> rounded_to_decimals ndigits x (py_round x ndigits).
Proof.
  intros Hn. destruct x as [s|s| |s m e]; try reflexivity.
  cbn [rounded_to_decimals py_round].
  replace (323 <? ndigits)%nat with false by (symmetry; apply Nat.ltb_ge; exact Hn).
  set (q := (inject_Z (Zpos m) * 2 ^ e * inject_Z (10 ^ Z.of_nat ndigits))%Q).
  exists (round_half_even q). split; [apply round_half_even_nearest|].
  assert (Hq : (0 <= q)%Q).
  { unfold q. pose proof (pow2_pos e).
    assert (Hp : (0 < 10 ^ Z.of_nat ndigits)%Z) by (apply Z.pow_pos_nonneg; lia).
    assert (H10 : (0 <= inject_Z (10 ^ Z.of_nat ndigits))%Q).
    { change 0%Q with (inject_Z 0). rewrite <- Zle_Qle. lia. }
    assert (Hm : (0 <= inject_Z (Zpos m))%Q) by (unfold Qle; cbn; lia).
    apply Qmult_le_0_compat; [apply Qmult_le_0_compat|]; try assumption. lra. }
  pose proof (round_half_even_nonneg q Hq) as Hk.
  destruct (round_half_even q) as [|p|p]; try lia; [reflexivity|].
  unfold float_of_decimal, int_truediv. destruct s; reflexivity.
Qed.

(** The rounding is a function: the relation holds of one float only. *)
Lemma rounded_to_decimals_unique (ndigits : nat) (x r r' : float) :
  rounded_to_decimals ndigits x r -> rounded_to_decimals ndigits x r' -> r = r'.
Proof.
  destruct x as [s|s| |s m e]; cbn [rounded_to_decimals]; try congruence.
  intros (k & Hk & ->) (k' & Hk' & ->).
  rewrite (nearest_integer_unique _ k k' Hk Hk'). reflexivity.
Qed.

(** ** Sample evaluations *)

Example clean_example :
  clean_text
    (PyStr (py "Bagus bgt produknya, recommended! @toko #Keren 10 https://t.co/x"))
    true
  = py "bagus banget produknya recommended keren".
Proof. vm_compute. reflexivity. Qed.

Example negator_example :
  run (calculate_sentiment_score (PyStr (py "gak bagus"))) sample_world
  = Returns (float_of_decimal (-15) 1).
Proof. vm_compute. reflexivity. Qed.

(** Floats round where exact fractions would not: [0.1125] is the float
    just above the decimal it is written with, and [23 / 80 * 100] is one
    just below 28.75. *)
Example round_examples :
  py_round (float_of_decimal 1125 4) 3 = float_of_decimal 113 3
  /\ percentage 23 80 = float_of_decimal 287 1.
Proof. split; vm_compute; reflexivity. Qed.

(** ** Comparisons and labels *)

Lemma labels_distinct :
  py "positive" <> py "negative"
  /\ py "positive" <> py "neutral"
  /\ py "negative" <> py "neutral".
Proof. repeat split; intros Heq; vm_compute in Heq; discriminate. Qed.

(** The three branches of [classify_sentiment], for any thresholds. *)
Lemma classify_sentiment_branches (score pos neg : float) :
  (classify_sentiment score pos neg = py "positive" <-> flt pos score = true)
  /\ (classify_sentiment score pos neg = py "negative"
      <-> flt pos score = false /\ flt score neg = true)
  /\ (classify_sentiment score pos neg = py "neutral"
      <-> flt pos score = false /\ flt score neg = false).
Proof.
  destruct labels_distinct as (Hpn & Hpu & Hnu).
  unfold classify_sentiment.
  destruct (flt pos score) eqn:Hp; [|destruct (flt score neg) eqn:Hn];
    repeat split; intros; try congruence;
    repeat match goal with H : _ /\ _ |- _ => destruct H end; congruence.
Qed.

Lemma classify_sentiment_is_label (score pos neg : float) :
  is_label (classify_sentiment score pos neg).
Proof.
  unfold classify_sentiment, is_label.
  destruct (flt pos score); [tauto|].
  destruct (flt score neg); tauto.
Qed.

(** Two floats are not both below each other, also when one is only
    not above the other. *)
Lemma flt_fle_false (x y : float) : flt x y = true -> fle y x = true -> False.
Proof.
  intros Hlt Hle. rewrite (flt_not_fle x y Hlt) in Hle. discriminate.
Qed.

(** C2, as stated, fails when the thresholds cross: with the positive
    threshold at 0.0 and the negative one at 1.0, the score 0.0 equals
    the positive threshold and yet is labelled negative, not neutral. *)
Lemma classify_sentiment_crossed_thresholds :
  let score := fzero in
  let positive_threshold := fzero in
  let negative_threshold := float_of_int 1 in
  feq score positive_threshold = true
  /\ classify_sentiment score positive_threshold negative_threshold = py "negative"
  /\ classify_sentiment score positive_threshold negative_threshold <> py "neutral".
Proof.
  repeat split.
  intros Heq. vm_compute in Heq. discriminate.
Qed.

(** C2 (amended): for every score and every pair of thresholds with the
    negative threshold not above the positive one, [classify_sentiment]
    returns 'positive' exactly when the score is strictly greater than
    the positive threshold, 'negative' exactly when it is strictly less
    than the negative threshold, and 'neutral' otherwise; a score equal
    to either threshold yields 'neutral'; and the result is one of the
    three labels, which are pairwise distinct.  The comparisons are
    those of the floats, infinities and NaN included. *)
Theorem classify_sentiment_partition (score pos neg : float) :
  fle neg pos = true ->
  (classify_sentiment score pos neg = py "positive" <-> flt pos score = true)
  /\ (classify_sentiment score pos neg = py "negative" <-> flt score neg = true)
  /\ (classify_sentiment score pos neg = py "neutral"
      <-> flt pos score = false /\ flt score neg = false)
  /\ (feq score pos = true \/ feq score neg = true ->
      classify_sentiment score pos neg = py "neutral")
  /\ is_label (classify_sentiment score pos neg)
  /\ (py "positive" <> py "negative"
      /\ py "positive" <> py "neutral"
      /\ py "negative" <> py "neutral").
Proof.
  intros Hord.
  destruct (classify_sentiment_branches score pos neg) as (Hp & Hn & Hu).
  split; [exact Hp|]. split; [|split; [exact Hu|split]].
  - rewrite Hn. split; [tauto|]. intros Hlt. split; [|exact Hlt].
    destruct (flt pos score) eqn:Hgt; [exfalso|reflexivity].
    apply (flt_fle_false score pos); [|apply flt_fle; exact Hgt].
    exact (flt_fle_trans _ _ _ Hlt Hord).
  - intros Heq. apply Hu. destruct Heq as [Heq|Heq];
      apply feq_fle in Heq as [Hle Hge]; split.
    + destruct (flt pos score) eqn:Hgt; [exfalso|reflexivity].
      exact (flt_fle_false _ _ Hgt Hle).
    + destruct (flt score neg) eqn:Hlt; [exfalso|reflexivity].
      exact (flt_fle_false _ _ (flt_fle_trans _ _ _ Hlt Hord) Hge).
    + destruct (flt pos score) eqn:Hgt; [exfalso|reflexivity].
      exact (flt_fle_false _ _ (fle_flt_trans _ _ _ Hord Hgt) Hle).
    + destruct (flt score neg) eqn:Hlt; [exfalso|reflexivity].
      exact (flt_fle_false _ _ Hlt Hge).
  - split; [apply classify_sentiment_is_label|apply labels_distinct].
Qed.

Lemma classify_sentiment_partition_witness :
  fle NEGATIVE_THRESHOLD POSITIVE_THRESHOLD = true
  /\ classify_sentiment POSITIVE_THRESHOLD POSITIVE_THRESHOLD NEGATIVE_THRESHOLD
     = py "neutral".
Proof.
  assert (Hord : fle NEGATIVE_THRESHOLD POSITIVE_THRESHOLD = true)
    by (vm_compute; reflexivity).
  split; [exact Hord|].
  apply (classify_sentiment_partition
           POSITIVE_THRESHOLD POSITIVE_THRESHOLD NEGATIVE_THRESHOLD Hord).
  left. vm_compute. reflexivity.
Defined.

(** ** Category precedence *)

(** C3, as stated, fails: a token listed as positive with weight 1.0 and
    as negative with weight -1.0 gets the base weight 1.0, not -1.0. *)
Lemma base_weight_both_listed_counterexample :
  let lex : lexicon :=
    <[py "positif" := {[py "x" := float_of_int 1]}]>
      (<[py "negatif" := {[py "x" := float_of_int (-1)]}]> ∅) in
  lexicon_get lex "positif" !! py "x" = Some (float_of_int 1)
  /\ lexicon_get lex "negatif" !! py "x" = Some (float_of_int (-1))
  /\ base_weight lex (py "x") = float_of_int 1
  /\ feq (base_weight lex (py "x")) (float_of_int (-1)) = false.
Proof. repeat split; vm_compute; reflexivity. Qed.

(** C3 (amended): for every token that is listed in both the positive
    and the negative lexicon mappings, the scorer's base weight is the
    positive-category weight: the category checked first wins, the
    negative one being consulted only in the [elif]. *)
Theorem base_weight_positive_first (lex : lexicon) (word : pystr) (p n : float) :
  lexicon_get lex "positif" !! word = Some p ->
  lexicon_get lex "negatif" !! word = Some n ->
  base_weight lex word = p.
Proof.
  intros Hp Hn. unfold base_weight. rewrite Hp. reflexivity.
Qed.

Lemma base_weight_positive_first_witness :
  base_weight
    (<[py "positif" := {[py "x" := float_of_int 1]}]>
       (<[py "negatif" := {[py "x" := float_of_int (-1)]}]> ∅))
    (py "x") = float_of_int 1.
Proof.
  apply (base_weight_positive_first _ _ (float_of_int 1) (float_of_int (-1)));
    vm_compute; reflexivity.
Defined.

(** ** The empty batch *)

(** C6: summarizing an empty result collection returns a summary with
    total 0 and every count, every percentage and the average score equal
    to 0 (the int 0); [get_sentiment_summary] is a total function, so
    nothing is raised. *)
Theorem get_sentiment_summary_empty :
  get_sentiment_summary [] = Summary 0 0 0 0 (Int 0) (Int 0) (Int 0) (Int 0)
  /\ total (get_sentiment_summary []) = 0%Z
  /\ positive_count (get_sentiment_summary []) = 0%Z
  /\ negative_count (get_sentiment_summary []) = 0%Z
  /\ neutral_count (get_sentiment_summary []) = 0%Z
  /\ positive_pct (get_sentiment_summary []) = Int 0
  /\ negative_pct (get_sentiment_summary []) = Int 0
  /\ neutral_pct (get_sentiment_summary []) = Int 0
  /\ avg_score (get_sentiment_summary []) = Int 0.
Proof. repeat split. Qed.

(** ** Loading the lexicon *)

Lemma load_lexicon_cached (w : world) (lex : lexicon) :
  cached_lexicon w = Some lex -> load_lexicon w = (Returns lex, w).
Proof. intros Hc. unfold load_lexicon. rewrite Hc. reflexivity. Qed.

(** When the lexicon can be had, [load_lexicon] returns it and leaves it
    in the cache. *)
Lemma load_lexicon_loadable (w : world) :
  loadable w ->
  exists lex w',
    load_lexicon w = (Returns lex, w') /\ cached_lexicon w' = Some lex.
Proof.
  intros Hl. unfold load_lexicon.
  destruct (cached_lexicon w) as [lex|] eqn:Hc.
  - exists lex, w. split; [reflexivity|exact Hc].
  - destruct (file_at_path w) as [| |lex] eqn:Hf.
    + eexists _, _. split; reflexivity.
    + destruct Hl as [Hl|Hl]; congruence.
    + eexists _, _. split; reflexivity.
Qed.

Lemma load_lexicon_caches (w w' : world) (lex : lexicon) :
  load_lexicon w = (Returns lex, w') -> cached_lexicon w' = Some lex.
Proof.
  unfold load_lexicon.
  destruct (cached_lexicon w) as [lex0|] eqn:Hc.
  - intros Heq. inversion Heq; subst. exact Hc.
  - destruct (file_at_path w); intros Heq; inversion Heq; subst; reflexivity.
Qed.

Section Runs.
Context `{UnicodeData}.

Lemma calculate_sentiment_score_returns (text : py_value) (w w' : world) (lex : lexicon) :
  load_lexicon w = (Returns lex, w') ->
  calculate_sentiment_score text w = (Returns (score_with lex text), w').
Proof.
  intros Hload. unfold calculate_sentiment_score, mbind, M_bind.
  rewrite Hload. reflexivity.
Qed.

Lemma analyze_text_returns (text : py_value) (w w' : world) (lex : lexicon) :
  load_lexicon w = (Returns lex, w') ->
  analyze_text text w
  = (Returns (result_with lex text), w').
Proof.
  intros Hload. unfold analyze_text, mbind, M_bind.
  rewrite (calculate_sentiment_score_returns text w w' lex Hload).
  reflexivity.
Qed.

(** With the lexicon in the cache the loop appends one result per text
    and leaves the world as it is. *)
Lemma analyze_loop_cached (texts : list py_value) (results : list AnalysisResult)
  (w : world) (lex : lexicon) :
  cached_lexicon w = Some lex ->
  analyze_loop texts results w
  = (Returns (results ++ (result_with lex <$> texts)), w).
Proof.
  intros Hc. revert results.
  induction texts as [|text texts IH]; intros results; simpl.
  - rewrite app_nil_r. reflexivity.
  - unfold mbind, M_bind.
    rewrite (analyze_text_returns text w w lex (load_lexicon_cached w lex Hc)).
    rewrite IH. rewrite <- app_assoc. reflexivity.
Qed.

Lemma analyze_batch_loadable (texts : list py_value) (w : world) :
  loadable w ->
  exists lex w',
    analyze_batch texts w
    = (Returns (result_with lex <$> texts), w')
    /\ (exists w0, load_lexicon w = (Returns lex, w0)).
Proof.
  intros Hl. destruct (load_lexicon_loadable w Hl) as (lex & w0 & Hload & Hc).
  unfold analyze_batch. destruct texts as [|text texts].
  - exists lex, w. split; [reflexivity|eauto].
  - exists lex, w0. split; [|eauto]. simpl. unfold mbind, M_bind.
    rewrite (analyze_text_returns text w w0 lex Hload).
    rewrite (analyze_loop_cached texts _ w0 lex Hc). reflexivity.
Qed.

End Runs.

(** ** Consistency of the results *)

(** C10: every result of [analyze_text], and every element of the output
    of [analyze_batch], carries the input text unchanged, its cleaning
    with slang normalization on, and the label that [classify_sentiment]
    gives to its score with the default thresholds; the batch output has
    one result per input, in the order of the input; and both functions
    do return whenever the lexicon can be had. *)
Theorem analyze_results_consistent `{UnicodeData} (texts : list py_value) (w : world) :
  loadable w ->
  (forall text, exists result w',
     analyze_text text w = (Returns result, w')
     /\ original_text result = text
     /\ cleaned_text result = clean_text text true
     /\ sentiment_label result
        = classify_sentiment (sentiment_score result)
            POSITIVE_THRESHOLD NEGATIVE_THRESHOLD)
  /\ exists results w',
       analyze_batch texts w = (Returns results, w')
       /\ length results = length texts
       /\ forall i text result,
            texts !! i = Some text ->
            results !! i = Some result ->
            original_text result = text
            /\ cleaned_text result = clean_text text true
            /\ sentiment_label result
               = classify_sentiment (sentiment_score result)
                   POSITIVE_THRESHOLD NEGATIVE_THRESHOLD.
Proof.
  intros Hl. split.
  - intros text.
    destruct (load_lexicon_loadable w Hl) as (lex & w0 & Hload & _).
    eexists _, w0. split; [exact (analyze_text_returns text w w0 lex Hload)|].
    repeat split.
  - destruct (analyze_batch_loadable texts w Hl) as (lex & w' & Hrun & _).
    eexists _, w'. split; [exact Hrun|]. split.
    + rewrite length_fmap. reflexivity.
    + intros i text result Ht Hr.
      rewrite list_lookup_fmap, Ht in Hr. simpl in Hr.
      inversion Hr; subst. repeat split.
Qed.

Lemma analyze_results_consistent_witness :
  exists results w',
    analyze_batch [PyStr (py "Bagus banget!"); PyStr (py "Jelek parah")] sample_world
    = (Returns results, w')
    /\ length results = 2%nat.
Proof.
  assert (Hl : loadable sample_world) by (right; discriminate).
  destruct (analyze_results_consistent
              [PyStr (py "Bagus banget!"); PyStr (py "Jelek parah")]
              sample_world Hl) as (_ & results & w' & Hrun & Hlen & _).
  exists results, w'. split; [exact Hrun|exact Hlen].
Defined.

(** ** Inputs that are no text *)

Lemma clean_text_not_a_text `{UnicodeData} (text : py_value) (normalize : bool) :
  not_a_text text -> clean_text text normalize = [].
Proof.
  destruct text as [[|c s]| | | |]; simpl; intros Hn;
    [reflexivity|contradiction|reflexivity..].
Qed.

(** C5, as stated, fails when the lexicon file is malformed and nothing
    is cached: [calculate_sentiment_score] loads the lexicon before it
    looks at the text, so [analyze_text] raises the decoding error also
    for an input that is no text, and for the empty string. *)
Lemma analyze_text_malformed_lexicon :
  let w := World FileMalformed None in
  not_a_text PyNone
  /\ not_a_text (PyStr [])
  /\ clean_text PyNone true = []
  /\ run (analyze_text PyNone) w = Raises JSONDecodeError
  /\ run (analyze_text (PyStr [])) w = Raises JSONDecodeError.
Proof. repeat split. Qed.

(** C5 (amended): for every input that is not a string, or is the empty
    string, [clean_text] returns the empty string (it is a total
    function), and [analyze_text] returns, whenever the lexicon can be
    had, a result with an empty cleaned text, the score 0.0 and the label
    'neutral'. *)
Theorem analyze_text_not_a_text `{UnicodeData} (text : py_value) (w : world) :
  not_a_text text ->
  loadable w ->
  (forall normalize, clean_text text normalize = [])
  /\ exists w',
       analyze_text text w
       = (Returns
            {| original_text := text;
               cleaned_text := [];
               sentiment_score := fzero;
               sentiment_label := py "neutral" |}, w').
Proof.
  intros Hn Hl. split.
  - intros normalize. apply clean_text_not_a_text. exact Hn.
  - destruct (load_lexicon_loadable w Hl) as (lex & w0 & Hload & _).
    exists w0. rewrite (analyze_text_returns text w w0 lex Hload).
    unfold result_with, score_with.
    rewrite (clean_text_not_a_text text true Hn).
    reflexivity.
Qed.

Lemma analyze_text_not_a_text_witness :
  exists w',
    analyze_text PyNone sample_world
    = (Returns
         {| original_text := PyNone;
            cleaned_text := [];
            sentiment_score := fzero;
            sentiment_label := py "neutral" |}, w').
Proof.
  assert (Hn : not_a_text PyNone) by exact I.
  assert (Hl : loadable sample_world) by (right; discriminate).
  exact (proj2 (analyze_text_not_a_text PyNone sample_world Hn Hl)).
Defined.

(** ** The missing and the malformed lexicon *)

Lemma EMPTY_LEXICON_sections :
  EMPTY_LEXICON !! py "positif" = Some ∅
  /\ EMPTY_LEXICON !! py "negatif" = Some ∅
  /\ EMPTY_LEXICON !! py "intensifier" = Some ∅
  /\ EMPTY_LEXICON !! py "negator" = Some ∅.
Proof. repeat split; vm_compute; reflexivity. Qed.

Lemma lexicon_get_EMPTY_LEXICON :
  lexicon_get EMPTY_LEXICON "positif" = ∅
  /\ lexicon_get EMPTY_LEXICON "negatif" = ∅
  /\ lexicon_get EMPTY_LEXICON "intensifier" = ∅
  /\ lexicon_get EMPTY_LEXICON "negator" = ∅.
Proof.
  destruct EMPTY_LEXICON_sections as (Hp & Hn & Hi & Hg).
  unfold lexicon_get. rewrite Hp, Hn, Hi, Hg. repeat split.
Qed.

Lemma word_score_EMPTY_LEXICON (prev_word prev_prev_word word : pystr) :
  word_score EMPTY_LEXICON prev_word prev_prev_word word = fzero.
Proof.
  destruct lexicon_get_EMPTY_LEXICON as (Hp & Hn & Hi & Hg).
  unfold word_score, base_weight. rewrite Hp, Hn, Hi, Hg.
  rewrite !lookup_empty. reflexivity.
Qed.

Lemma loop_EMPTY_LEXICON (words : list pystr) (st : loop_state) :
  score st = fzero ->
  score (fold_left (loop_body EMPTY_LEXICON) words st) = fzero.
Proof.
  revert st. induction words as [|word words IH]; intros st Hst; simpl.
  - exact Hst.
  - apply IH. simpl. rewrite Hst, word_score_EMPTY_LEXICON. reflexivity.
Qed.

(** The count by which the total is divided is a positive int. *)
Lemma token_count_positive (n : nat) :
  exists p, Z.max (Z.of_nat n) 1 = Zpos p.
Proof.
  destruct (Z.max (Z.of_nat n) 1) as [|p|p] eqn:Hm; [lia|eauto|lia].
Qed.

(** A total of 0.0 gives the score 0.0. *)
Lemma fzero_normalized (n : nat) :
  py_round (fdiv fzero (float_of_int (Z.max (Z.of_nat n) 1))) 3 = fzero.
Proof.
  destruct (token_count_positive n) as [p ->].
  unfold fzero. rewrite fdiv_zero_float_of_int. reflexivity.
Qed.

Lemma score_with_EMPTY_LEXICON `{UnicodeData} (text : py_value) :
  score_with EMPTY_LEXICON text = fzero.
Proof.
  unfold score_with. cbv zeta.
  destruct (tokenize (clean_text text true)) as [|word words]; [reflexivity|].
  rewrite loop_EMPTY_LEXICON by reflexivity.
  apply fzero_normalized.
Qed.

(** C4, as stated, fails for the malformed resource: only
    [FileNotFoundError] is caught, so the decoding error leaves
    [load_lexicon], and with it the scorer and the batch analysis. *)
Lemma load_lexicon_malformed_raises :
  let w := World FileMalformed None in
  load_lexicon w = (Raises JSONDecodeError, w)
  /\ run (calculate_sentiment_score (PyStr (py "bagus"))) w = Raises JSONDecodeError
  /\ run (analyze_batch [PyStr (py "bagus")]) w = Raises JSONDecodeError.
Proof. repeat split. Qed.

(** C4 (amended): when the lexicon resource is missing, [load_lexicon]
    recovers locally by substituting, and caching, a lexicon with all four
    mappings empty, and propagates no error; downstream scoring still
    runs, and every score is 0.0 and every label 'neutral'. *)
Theorem load_lexicon_missing_file `{UnicodeData} (w : world) (texts : list py_value) :
  file_at_path w = FileNotFound ->
  cached_lexicon w = None ->
  load_lexicon w = (Returns EMPTY_LEXICON, World FileNotFound (Some EMPTY_LEXICON))
  /\ (EMPTY_LEXICON !! py "positif" = Some ∅
      /\ EMPTY_LEXICON !! py "negatif" = Some ∅
      /\ EMPTY_LEXICON !! py "intensifier" = Some ∅
      /\ EMPTY_LEXICON !! py "negator" = Some ∅)
  /\ (forall text,
        calculate_sentiment_score text w
        = (Returns fzero, World FileNotFound (Some EMPTY_LEXICON)))
  /\ exists results w',
       analyze_batch texts w = (Returns results, w')
       /\ length results = length texts
       /\ Forall (fun r => sentiment_score r = fzero
                           /\ sentiment_label r = py "neutral") results.
Proof.
  intros Hf Hc.
  assert (Hload : load_lexicon w
                  = (Returns EMPTY_LEXICON, World FileNotFound (Some EMPTY_LEXICON))).
  { unfold load_lexicon. rewrite Hc, Hf. reflexivity. }
  split; [exact Hload|]. split; [exact EMPTY_LEXICON_sections|]. split.
  - intros text.
    rewrite (calculate_sentiment_score_returns text w _ _ Hload).
    rewrite score_with_EMPTY_LEXICON. reflexivity.
  - assert (Hl : loadable w) by (right; rewrite Hf; discriminate).
    destruct (analyze_batch_loadable texts w Hl) as (lex & w' & Hrun & w0 & Hload').
    rewrite Hload in Hload'. inversion Hload'; subst lex w0.
    eexists _, w'. split; [exact Hrun|]. split.
    + rewrite length_fmap. reflexivity.
    + apply Forall_fmap, Forall_forall. intros text _. simpl.
      rewrite score_with_EMPTY_LEXICON. split; reflexivity.
Qed.

Lemma load_lexicon_missing_file_witness :
  calculate_sentiment_score (PyStr (py "bagus banget")) (World FileNotFound None)
  = (Returns fzero, World FileNotFound (Some EMPTY_LEXICON)).
Proof.
  assert (Hf : file_at_path (World FileNotFound None) = FileNotFound)
    by reflexivity.
  assert (Hc : cached_lexicon (World FileNotFound None) = None) by reflexivity.
  destruct (load_lexicon_missing_file (World FileNotFound None) [] Hf Hc)
    as (_ & _ & Hscore & _).
  exact (Hscore (PyStr (py "bagus banget"))).
Defined.

(** ** The scoring loop against its description *)

Lemma split_from_app_nonspace (t tok s : pystr) :
  Forall (fun c => is_space c = false) t ->
  split_from tok (t ++ s) = split_from (tok ++ t) s.
Proof.
  revert tok. induction t as [|c t IH]; intros tok Ht.
  - rewrite app_nil_r. reflexivity.
  - apply Forall_cons in Ht as [Hc Ht]. cbn [app split_from]. rewrite Hc.
    rewrite (IH _ Ht), <- app_assoc. reflexivity.
Qed.

Lemma split_space (sp : char) (s : pystr) :
  is_space sp = true -> split (sp :: s) = split s.
Proof. intros Hsp. unfold split. cbn [split_from]. rewrite Hsp. reflexivity. Qed.

Lemma split_token_space (t : pystr) (sp : char) (s : pystr) :
  t <> [] -> Forall (fun c => is_space c = false) t -> is_space sp = true ->
  split (t ++ sp :: s) = t :: split s.
Proof.
  intros Hne Ht Hsp. unfold split. rewrite (split_from_app_nonspace t [] _ Ht).
  cbn [app split_from]. rewrite Hsp. destruct t; [congruence|reflexivity].
Qed.

Lemma split_token (t : pystr) :
  t <> [] -> Forall (fun c => is_space c = false) t -> split t = [t].
Proof.
  intros Hne Ht. unfold split. rewrite <- (app_nil_r t) at 1.
  rewrite (split_from_app_nonspace t [] _ Ht). cbn [app split_from].
  destruct t; [congruence|reflexivity].
Qed.

(** A text is whitespace and tokens in turn. *)
Lemma tokens_ind (P : pystr -> Prop) :
  P [] ->
  (forall sp s, is_space sp = true -> P s -> P (sp :: s)) ->
  (forall t, t <> [] -> Forall (fun c => is_space c = false) t -> P t) ->
  (forall t sp s,
     t <> [] -> Forall (fun c => is_space c = false) t ->
     is_space sp = true -> P s -> P (t ++ sp :: s)) ->
  forall s, P s.
Proof.
  intros Hnil Hspace Htoken Hboth s.
  assert (Hs : P s /\ forall t, t <> [] ->
                        Forall (fun c => is_space c = false) t -> P (t ++ s)).
  { induction s as [|c s [IH1 IH2]].
    - split; [exact Hnil|]. intros t Hne Ht. rewrite app_nil_r.
      apply Htoken; assumption.
    - destruct (is_space c) eqn:Hc.
      + split; [apply Hspace; assumption|]. intros t Hne Ht.
        apply Hboth; assumption.
      + assert (Hstep : forall t, Forall (fun c => is_space c = false) t ->
                                  P (t ++ c :: s)).
        { intros t Ht. change (c :: s) with ([c] ++ s). rewrite app_assoc.
          apply IH2; [destruct t; discriminate|].
          apply Forall_app. split; [exact Ht|]. repeat constructor. exact Hc. }
        split; [apply (Hstep []); constructor|].
        intros t _ Ht. apply Hstep. exact Ht. }
  exact (proj1 Hs).
Qed.

(** [str.split] splits at whitespace. *)
Lemma split_whitespace_tokens (s : pystr) : whitespace_tokens s (split s).
Proof.
  induction s as [|sp s Hsp IH|t Hne Ht|t sp s Hne Ht Hsp IH] using tokens_ind.
  - constructor.
  - rewrite (split_space sp s Hsp). apply tokens_space; assumption.
  - rewrite (split_token t Hne Ht). apply tokens_last; assumption.
  - rewrite (split_token_space t sp s Hne Ht Hsp). apply tokens_more; assumption.
Qed.

Lemma modifier_value_default (mapping : gmap pystr float) (token : option pystr) :
  mapping !! ([] : pystr) = None ->
  mapping !! default [] token = modifier_value mapping token.
Proof. intros Hm. destruct token as [t|]; simpl; [reflexivity|exact Hm]. Qed.

Lemma loop_body_step (lex : lexicon) (words : list pystr) (i : nat)
  (st : loop_state) (word : pystr) :
  lists_words lex ->
  words !! i = Some word ->
  loop_state_at lex words i st ->
  loop_state_at lex words (S i) (loop_body lex st word).
Proof.
  intros [Hneg Hint] Hw (Hs & Hp & Hpp).
  unfold loop_state_at, loop_body. simpl score. simpl prev_word.
  simpl prev_prev_word. repeat split.
  - simpl spec_total. rewrite Hs. f_equal.
    unfold word_score, spec_token_weight, base_weight. rewrite Hw, Hp, Hpp.
    rewrite !(modifier_value_default _ _ Hneg).
    rewrite !(modifier_value_default _ _ Hint). reflexivity.
  - unfold token_before. simpl. rewrite Nat.sub_0_r, Hw. reflexivity.
  - rewrite Hp. unfold token_before. destruct i as [|j]; [reflexivity|].
    simpl. rewrite Nat.sub_0_r. reflexivity.
Qed.

Lemma loop_from (lex : lexicon) (words : list pystr) (n i : nat) (st : loop_state) :
  lists_words lex ->
  (i + n)%nat = length words ->
  loop_state_at lex words i st ->
  loop_state_at lex words (length words)
    (fold_left (loop_body lex) (drop i words) st).
Proof.
  intros Hlex. revert i st. induction n as [|n IH]; intros i st Hlen Hst.
  - rewrite Nat.add_0_r in Hlen. subst i. rewrite drop_all. exact Hst.
  - destruct (words !! i) as [word|] eqn:Hw.
    + rewrite (drop_S words word i Hw). simpl. apply IH.
      * lia.
      * apply loop_body_step; assumption.
    + apply lookup_ge_None in Hw. lia.
Qed.

(** The loop, the division and the rounding give the stated score of
    the tokens. *)
Lemma score_with_stated_score `{UnicodeData} (lex : lexicon) (text : py_value) :
  lists_words lex ->
  stated_score lex (tokenize (clean_text text true)) (score_with lex text).
Proof.
  intros Hlex. unfold score_with, stated_score. cbv zeta.
  destruct (tokenize (clean_text text true)) as [|word words] eqn:Hwords;
    [reflexivity|].
  assert (H0 : loop_state_at lex (word :: words) 0 (LoopState fzero [] []))
    by (repeat split).
  pose proof (loop_from lex (word :: words) (length (word :: words)) 0 _
                Hlex eq_refl H0) as (Hs & _ & _).
  rewrite drop_0 in Hs. rewrite Hs.
  rewrite Z.max_l by (simpl length; lia).
  apply py_round_rounded. lia.
Qed.

(** C1, as stated, fails in two ways.  The loop starts with the empty
    string as the preceding token, so a lexicon that lists the empty
    string as a negator has the first token multiplied, although no token
    precedes it: with 'bagus' at 1.0 the code returns -1.0 where the
    stated algorithm gives 1.0.  And when the lexicon file is malformed,
    no score is computed at all. *)
Lemma calculate_sentiment_score_first_token :
  let lex : lexicon :=
    <[py "positif" := {[py "bagus" := float_of_int 1]}]>
      (<[py "negator" := {[([] : pystr) := float_of_int (-1)]}]> ∅) in
  let text := PyStr (py "bagus") in
  run (calculate_sentiment_score text) (World (FileJson lex) None)
  = Returns (float_of_int (-1))
  /\ whitespace_tokens (clean_text text true) [py "bagus"]
  /\ stated_score lex [py "bagus"] (float_of_int 1)
  /\ feq (float_of_int (-1)) (float_of_int 1) = false
  /\ run (calculate_sentiment_score text) (World FileMalformed None)
     = Raises JSONDecodeError.
Proof.
  cbv zeta. split; [vm_compute; reflexivity|]. split; [|split; [|split]].
  - replace (clean_text (PyStr (py "bagus")) true) with (py "bagus")
      by (vm_compute; reflexivity).
    apply tokens_last; [discriminate|].
    repeat (constructor; [vm_compute; reflexivity|]). constructor.
  - unfold stated_score.
    match goal with
    | |- rounded_to_decimals 3 ?x _ =>
        replace x with (S754_finite false 4503599627370496 (-52))
          by (vm_compute; reflexivity)
    end.
    exists 1000%Z. split; [split|vm_compute; reflexivity].
    + vm_compute. discriminate.
    + intros _. reflexivity.
  - vm_compute. reflexivity.
  - reflexivity.
Qed.

(** C1 (amended): for every input text, once the lexicon is loaded and
    lists words (the empty string being no negator and no intensifier),
    the score returned is the one of the stated algorithm: clean with
    slang expansion, split at whitespace; 0.0 when there is no token;
    otherwise the sum, from left to right and starting at 0.0, of each
    token's positive or negative lexicon weight (else 0.0), multiplied
    by the negator value when the token just before is a negator, by the
    intensifier value when the token just before is an intensifier, and
    by the intensifier value times 0.5 when the token two back is an
    intensifier; divided by the token count and rounded to 3 decimal
    places.  The arithmetic is that of the floats. *)
Theorem calculate_sentiment_score_spec `{UnicodeData}
  (text : py_value) (w w' : world) (lex : lexicon) :
  load_lexicon w = (Returns lex, w') ->
  lists_words lex ->
  exists words score,
    calculate_sentiment_score text w = (Returns score, w')
    /\ whitespace_tokens (clean_text text true) words
    /\ stated_score lex words score.
Proof.
  intros Hload Hlex.
  exists (tokenize (clean_text text true)), (score_with lex text).
  split; [exact (calculate_sentiment_score_returns text w w' lex Hload)|].
  split; [apply split_whitespace_tokens|].
  apply score_with_stated_score. exact Hlex.
Qed.

Lemma calculate_sentiment_score_spec_witness :
  exists words score,
    calculate_sentiment_score (PyStr (py "gak bagus banget")) sample_world
    = (Returns score, World (FileJson sample_lexicon) (Some sample_lexicon))
    /\ whitespace_tokens (clean_text (PyStr (py "gak bagus banget")) true) words
    /\ stated_score sample_lexicon words score.
Proof.
  apply (calculate_sentiment_score_spec _ sample_world _ sample_lexicon).
  - reflexivity.
  - split; vm_compute; reflexivity.
Defined.

(** ** Percentages *)

Lemma count_label_cons (label : pystr) (r : AnalysisResult)
  (results : list AnalysisResult) :
  count_label label (r :: results)
  = ((if decide (sentiment_label r = label) then 1 else 0)
     + count_label label results)%Z.
Proof.
  unfold count_label. rewrite filter_cons.
  destruct (decide (sentiment_label r = label)); simpl length; lia.
Qed.

(** The three counts share out a batch whose labels are the three
    labels. *)
Lemma count_label_partition (results : list AnalysisResult) :
  Forall (fun r => is_label (sentiment_label r)) results ->
  (count_label (py "positive") results + count_label (py "negative") results
   + count_label (py "neutral") results)%Z
  = Z.of_nat (length results).
Proof.
  destruct labels_distinct as (Hpn & Hpu & Hnu).
  induction 1 as [|r results Hr _ IH]; [reflexivity|].
  rewrite !count_label_cons. simpl length. rewrite Nat2Z.inj_succ, <- IH.
  destruct Hr as [Hr|[Hr|Hr]]; rewrite Hr;
    repeat case_decide; try congruence; lia.
Qed.

Lemma count_label_nonneg (label : pystr) (results : list AnalysisResult) :
  (0 <= count_label label results)%Z.
Proof. unfold count_label. lia. Qed.

(** The decimals of three shares of one total add up to 100.0, give or
    take one tenth. *)
Lemma rounded_shares_sum (kp kn ku p n u t : Z) :
  (0 < t)%Z -> (p + n + u = t)%Z ->
  rounded_share kp p t -> rounded_share kn n t -> rounded_share ku u t ->
  (999 <= kp + kn + ku <= 1001)%Z.
Proof.
  unfold rounded_share. intros Ht Hsum Hp Hn Hu.
  assert (H43 : (2 ^ (-43) == 1 # 8796093022208)%Q) by reflexivity.
  rewrite H43 in Hp, Hn, Hu.
  assert (Ht0 : ~ (inject_Z t == 0)%Q).
  { intros Hz. unfold Qeq in Hz. cbn in Hz. lia. }
  assert (Hexact : (100 * inject_Z p / inject_Z t + 100 * inject_Z n / inject_Z t
                    + 100 * inject_Z u / inject_Z t == 100)%Q).
  { rewrite <- Hsum, !inject_Z_plus in Ht0 |- *. field. exact Ht0. }
  apply Qabs_Qle_condition in Hp, Hn, Hu.
  set (a := (100 * inject_Z p / inject_Z t)%Q) in *.
  set (b := (100 * inject_Z n / inject_Z t)%Q) in *.
  set (c := (100 * inject_Z u / inject_Z t)%Q) in *.
  unfold Qdiv in Hp, Hn, Hu. change (/ 10)%Q with (1 # 10)%Q in Hp, Hn, Hu.
  assert (Hlo : (inject_Z 998 < inject_Z (kp + kn + ku))%Q).
  { rewrite !inject_Z_plus. change (inject_Z 998) with 998%Q. lra. }
  assert (Hhi : (inject_Z (kp + kn + ku) < inject_Z 1002)%Q).
  { rewrite !inject_Z_plus. change (inject_Z 1002) with 1002%Q. lra. }
  rewrite <- Zlt_Qlt in Hlo, Hhi. lia.
Qed.

Lemma zero_or_finite_nonneg_float (m e : Z) :
  (0 <= m)%Z -> zero_or_finite (nonneg_float m e) = true.
Proof. destruct m; try reflexivity. lia. Qed.

(** Added up as floats, three percentages that are a tenth off at most
    give a sum that is a tenth off, but for the rounding of the sum. *)
Lemma percentages_fadd (kp kn ku mp mn mu ep en eu : Z) :
  (0 <= mp)%Z -> (0 <= mn)%Z -> (0 <= mu)%Z ->
  (ep <= -45)%Z -> (en <= -45)%Z -> (eu <= -45)%Z ->
  (Qabs (inject_Z mp * 2 ^ ep - inject_Z kp / 10) <= 2 ^ (-44))%Q ->
  (Qabs (inject_Z mn * 2 ^ en - inject_Z kn / 10) <= 2 ^ (-44))%Q ->
  (Qabs (inject_Z mu * 2 ^ eu - inject_Z ku / 10) <= 2 ^ (-44))%Q ->
  (0 <= kp)%Z -> (0 <= kn)%Z -> (0 <= ku)%Z ->
  (999 <= kp + kn + ku <= 1001)%Z ->
  let sum := fadd (fadd (nonneg_float mp ep) (nonneg_float mn en))
                  (nonneg_float mu eu) in
  zero_or_finite sum = true
  /\ (Qabs (float_value sum - 100) <= (1 # 10) + 2 ^ (-40))%Q.
Proof.
  intros Hmp Hmn Hmu Hep Hen Heu Hvp Hvn Hvu Hkp Hkn Hku Hk.
  assert (H44 : (2 ^ (-44) == 1 # 17592186044416)%Q) by reflexivity.
  assert (H40 : (2 ^ (-40) == 1 # 1099511627776)%Q) by reflexivity.
  assert (H744 : (2 ^ (7 - 51) == 1 # 17592186044416)%Q) by reflexivity.
  assert (H27 : (2 ^ 7 == 128)%Q) by reflexivity.
  rewrite H44 in Hvp, Hvn, Hvu.
  apply Qabs_Qle_condition in Hvp, Hvn, Hvu.
  unfold Qdiv in Hvp, Hvn, Hvu. change (/ 10)%Q with (1 # 10)%Q in Hvp, Hvn, Hvu.
  assert (Hkq : (inject_Z 999 <= inject_Z kp + inject_Z kn + inject_Z ku
                 <= inject_Z 1001)%Q).
  { rewrite <- !inject_Z_plus, <- !Zle_Qle. exact Hk. }
  change (inject_Z 999) with 999%Q in Hkq.
  change (inject_Z 1001) with 1001%Q in Hkq.
  assert (Hkp0 : (0 <= inject_Z kp)%Q)
    by (change 0%Q with (inject_Z 0); rewrite <- Zle_Qle; exact Hkp).
  assert (Hkn0 : (0 <= inject_Z kn)%Q)
    by (change 0%Q with (inject_Z 0); rewrite <- Zle_Qle; exact Hkn).
  assert (Hku0 : (0 <= inject_Z ku)%Q)
    by (change 0%Q with (inject_Z 0); rewrite <- Zle_Qle; exact Hku).
  set (vp := (inject_Z mp * 2 ^ ep)%Q) in *.
  set (vn := (inject_Z mn * 2 ^ en)%Q) in *.
  set (vu := (inject_Z mu * 2 ^ eu)%Q) in *.
  assert (H1 : (vp + vn <= 2 ^ 7)%Q) by (rewrite H27; lra).
  destruct (fadd_bound mp mn ep en 7 Hmp Hmn ltac:(lia) ltac:(lia) H1 ltac:(lia))
    as (m1 & e1 & Hm1 & He1 & Hs1 & Herr1).
  fold vp vn in Herr1. rewrite H744 in Herr1.
  apply Qabs_Qle_condition in Herr1.
  set (v1 := (inject_Z m1 * 2 ^ e1)%Q) in *.
  assert (H2 : (v1 + vu <= 2 ^ 7)%Q) by (rewrite H27; lra).
  destruct (fadd_bound m1 mu e1 eu 7 Hm1 Hmu ltac:(lia) ltac:(lia) H2 ltac:(lia))
    as (m2 & e2 & Hm2 & He2 & Hs2 & Herr2).
  fold v1 vu in Herr2. rewrite H744 in Herr2.
  apply Qabs_Qle_condition in Herr2.
  cbv zeta. rewrite Hs1, Hs2.
  split; [apply zero_or_finite_nonneg_float; exact Hm2|].
  unfold nonneg_float. rewrite (float_value_rounded m2 e2 Hm2), H40.
  apply Qabs_Qle_condition. set (v2 := (inject_Z m2 * 2 ^ e2)%Q) in *.
  split; lra.
Qed.

(** C8: for every non-empty batch of results (each labelled positive,
    negative or neutral), each of the three percentages is the float
    written with one decimal that is the share of its label count in the
    total, in percent, rounded to one decimal place; the three decimals
    add up to 99.9, 100.0 or 100.1; and the float sum
    [positive_pct + negative_pct + neutral_pct] is finite and within one
    tenth of 100.0, but for the rounding of the sum itself. *)
Theorem percentages_sum_to_100 (results : list AnalysisResult) :
  results <> [] ->
  Forall (fun r => is_label (sentiment_label r)) results ->
  let summary := get_sentiment_summary results in
  let n := Z.of_nat (length results) in
  exists kp kn ku : Z,
    positive_pct summary = Float (float_of_decimal kp 1)
    /\ negative_pct summary = Float (float_of_decimal kn 1)
    /\ neutral_pct summary = Float (float_of_decimal ku 1)
    /\ rounded_share kp (count_label (py "positive") results) n
    /\ rounded_share kn (count_label (py "negative") results) n
    /\ rounded_share ku (count_label (py "neutral") results) n
    /\ (999 <= kp + kn + ku <= 1001)%Z
    /\ zero_or_finite
         (fadd (fadd (float_of_decimal kp 1) (float_of_decimal kn 1))
               (float_of_decimal ku 1)) = true
    /\ (Qabs (float_value
                (fadd (fadd (float_of_decimal kp 1) (float_of_decimal kn 1))
                      (float_of_decimal ku 1)) - 100)
        <= (1 # 10) + 2 ^ (-40))%Q.
Proof.
  intros Hne Hlabels.
  destruct results as [|r0 results0] eqn:Hres; [congruence|].
  rewrite <- Hres in *. clear Hne.
  assert (Hsum : get_sentiment_summary results
    = {| total := Z.of_nat (length results);
         positive_count := count_label (py "positive") results;
         negative_count := count_label (py "negative") results;
         neutral_count := count_label (py "neutral") results;
         positive_pct :=
           Float (percentage (count_label (py "positive") results)
                    (Z.of_nat (length results)));
         negative_pct :=
           Float (percentage (count_label (py "negative") results)
                    (Z.of_nat (length results)));
         neutral_pct :=
           Float (percentage (count_label (py "neutral") results)
                    (Z.of_nat (length results)));
         avg_score :=
           Float (py_round (fdiv (py_sum (sentiment_score <$> results))
                              (float_of_int (Z.of_nat (length results)))) 3) |}).
  { rewrite Hres. reflexivity. }
  intros summary n. subst summary n. rewrite Hsum.
  cbn [positive_pct negative_pct neutral_pct].
  pose proof (count_label_partition results Hlabels) as Hpart.
  pose proof (count_label_nonneg (py "positive") results) as Hp0.
  pose proof (count_label_nonneg (py "negative") results) as Hn0.
  pose proof (count_label_nonneg (py "neutral") results) as Hu0.
  set (p := count_label (py "positive") results) in *.
  set (n := count_label (py "negative") results) in *.
  set (u := count_label (py "neutral") results) in *.
  set (t := Z.of_nat (length results)) in *.
  assert (Ht : (0 < t)%Z) by (unfold t; rewrite Hres; simpl length; lia).
  destruct (percentage_decimal p t ltac:(lia) Ht)
    as (kp & mp & ep & Hkp & Hfp & Hsp & Hmp & Hep & Hnp & Hvp).
  destruct (percentage_decimal n t ltac:(lia) Ht)
    as (kn & mn & en & Hkn & Hfn & Hsn & Hmn & Hen & Hnn & Hvn).
  destruct (percentage_decimal u t ltac:(lia) Ht)
    as (ku & mu & eu & Hku & Hfu & Hsu & Hmu & Heu & Hnu & Hvu).
  pose proof (rounded_shares_sum kp kn ku p n u t Ht Hpart Hsp Hsn Hsu) as Hk.
  exists kp, kn, ku.
  split; [rewrite Hfp; reflexivity|]. split; [rewrite Hfn; reflexivity|].
  split; [rewrite Hfu; reflexivity|].
  split; [exact Hsp|]. split; [exact Hsn|]. split; [exact Hsu|].
  split; [exact Hk|].
  rewrite <- Hfp, <- Hfn, <- Hfu, Hnp, Hnn, Hnu.
  apply (percentages_fadd kp kn ku); try assumption; lia.
Qed.

Lemma percentages_sum_to_100_witness :
  let results :=
    [Result PyNone [] (float_of_int 1) (py "positive");
     Result PyNone [] (float_of_int (-1)) (py "negative");
     Result PyNone [] fzero (py "neutral")] in
  exists kp kn ku : Z,
    positive_pct (get_sentiment_summary results) = Float (float_of_decimal kp 1)
    /\ negative_pct (get_sentiment_summary results) = Float (float_of_decimal kn 1)
    /\ neutral_pct (get_sentiment_summary results) = Float (float_of_decimal ku 1)
    /\ (999 <= kp + kn + ku <= 1001)%Z.
Proof.
  intros results.
  assert (Hne : results <> []) by discriminate.
  assert (Hlabels : Forall (fun r => is_label (sentiment_label r)) results).
  { repeat constructor; simpl; unfold is_label; tauto. }
  destruct (percentages_sum_to_100 results Hne Hlabels)
    as (kp & kn & ku & Hp & Hn & Hu & _ & _ & _ & Hk & _).
  exists kp, kn, ku. split; [exact Hp|]. split; [exact Hn|].
  split; [exact Hu|exact Hk].
Defined.

(** ** Word ranking *)

Lemma first_index_lt (word : pystr) (stream : list pystr) (i : nat) :
  first_index word stream = Some i -> (i < length stream)%nat.
Proof.
  revert i. induction stream as [|t stream IH]; intros i; simpl.
  - discriminate.
  - case_decide.
    + intros [= <-]. lia.
    + destruct (first_index word stream) as [j|]; simpl; [|discriminate].
      intros [= <-]. specialize (IH j eq_refl). lia.
Qed.

Lemma first_index_None (word : pystr) (stream : list pystr) :
  first_index word stream = None <-> word ∉ stream.
Proof.
  induction stream as [|t stream IH]; simpl.
  - split; [intros _; apply not_elem_of_nil|reflexivity].
  - rewrite not_elem_of_cons. case_decide.
    + split; [discriminate|]. intros [Hne _]. congruence.
    + destruct (first_index word stream) as [j|]; simpl.
      * split; [discriminate|]. intros [_ Hn]. apply IH in Hn. discriminate.
      * split; [|reflexivity]. intros _. split; [congruence|].
        apply IH. reflexivity.
Qed.

Lemma first_index_elem_of (word : pystr) (stream : list pystr) :
  word ∈ stream -> exists i, first_index word stream = Some i.
Proof.
  intros Hin. destruct (first_index word stream) as [i|] eqn:Hf; [eauto|].
  apply first_index_None in Hf. contradiction.
Qed.

Lemma first_index_app (word : pystr) (s s' : list pystr) :
  first_index word (s ++ s')
  = match first_index word s with
    | Some i => Some i
    | None => (fun j => (length s + j)%nat) <$> first_index word s'
    end.
Proof.
  induction s as [|t s IH]; simpl.
  - destruct (first_index word s'); reflexivity.
  - case_decide; [reflexivity|]. rewrite IH.
    destruct (first_index word s) as [i|]; simpl; [reflexivity|].
    destruct (first_index word s'); reflexivity.
Qed.

Lemma seen_before_app (s s' : list pystr) (a b : pystr * Z) :
  seen_before s a b -> seen_before (s ++ s') a b.
Proof.
  intros (ia & ib & Ha & Hb & Hlt). exists ia, ib.
  rewrite !first_index_app, Ha, Hb. auto.
Qed.

Lemma occurrences_app (word : pystr) (s s' : list pystr) :
  occurrences word (s ++ s') = (occurrences word s + occurrences word s')%Z.
Proof. unfold occurrences. rewrite filter_app, length_app. lia. Qed.

Lemma occurrences_singleton (word t : pystr) :
  occurrences word [t] = if decide (t = word) then 1%Z else 0%Z.
Proof.
  unfold occurrences. rewrite filter_cons, filter_nil.
  case_decide; reflexivity.
Qed.

Lemma StronglySorted_mono {A} (R1 R2 : A -> A -> Prop) (l : list A) :
  (forall a b, R1 a b -> R2 a b) ->
  StronglySorted R1 l -> StronglySorted R2 l.
Proof.
  intros Himp. induction 1 as [|a l Hl IH Ha]; constructor; [exact IH|].
  eapply Forall_impl; [exact Ha|]. intros b. apply Himp.
Qed.

Lemma StronglySorted_lookup {A} (R : A -> A -> Prop) (l : list A) (i j : nat) (a b : A) :
  StronglySorted R l -> (i < j)%nat ->
  l !! i = Some a -> l !! j = Some b -> R a b.
Proof.
  intros Hs. revert i j. induction Hs as [|x l Hl IH Hx]; intros i j Hij Ha Hb.
  - discriminate.
  - destruct j as [|j]; [lia|]. simpl in Hb. destruct i as [|i]; simpl in Ha.
    + inversion Ha; subst x. rewrite Forall_forall in Hx. apply Hx.
      eapply list_elem_of_lookup_2. exact Hb.
    + apply (IH i j); [lia|assumption..].
Qed.

Lemma StronglySorted_take {A} (R : A -> A -> Prop) (l : list A) (n : nat) :
  StronglySorted R l -> StronglySorted R (take n l).
Proof.
  intros Hs. rewrite <- (take_drop n l) in Hs.
  exact (StronglySorted_app_1_l _ _ _ Hs).
Qed.

(** *** The counting loop *)

Lemma bump_fst (word : pystr) (kv : pystr * Z) : (bump word kv).1 = kv.1.
Proof. unfold bump. case_decide; reflexivity. Qed.

Lemma bump_not_elem_of (word : pystr) (d : list (pystr * Z)) :
  word ∉ d.*1 -> bump word <$> d = d.
Proof.
  induction d as [|[k v] d IH]; [reflexivity|].
  rewrite !fmap_cons. cbn [fst]. rewrite not_elem_of_cons.
  intros [Hne Hn]. rewrite (IH Hn).
  unfold bump. cbn [fst]. case_decide; [congruence|reflexivity].
Qed.

Lemma dict_incr_not_elem_of (word : pystr) (d : list (pystr * Z)) :
  word ∉ d.*1 -> dict_incr word d = d ++ [(word, 1%Z)].
Proof.
  induction d as [|[k v] d IH]; [reflexivity|].
  rewrite fmap_cons. cbn [fst dict_incr]. rewrite not_elem_of_cons.
  intros [Hne Hn].
  case_decide; [congruence|]. rewrite (IH Hn). reflexivity.
Qed.

Lemma dict_incr_elem_of (word : pystr) (d : list (pystr * Z)) :
  NoDup d.*1 -> word ∈ d.*1 -> dict_incr word d = bump word <$> d.
Proof.
  induction d as [|[k v] d IH].
  - intros _ Hin. apply elem_of_nil in Hin. contradiction.
  - rewrite !fmap_cons. cbn [fst dict_incr]. rewrite NoDup_cons.
    intros [Hk Hnd] Hin. unfold bump at 1. cbn [fst snd].
    case_decide as Hkw.
    + subst k. rewrite (bump_not_elem_of word d Hk). reflexivity.
    + apply elem_of_cons in Hin as [Heq|Hin]; [congruence|].
      rewrite (IH Hnd Hin). reflexivity.
Qed.

Lemma occurrences_not_elem_of (word : pystr) (stream : list pystr) :
  word ∉ stream -> occurrences word stream = 0%Z.
Proof.
  induction stream as [|t stream IH]; [reflexivity|].
  rewrite not_elem_of_cons. intros [Hne Hn].
  change (t :: stream) with ([t] ++ stream).
  rewrite occurrences_app, occurrences_singleton, (IH Hn).
  case_decide; [congruence|reflexivity].
Qed.

Lemma counted_nil : counted [] [].
Proof.
  repeat split; try constructor.
  - intros t Hin. apply elem_of_nil in Hin. contradiction.
  - intros k Hin. apply elem_of_nil in Hin. contradiction.
Qed.

Lemma elem_of_keys (d : list (pystr * Z)) (kv : pystr * Z) :
  kv ∈ d -> kv.1 ∈ d.*1.
Proof. intros Hin. apply list_elem_of_fmap. exists kv. auto. Qed.

(** One turn of the inner loop keeps [word_freq] in step with the
    tokens read. *)
Lemma counted_step (s : list pystr) (d : list (pystr * Z)) (t : pystr) :
  counted s d ->
  counted (s ++ [t]) (if (2 <? length t)%nat then dict_incr t d else d).
Proof.
  intros (Hnd & Hss & Hall & Hcov & Hin).
  destruct (2 <? length t)%nat eqn:Hlong.
  - apply Nat.ltb_lt in Hlong.
    destruct (decide (t ∈ d.*1)) as [Ht|Ht].
    + rewrite (dict_incr_elem_of t d Hnd Ht).
      assert (Hkeys : (bump t <$> d).*1 = d.*1).
      { rewrite <- list_fmap_compose. apply list_fmap_ext.
        intros i kv _. apply bump_fst. }
      unfold counted. rewrite Hkeys. repeat split.
      * exact Hnd.
      * apply (StronglySorted_fmap _ (seen_before s)); [|exact Hss].
        intros a b (ia & ib & Ha & Hb & Hlt). exists ia, ib.
        rewrite !bump_fst, !first_index_app, Ha, Hb. auto.
      * apply Forall_fmap. eapply Forall_impl; [exact Hall|].
        intros kv [Hk Hv]. simpl. rewrite bump_fst. split; [exact Hk|].
        rewrite occurrences_app, occurrences_singleton, <- Hv.
        unfold bump. repeat case_decide; simpl; congruence || lia.
      * intros t' Ht' Hl. apply elem_of_app in Ht' as [Ht'|Ht'].
        -- apply Hcov; assumption.
        -- apply list_elem_of_singleton in Ht'. subst t'. exact Ht.
      * intros k Hk. apply elem_of_app. left. apply Hin. exact Hk.
    + rewrite (dict_incr_not_elem_of t d Ht).
      assert (Hts : t ∉ s).
      { intros Hts. apply Ht. apply Hcov; assumption. }
      unfold counted. rewrite fmap_app. repeat split.
      * apply NoDup_app. split; [exact Hnd|]. split.
        -- intros k Hk Hk'. apply list_elem_of_singleton in Hk'. simpl in Hk'.
           congruence.
        -- apply NoDup_singleton.
      * apply StronglySorted_app. split; [|split].
        -- intros a b Ha Hb. apply list_elem_of_singleton in Hb. subst b.
           destruct (first_index_elem_of a.1 s (Hin _ (elem_of_keys d a Ha)))
             as [ia Hia].
           exists ia, (length s + 0)%nat. cbn [fst].
           rewrite !first_index_app, Hia.
           apply first_index_None in Hts. rewrite Hts. simpl.
           rewrite decide_True by reflexivity. simpl.
           apply first_index_lt in Hia. repeat split. lia.
        -- eapply StronglySorted_mono; [|exact Hss].
           intros a b. apply seen_before_app.
        -- repeat constructor.
      * apply Forall_app. split.
        -- rewrite Forall_forall in Hall. apply Forall_forall.
           intros kv Hkv. destruct (Hall kv Hkv) as [Hk Hv].
           split; [exact Hk|].
           rewrite occurrences_app, occurrences_singleton, <- Hv.
           case_decide as Heq; [|lia]. exfalso. apply Ht. rewrite Heq.
           apply elem_of_keys. exact Hkv.
        -- constructor; [|constructor]. simpl. split; [exact Hlong|].
           rewrite occurrences_app, occurrences_singleton.
           rewrite (occurrences_not_elem_of t s Hts).
           rewrite decide_True by reflexivity. reflexivity.
      * intros t' Ht' Hl. apply elem_of_app in Ht' as [Ht'|Ht'].
        -- apply elem_of_app. left. apply Hcov; assumption.
        -- apply elem_of_app. right. exact Ht'.
      * intros k Hk. apply elem_of_app in Hk as [Hk|Hk].
        -- apply elem_of_app. left. apply Hin. exact Hk.
        -- apply elem_of_app. right. exact Hk.
  - apply Nat.ltb_ge in Hlong. unfold counted. repeat split.
    + exact Hnd.
    + eapply StronglySorted_mono; [|exact Hss].
      intros a b. apply seen_before_app.
    + eapply Forall_impl; [exact Hall|]. intros kv [Hk Hv].
      split; [exact Hk|].
      rewrite occurrences_app, occurrences_singleton, <- Hv.
      case_decide as Heq; [|lia]. subst t. lia.
    + intros t' Ht' Hl. apply elem_of_app in Ht' as [Ht'|Ht'].
      * apply Hcov; assumption.
      * apply list_elem_of_singleton in Ht'. subst t'. lia.
    + intros k Hk. apply elem_of_app. left. apply Hin. exact Hk.
Qed.

Lemma count_words_counted (words s : list pystr) (d : list (pystr * Z)) :
  counted s d -> counted (s ++ words) (count_words d words).
Proof.
  revert s d. induction words as [|t words IH]; intros s d Hd.
  - rewrite app_nil_r. exact Hd.
  - change (t :: words) with ([t] ++ words). rewrite app_assoc.
    apply (IH (s ++ [t])). apply counted_step. exact Hd.
Qed.

Lemma count_words_app (d : list (pystr * Z)) (a b : list pystr) :
  count_words d (a ++ b) = count_words (count_words d a) b.
Proof. unfold count_words. apply fold_left_app. Qed.

(** The two nested loops count the tokens read, taken in one row. *)
Lemma word_frequencies_count_words (results : list AnalysisResult)
  (sentiment : option pystr) :
  word_frequencies results sentiment
  = count_words [] (tokens_read results sentiment).
Proof.
  unfold word_frequencies, tokens_read. generalize ([] : list (pystr * Z)).
  induction results as [|r results IH]; intros d; [reflexivity|].
  rewrite fmap_cons. cbn [fold_left concat]. rewrite count_words_app, IH.
  destruct (skipped sentiment r); reflexivity.
Qed.

Lemma word_frequencies_counted (results : list AnalysisResult)
  (sentiment : option pystr) :
  counted (tokens_read results sentiment) (word_frequencies results sentiment).
Proof.
  rewrite word_frequencies_count_words.
  apply (count_words_counted _ [] []). exact counted_nil.
Qed.

(** *** The stable sort *)

Lemma insert_item_perm (x : pystr * Z) (l : list (pystr * Z)) :
  insert_item x l ≡ₚ x :: l.
Proof.
  induction l as [|y l IH]; simpl; [reflexivity|].
  destruct (x.2 <? y.2)%Z; [|reflexivity].
  rewrite IH. apply Permutation_swap.
Qed.

Lemma sorted_by_count_perm (l : list (pystr * Z)) : sorted_by_count l ≡ₚ l.
Proof.
  induction l as [|x l IH]; simpl; [reflexivity|].
  rewrite insert_item_perm, IH. reflexivity.
Qed.

(** An item that was seen before all the sorted ones goes in front of
    those with a count no larger than its own. *)
Lemma insert_item_ranked (stream : list pystr) (x : pystr * Z)
  (l : list (pystr * Z)) :
  Forall (seen_before stream x) l ->
  StronglySorted (ranked_before stream) l ->
  StronglySorted (ranked_before stream) (insert_item x l).
Proof.
  induction l as [|y l IH]; intros Hx Hl; simpl.
  - repeat constructor.
  - apply Forall_cons in Hx as [Hxy Hxl].
    apply StronglySorted_cons in Hl as [Hyl Hl].
    destruct (x.2 <? y.2)%Z eqn:Hlt.
    + apply Z.ltb_lt in Hlt. apply StronglySorted_cons. split.
      * rewrite insert_item_perm. constructor; [|exact Hyl]. left. exact Hlt.
      * apply IH; assumption.
    + apply Z.ltb_ge in Hlt. apply StronglySorted_cons. split.
      * constructor.
        -- destruct (Z.eq_dec x.2 y.2) as [Heq|Hne].
           ++ right. split; assumption.
           ++ left. lia.
        -- rewrite Forall_forall in Hyl, Hxl. apply Forall_forall.
           intros z Hz. specialize (Hyl z Hz). specialize (Hxl z Hz).
           destruct (Z.eq_dec x.2 z.2) as [Heq|Hne].
           ++ right. split; assumption.
           ++ left. destruct Hyl as [Hyz|[Hyz _]]; lia.
      * apply StronglySorted_cons. split; assumption.
Qed.

Lemma sorted_by_count_ranked (stream : list pystr) (l : list (pystr * Z)) :
  StronglySorted (seen_before stream) l ->
  StronglySorted (ranked_before stream) (sorted_by_count l).
Proof.
  induction l as [|x l IH]; intros Hl; simpl.
  - constructor.
  - apply StronglySorted_cons in Hl as [Hx Hl].
    apply insert_item_ranked; [|apply IH; exact Hl].
    rewrite sorted_by_count_perm. exact Hx.
Qed.

(** *** Back to a dictionary *)

Lemma dict_set_not_elem_of (k : pystr) (v : Z) (d : list (pystr * Z)) :
  k ∉ d.*1 -> dict_set k v d = d ++ [(k, v)].
Proof.
  induction d as [|[k' v'] d IH]; [reflexivity|].
  rewrite fmap_cons. cbn [fst dict_set]. rewrite not_elem_of_cons.
  intros [Hne Hn]. case_decide; [congruence|]. rewrite (IH Hn). reflexivity.
Qed.

Lemma dict_of_items_from (items d : list (pystr * Z)) :
  NoDup (d ++ items).*1 ->
  fold_left (fun d kv => dict_set kv.1 kv.2 d) items d = d ++ items.
Proof.
  revert d. induction items as [|[k v] items IH]; intros d Hnd.
  - rewrite app_nil_r. reflexivity.
  - cbn [fold_left fst snd].
    assert (Hk : k ∉ d.*1).
    { rewrite fmap_app, fmap_cons in Hnd. apply NoDup_app in Hnd as (_ & Hd & _).
      intros Hk. apply (Hd k Hk). left. }
    rewrite (dict_set_not_elem_of k v d Hk).
    rewrite IH; rewrite <- app_assoc; [reflexivity|exact Hnd].
Qed.

Lemma dict_of_items_NoDup (items : list (pystr * Z)) :
  NoDup items.*1 -> dict_of_items items = items.
Proof. intros Hnd. apply (dict_of_items_from items []). exact Hnd. Qed.

(** *** The table returned *)

Lemma slice_to_nonneg {A} (l : list A) (n : Z) :
  (0 <= n)%Z -> slice_to l n = take (Z.to_nat n) l.
Proof.
  intros Hn. unfold slice_to. destruct (0 <=? n)%Z eqn:Hb; [reflexivity|].
  apply Z.leb_gt in Hb. lia.
Qed.

(** For a count that is not negative, the table is the front of the
    sorted items. *)
Lemma get_top_words_take (results : list AnalysisResult)
  (sentiment : option pystr) (top_n : Z) :
  (0 <= top_n)%Z ->
  get_top_words results sentiment top_n
  = take (Z.to_nat top_n)
      (sorted_by_count (word_frequencies results sentiment)).
Proof.
  intros Hn. unfold get_top_words. cbv zeta. rewrite (slice_to_nonneg _ _ Hn).
  apply dict_of_items_NoDup.
  destruct (word_frequencies_counted results sentiment) as (Hnd & _).
  rewrite fmap_take. eapply sublist_NoDup; [|apply sublist_take].
  rewrite sorted_by_count_perm. exact Hnd.
Qed.

(** C7, as stated, fails for a negative [top_n]: the slice [[:-1]] drops
    the last item only, so three distinct words leave a table of two
    entries, which is more than -1. *)
Lemma get_top_words_negative_top_n :
  let results := [Result PyNone (py "aaa bbb ccc") fzero (py "neutral")] in
  let table := get_top_words results None (-1) in
  table = [(py "aaa", 1%Z); (py "bbb", 1%Z)]
  /\ ~ (Z.of_nat (length table) <= -1)%Z.
Proof.
  split; [vm_compute; reflexivity|].
  vm_compute. intros Hle. apply Hle. reflexivity.
Qed.

(** C7 (amended): for every result collection, label filter and
    requested [top_n] that is not negative, the table returned by
    [get_top_words] contains no token of length 2 or less, has at most
    [top_n] entries, gives each word the number of its occurrences among
    the tokens read, and lists the entries in descending order of count,
    entries of equal count in the order in which their words first
    appear in the input. *)
Theorem get_top_words_ranked (results : list AnalysisResult)
  (sentiment : option pystr) (top_n : Z) :
  (0 <= top_n)%Z ->
  let table := get_top_words results sentiment top_n in
  let stream := tokens_read results sentiment in
  Forall (fun kv => (2 < length kv.1)%nat) table
  /\ (Z.of_nat (length table) <= top_n)%Z
  /\ Forall (fun kv => kv.2 = occurrences kv.1 stream) table
  /\ forall i j a b,
       (i < j)%nat -> table !! i = Some a -> table !! j = Some b ->
       (b.2 <= a.2)%Z
       /\ (a.2 = b.2 ->
           exists ia ib,
             first_index a.1 stream = Some ia
             /\ first_index b.1 stream = Some ib
             /\ (ia < ib)%nat).
Proof.
  intros Hn table stream. subst table stream.
  rewrite (get_top_words_take results sentiment top_n Hn).
  destruct (word_frequencies_counted results sentiment)
    as (Hnd & Hss & Hall & _ & _).
  set (stream := tokens_read results sentiment) in *.
  set (d := word_frequencies results sentiment) in *.
  assert (Hall' : Forall (fun kv => (2 < length kv.1)%nat
                                   /\ kv.2 = occurrences kv.1 stream)
                         (take (Z.to_nat top_n) (sorted_by_count d))).
  { apply Forall_take. rewrite sorted_by_count_perm. exact Hall. }
  split; [|split; [|split]].
  - eapply Forall_impl; [exact Hall'|]. intros kv [Hk _]. exact Hk.
  - rewrite length_take. lia.
  - eapply Forall_impl; [exact Hall'|]. intros kv [_ Hv]. exact Hv.
  - intros i j a b Hij Ha Hb.
    pose proof (StronglySorted_take _ _ (Z.to_nat top_n)
                  (sorted_by_count_ranked stream d Hss)) as Hsorted.
    pose proof (StronglySorted_lookup _ _ i j a b Hsorted Hij Ha Hb) as Hab.
    destruct Hab as [Hlt|[Heq Hseen]].
    + split; [lia|]. intros Heq. lia.
    + split; [lia|]. intros _. exact Hseen.
Qed.

Lemma get_top_words_ranked_witness :
  let results :=
    [Result PyNone (py "aaa bbb aaa cc ddd bbb eee") fzero (py "neutral")] in
  let table := get_top_words results None 3 in
  Forall (fun kv => (2 < length kv.1)%nat) table
  /\ (Z.of_nat (length table) <= 3)%Z.
Proof.
  assert (Hn : (0 <= 3)%Z) by lia.
  destruct (get_top_words_ranked
              [Result PyNone (py "aaa bbb aaa cc ddd bbb eee") fzero (py "neutral")]
              None 3 Hn) as (Hlong & Hlen & _).
  split; [exact Hlong|exact Hlen].
Defined.

(** ** Cleaning a clean string *)

Section CleanTwice.
Context `{UnicodeData}.

(** *** Character classes *)

Lemma is_space_not_word (c : char) : is_space c = true -> is_word c = false.
Proof.
  intros Hs. unfold is_word. destruct (c <? 128)%N eqn:Hc.
  - destruct (ascii_word c) eqn:Hw; [|reflexivity]. exfalso.
    unfold is_space in Hs. unfold ascii_word in Hw.
    repeat first
      [ rewrite orb_true_iff in Hs | rewrite andb_true_iff in Hs
      | rewrite N.leb_le in Hs | rewrite N.eqb_eq in Hs
      | rewrite orb_true_iff in Hw | rewrite andb_true_iff in Hw
      | rewrite N.leb_le in Hw | rewrite N.eqb_eq in Hw ].
    lia.
  - destruct (uni_word c) eqn:Hw; [|reflexivity].
    apply uni_word_not_space in Hw. congruence.
Qed.

Lemma is_digit_word (c : char) : is_digit c = true -> is_word c = true.
Proof.
  unfold is_digit, is_word. destruct (c <? 128)%N.
  - unfold ascii_digit, ascii_word. intros ->. reflexivity.
  - apply uni_digit_word.
Qed.

Lemma is_space_not_digit (c : char) : is_space c = true -> is_digit c = false.
Proof.
  intros Hs. destruct (is_digit c) eqn:Hd; [|reflexivity].
  apply is_digit_word in Hd. apply is_space_not_word in Hs. congruence.
Qed.

Lemma not_word_not_digit (c : char) : is_word c = false -> is_digit c = false.
Proof.
  intros Hw. destruct (is_digit c) eqn:Hd; [|reflexivity].
  apply is_digit_word in Hd. congruence.
Qed.

(** *** Patterns that find nothing *)

Lemma re_sub_from_no_match (try_match : option char -> pystr -> option (nat * pystr))
  (P : char -> Prop) :
  (forall prev c s, P c -> try_match prev (c :: s) = None) ->
  forall s prev, Forall P s -> re_sub_from try_match 0 prev s = s.
Proof.
  intros Hnone s. induction s as [|c s IH]; intros prev Hs; [reflexivity|].
  apply Forall_cons in Hs as [Hc Hs]. simpl.
  rewrite (Hnone prev c s Hc). f_equal. exact (IH (Some c) Hs).
Qed.

Lemma starts_with_elem_of (pre s : pystr) (c : char) :
  starts_with pre s = true -> c ∈ pre -> c ∈ s.
Proof.
  revert s. induction pre as [|a pre IH]; intros s Hs Hc.
  - apply elem_of_nil in Hc. contradiction.
  - destruct s as [|b s]; [discriminate|]. simpl in Hs.
    apply andb_true_iff in Hs as [Hab Hs]. apply N.eqb_eq in Hab. subst b.
    apply elem_of_cons in Hc as [->|Hc]; [left|right]. apply (IH s Hs Hc).
Qed.

Lemma literal_then_nonspace_none (pre s : pystr) (c : char) :
  c ∈ pre -> ~ word_or_space c -> Forall word_or_space s ->
  literal_then_nonspace pre s = None.
Proof.
  intros Hc Hn Hs. unfold literal_then_nonspace.
  destruct (starts_with pre s) eqn:Hp; [|reflexivity]. exfalso.
  apply Hn. rewrite Forall_forall in Hs. apply Hs.
  apply (starts_with_elem_of pre s c Hp Hc).
Qed.

Lemma remove_urls_word_or_space (s : pystr) :
  Forall word_or_space s -> remove_urls s = s.
Proof.
  intros Hs. unfold remove_urls, re_sub.
  assert (Hcolon : ~ word_or_space 58%N) by (intros [Hw|Hw]; discriminate).
  assert (Hdot : ~ word_or_space 46%N) by (intros [Hw|Hw]; discriminate).
  assert (Hnone : forall prev s', Forall word_or_space s' -> match_url prev s' = None).
  { intros prev s' Hs'. unfold match_url.
    rewrite (literal_then_nonspace_none (py "https://") s' 58%N);
      [|vm_compute; repeat constructor|exact Hcolon|exact Hs'].
    rewrite (literal_then_nonspace_none (py "http://") s' 58%N);
      [|vm_compute; repeat constructor|exact Hcolon|exact Hs'].
    apply (literal_then_nonspace_none (py "www.") s' 46%N);
      [vm_compute; repeat constructor|exact Hdot|exact Hs']. }
  clear Hcolon Hdot. revert Hs. generalize (None : option char).
  induction s as [|c s IH]; intros prev Hs; [reflexivity|]. simpl.
  rewrite (Hnone prev (c :: s) Hs).
  apply Forall_cons in Hs as [_ Hs]. f_equal. exact (IH (Some c) Hs).
Qed.

Lemma remove_mentions_word_or_space (s : pystr) :
  Forall word_or_space s -> remove_mentions s = s.
Proof.
  apply re_sub_from_no_match. intros prev c s' [Hc|Hc]; simpl;
    destruct (c =? 64)%N eqn:Heq; try reflexivity;
    apply N.eqb_eq in Heq; subst c; discriminate.
Qed.

Lemma unwrap_hashtags_word_or_space (s : pystr) :
  Forall word_or_space s -> unwrap_hashtags s = s.
Proof.
  apply re_sub_from_no_match. intros prev c s' [Hc|Hc]; simpl;
    destruct (c =? 35)%N eqn:Heq; try reflexivity;
    apply N.eqb_eq in Heq; subst c; discriminate.
Qed.

Lemma remove_emojis_emoji_free (s : pystr) :
  emoji_free s -> remove_emojis s = s.
Proof.
  apply re_sub_from_no_match. intros prev c s' Hc.
  unfold match_emoji. simpl. rewrite Hc. reflexivity.
Qed.

Lemma replace_special_word_or_space (s : pystr) :
  Forall word_or_space s -> replace_special s = s.
Proof.
  apply re_sub_from_no_match. intros prev c s' Hc.
  unfold match_special, is_special.
  destruct Hc as [Hc|Hc]; rewrite Hc; rewrite ?orb_true_r; reflexivity.
Qed.

(** *** Tokens *)

(** The tokens of a text are not empty, hold no whitespace, and are
    made of characters of the text. *)
Lemma split_tokens (s : pystr) :
  Forall (fun t => t <> []
                   /\ Forall (fun c => is_space c = false) t
                   /\ forall c, c ∈ t -> c ∈ s) (split s).
Proof.
  induction s as [|sp s Hsp IH|t Hne Ht|t sp s Hne Ht Hsp IH] using tokens_ind.
  - constructor.
  - rewrite (split_space sp s Hsp). eapply Forall_impl; [exact IH|].
    intros t (H1 & H2 & H3). repeat split; try assumption.
    intros c Hc. right. apply H3. exact Hc.
  - rewrite (split_token t Hne Ht). repeat constructor; try assumption.
    intros c Hc. exact Hc.
  - rewrite (split_token_space t sp s Hne Ht Hsp). constructor.
    + repeat split; try assumption. intros c Hc. apply elem_of_app. left.
      exact Hc.
    + eapply Forall_impl; [exact IH|].
      intros t' (H1 & H2 & H3). repeat split; try assumption.
      intros c Hc. apply elem_of_app. right. right. apply H3. exact Hc.
Qed.

Lemma join_cons_cons (sep a b : pystr) (l : list pystr) :
  join sep (a :: b :: l) = a ++ sep ++ join sep (b :: l).
Proof. reflexivity. Qed.

Lemma join_not_nil (sep t : pystr) (l : list pystr) :
  t <> [] -> join sep (t :: l) <> [].
Proof.
  intros Hne. destruct l as [|b l]; [exact Hne|]. rewrite join_cons_cons.
  destruct t; [congruence|discriminate].
Qed.

Lemma split_join (ts : list pystr) :
  Forall (fun t => t <> [] /\ Forall (fun c => is_space c = false) t) ts ->
  split (join (py " ") ts) = ts.
Proof.
  induction 1 as [|t ts [Hne Ht] Hts IH]; [reflexivity|].
  destruct ts as [|t2 ts].
  - apply split_token; assumption.
  - rewrite join_cons_cons. change (py " ") with [32%N].
    change ([32%N] ++ join [32%N] (t2 :: ts)) with (32%N :: join [32%N] (t2 :: ts)).
    rewrite (split_token_space t 32%N _ Hne Ht eq_refl). f_equal. exact IH.
Qed.

Lemma join_Forall (P : char -> Prop) (ts : list pystr) :
  P 32%N -> Forall (Forall P) ts -> Forall P (join (py " ") ts).
Proof.
  intros Hsp. induction 1 as [|t ts Ht Hts IH]; [constructor|].
  destruct ts as [|t2 ts]; [exact Ht|]. rewrite join_cons_cons.
  apply Forall_app. split; [exact Ht|]. apply Forall_app. split; [|exact IH].
  repeat constructor. exact Hsp.
Qed.

Lemma lstrip_id (s : pystr) :
  (forall c, head s = Some c -> is_space c = false) -> lstrip s = s.
Proof.
  destruct s as [|c s]; [reflexivity|]. intros Hc. simpl.
  rewrite (Hc c eq_refl). reflexivity.
Qed.

Lemma strip_id (s : pystr) :
  (forall c, head s = Some c -> is_space c = false) ->
  (forall c, last s = Some c -> is_space c = false) ->
  strip s = s.
Proof.
  intros Hhead Hlast. unfold strip. rewrite (lstrip_id s Hhead).
  rewrite lstrip_id; [apply reverse_involutive|].
  intros c. rewrite head_reverse. apply Hlast.
Qed.

Lemma strip_join (ts : list pystr) :
  Forall (fun t => t <> [] /\ Forall (fun c => is_space c = false) t) ts ->
  strip (join (py " ") ts) = join (py " ") ts.
Proof.
  intros Hts. apply strip_id.
  - destruct Hts as [|t ts [Hne Ht] Hts]; [discriminate|].
    intros c Hc. rewrite Forall_forall in Ht. apply Ht.
    destruct ts as [|t2 ts].
    + apply head_Some_elem_of. exact Hc.
    + rewrite join_cons_cons in Hc. destruct t as [|c' t]; [congruence|].
      simpl in Hc. inversion Hc; subst. left.
  - induction Hts as [|t ts [Hne Ht] Hts IH]; [discriminate|].
    intros c Hc. destruct ts as [|t2 ts].
    + rewrite Forall_forall in Ht. apply Ht.
      apply last_Some_elem_of. exact Hc.
    + rewrite join_cons_cons, app_assoc, last_app in Hc.
      destruct (last (join (py " ") (t2 :: ts))) as [c'|] eqn:Hl.
      * inversion Hc; subst c'. apply IH. reflexivity.
      * apply last_None in Hl. apply Forall_cons in Hts as [[Hne2 _] _].
        exfalso. exact (join_not_nil _ _ _ Hne2 Hl).
Qed.

(** *** Standalone numbers *)

Lemma re_sub_from_cons_0 (try_match : option char -> pystr -> option (nat * pystr))
  (prev : option char) (c : char) (s : pystr) :
  re_sub_from try_match 0 prev (c :: s)
  = match try_match prev (c :: s) with
    | Some (S k, repl) => repl ++ re_sub_from try_match k (Some c) s
    | _ => c :: re_sub_from try_match 0 (Some c) s
    end.
Proof. reflexivity. Qed.

(** The characters of a match are passed over. *)
Lemma re_sub_from_skip (try_match : option char -> pystr -> option (nat * pystr))
  (a : pystr) (prev : option char) (rest : pystr) :
  exists prev',
    re_sub_from try_match (length a) prev (a ++ rest)
    = re_sub_from try_match 0 prev' rest.
Proof.
  revert prev. induction a as [|c a IH]; intros prev.
  - exists prev. reflexivity.
  - destruct (IH (Some c)) as [prev' Hp]. exists prev'. exact Hp.
Qed.

Lemma span_len_all (p : char -> bool) (t rest : pystr) :
  forallb p t = true ->
  (forall c, head rest = Some c -> p c = false) ->
  span_len p (t ++ rest) = length t.
Proof.
  intros Ht Hrest. induction t as [|c t IH].
  - destruct rest as [|c rest]; [reflexivity|]. simpl.
    rewrite (Hrest c eq_refl). reflexivity.
  - simpl in Ht. apply andb_true_iff in Ht as [Hc Ht]. simpl. rewrite Hc.
    rewrite (IH Ht). reflexivity.
Qed.

Lemma span_len_not_all (p : char -> bool) (t rest : pystr) :
  forallb p t = false -> (span_len p (t ++ rest) < length t)%nat.
Proof.
  induction t as [|c t IH]; [discriminate|]. simpl.
  destruct (p c); simpl; intros Ht; [|lia]. specialize (IH Ht). lia.
Qed.

(** Between two word characters there is no boundary to stop at. *)
Lemma backtrack_digits_word_run (t rest : pystr) (k : nat) :
  Forall (fun c => is_word c = true) t -> (k < length t)%nat ->
  backtrack_digits (t ++ rest) k = None.
Proof.
  intros Ht. induction k as [|k IH]; intros Hk; [reflexivity|].
  cbn [backtrack_digits].
  destruct (lookup_lt_is_Some_2 t k ltac:(lia)) as [a Ha].
  destruct (lookup_lt_is_Some_2 t (S k) Hk) as [b Hb].
  rewrite (lookup_app_l t rest k) by lia.
  rewrite (lookup_app_l t rest (S k)) by lia.
  rewrite Ha, Hb. rewrite Forall_lookup in Ht.
  unfold word_boundary, word_at. rewrite (Ht k a Ha), (Ht (S k) b Hb).
  cbn [xorb]. apply IH. lia.
Qed.

Lemma match_number_nonword (prev : option char) (c : char) (s : pystr) :
  is_word c = false -> match_number prev (c :: s) = None.
Proof.
  intros Hc. unfold match_number.
  destruct (word_boundary prev (head (c :: s))); [|reflexivity].
  cbn [span_len]. rewrite (not_word_not_digit c Hc). reflexivity.
Qed.

Lemma match_number_inside (prev : option char) (c : char) (s : pystr) :
  word_at prev = true -> is_word c = true -> match_number prev (c :: s) = None.
Proof.
  intros Hp Hc. unfold match_number, word_boundary. cbn [head word_at].
  rewrite Hp, Hc. reflexivity.
Qed.

Lemma match_number_mixed (prev : option char) (t rest : pystr) :
  Forall (fun c => is_word c = true) t -> is_number t = false ->
  match_number prev (t ++ rest) = None.
Proof.
  intros Ht Hn. unfold match_number.
  destruct (word_boundary prev (head (t ++ rest))); [|reflexivity].
  rewrite (backtrack_digits_word_run t rest _ Ht
             (span_len_not_all is_digit t rest Hn)).
  reflexivity.
Qed.

Lemma match_number_number (prev : option char) (t rest : pystr) :
  t <> [] -> is_number t = true ->
  word_at prev = false -> word_at (head rest) = false ->
  match_number prev (t ++ rest) = Some (length t, []).
Proof.
  intros Hne Hn Hp Hr. unfold match_number.
  assert (Hw : Forall (fun c => is_word c = true) t).
  { apply Forall_forall. intros c Hc. apply is_digit_word.
    unfold is_number in Hn. rewrite forallb_forall in Hn. apply Hn.
    apply list_elem_of_In. exact Hc. }
  assert (Hb : word_boundary prev (head (t ++ rest)) = true).
  { destruct t as [|c t]; [congruence|]. apply Forall_cons in Hw as [Hc _].
    unfold word_boundary. cbn [app head word_at]. rewrite Hp, Hc. reflexivity. }
  rewrite Hb. rewrite (span_len_all is_digit t rest Hn).
  - destruct (length t) as [|k] eqn:Hlen.
    { destruct t; [congruence|discriminate]. }
    cbn [backtrack_digits].
    destruct (lookup_lt_is_Some_2 t k ltac:(lia)) as [a Ha].
    rewrite (lookup_app_l t rest k) by lia.
    rewrite (lookup_app_r t rest (S k)) by lia.
    rewrite Ha, Hlen, Nat.sub_diag. rewrite Forall_lookup in Hw.
    unfold word_boundary. cbn [word_at]. rewrite (Hw k a Ha).
    replace (rest !! 0%nat) with (head rest) by (destruct rest; reflexivity).
    rewrite Hr. reflexivity.
  - intros c Hc. apply not_word_not_digit. rewrite Hc in Hr. exact Hr.
Qed.

(** Whitespace is kept. *)
Lemma remove_numbers_space (prev : option char) (sp : char) (s : pystr) :
  is_space sp = true ->
  re_sub_from match_number 0 prev (sp :: s)
  = sp :: re_sub_from match_number 0 (Some sp) s.
Proof.
  intros Hsp. rewrite re_sub_from_cons_0.
  rewrite (match_number_nonword prev sp s (is_space_not_word sp Hsp)).
  reflexivity.
Qed.

(** Inside a word everything is kept. *)
Lemma remove_numbers_word_run (t : pystr) (prev : option char) (rest : pystr) :
  word_at prev = true -> Forall (fun c => is_word c = true) t ->
  exists prev',
    re_sub_from match_number 0 prev (t ++ rest)
    = t ++ re_sub_from match_number 0 prev' rest.
Proof.
  revert prev. induction t as [|c t IH]; intros prev Hp Ht.
  - exists prev. reflexivity.
  - apply Forall_cons in Ht as [Hc Ht].
    destruct (IH (Some c) Hc Ht) as [prev' Hrun]. exists prev'.
    cbn [app]. rewrite re_sub_from_cons_0.
    rewrite (match_number_inside prev c (t ++ rest) Hp Hc).
    rewrite Hrun. reflexivity.
Qed.

(** A token goes when it is a number and stays otherwise. *)
Lemma remove_numbers_token (t : pystr) (prev : option char) (rest : pystr) :
  t <> [] -> Forall (fun c => is_word c = true) t ->
  word_at prev = false -> word_at (head rest) = false ->
  exists prev',
    re_sub_from match_number 0 prev (t ++ rest)
    = (if is_number t then [] else t) ++ re_sub_from match_number 0 prev' rest.
Proof.
  intros Hne Ht Hp Hr. destruct (is_number t) eqn:Hn.
  - pose proof (match_number_number prev t rest Hne Hn Hp Hr) as Hm.
    destruct t as [|c t]; [congruence|].
    destruct (re_sub_from_skip match_number t (Some c) rest) as [prev' Hskip].
    exists prev'. cbn [app] in *. rewrite re_sub_from_cons_0, Hm.
    cbn [length app]. exact Hskip.
  - pose proof (match_number_mixed prev t rest Ht Hn) as Hm.
    destruct t as [|c t]; [congruence|].
    apply Forall_cons in Ht as [Hc Ht].
    destruct (remove_numbers_word_run t (Some c) rest Hc Ht) as [prev' Hrun].
    exists prev'. cbn [app] in *. rewrite re_sub_from_cons_0, Hm, Hrun.
    reflexivity.
Qed.

Lemma kept_tokens_cons (t : pystr) (ts : list pystr) :
  filter (fun t => is_number t = false) (t :: ts)
  = (if is_number t then [] else [t])
    ++ filter (fun t => is_number t = false) ts.
Proof.
  rewrite filter_cons. destruct (is_number t); case_decide;
    try congruence; reflexivity.
Qed.

(** After [remove_numbers] the tokens are those that are no numbers. *)
Lemma split_remove_numbers (s : pystr) :
  Forall word_or_space s ->
  forall prev, word_at prev = false ->
    split (re_sub_from match_number 0 prev s) = kept_tokens s.
Proof.
  unfold kept_tokens.
  induction s as [|sp s Hsp IH|t Hne Ht|t sp s Hne Ht Hsp IH] using tokens_ind;
    intros Hs prev Hp.
  - reflexivity.
  - apply Forall_cons in Hs as [_ Hs].
    rewrite (remove_numbers_space prev sp s Hsp), !(split_space sp _ Hsp).
    apply (IH Hs). apply (is_space_not_word sp Hsp).
  - assert (Hw : Forall (fun c => is_word c = true) t).
    { rewrite Forall_forall in Hs, Ht. apply Forall_forall. intros c Hc.
      destruct (Hs c Hc) as [Hw|Hw]; [exact Hw|].
      rewrite (Ht c Hc) in Hw. discriminate. }
    destruct (remove_numbers_token t prev [] Hne Hw Hp eq_refl) as [prev' Hrun].
    rewrite app_nil_r in Hrun. rewrite Hrun, app_nil_r.
    rewrite (split_token t Hne Ht), kept_tokens_cons, filter_nil, app_nil_r.
    destruct (is_number t); [reflexivity|]. apply split_token; assumption.
  - apply Forall_app in Hs as [Hst Hs]. apply Forall_cons in Hs as [_ Hs].
    assert (Hw : Forall (fun c => is_word c = true) t).
    { rewrite Forall_forall in Hst, Ht. apply Forall_forall. intros c Hc.
      destruct (Hst c Hc) as [Hw|Hw]; [exact Hw|].
      rewrite (Ht c Hc) in Hw. discriminate. }
    pose proof (is_space_not_word sp Hsp) as Hspw.
    destruct (remove_numbers_token t prev (sp :: s) Hne Hw Hp Hspw)
      as [prev' Hrun].
    rewrite Hrun, (remove_numbers_space prev' sp s Hsp).
    rewrite (split_token_space t sp s Hne Ht Hsp), kept_tokens_cons.
    destruct (is_number t).
    + cbn [app]. rewrite (split_space sp _ Hsp). apply (IH Hs). exact Hspw.
    + rewrite (split_token_space t sp _ Hne Ht Hsp). cbn [app]. f_equal.
      apply (IH Hs). exact Hspw.
Qed.

(** *** The pipeline on a plain text *)

Lemma lower_plain (s : pystr) :
  Forall (fun c => lower_char c = c) s -> lower s = s.
Proof.
  unfold lower. induction 1 as [|c s Hc _ IH]; [reflexivity|].
  rewrite fmap_cons, Hc, IH. reflexivity.
Qed.

Lemma lower_fixed (s : pystr) :
  lower s = s -> Forall (fun c => lower_char c = c) s.
Proof.
  unfold lower. induction s as [|c s IH]; [constructor|].
  rewrite fmap_cons. intros Heq. injection Heq as Hc Hs.
  constructor; [exact Hc|]. apply IH. exact Hs.
Qed.

Lemma fmap_fixed {A} (f : A -> A) (l : list A) :
  Forall (fun a => f a = a) l -> f <$> l = l.
Proof.
  induction 1 as [|a l Ha _ IH]; [reflexivity|].
  rewrite fmap_cons, Ha, IH. reflexivity.
Qed.

Lemma filter_kept {A} (P : A -> Prop) `{forall a, Decision (P a)} (l : list A) :
  filter P (filter P l) = filter P l.
Proof.
  induction l as [|a l IH]; [reflexivity|]. rewrite filter_cons.
  case_decide as Ha; [|exact IH].
  rewrite filter_cons, decide_True by exact Ha. rewrite IH. reflexivity.
Qed.

Lemma plain_char_space : plain_char 32%N.
Proof. repeat split. right. reflexivity. Qed.

Lemma clean_text_nonempty (s : pystr) (normalize : bool) :
  s <> [] -> clean_text (PyStr s) normalize = clean_str s normalize.
Proof. destruct s; [congruence|reflexivity]. Qed.

(** The tokens kept are tokens of the text. *)
Lemma kept_tokens_tokens (s : pystr) :
  Forall (fun t => t <> []
                   /\ Forall (fun c => is_space c = false) t
                   /\ (forall c, c ∈ t -> c ∈ s)
                   /\ t ∈ split s) (kept_tokens s).
Proof.
  unfold kept_tokens. apply Forall_forall. intros t Ht.
  apply list_elem_of_filter in Ht as [_ Ht].
  pose proof (split_tokens s) as Hall. rewrite Forall_forall in Hall.
  destruct (Hall t Ht) as (H1 & H2 & H3). repeat split; assumption.
Qed.

(** On a plain text without slang, [clean_text] drops the standalone
    numbers and joins the other tokens with single spaces. *)
Lemma clean_text_plain (s : pystr) (normalize : bool) :
  Forall plain_char s ->
  Forall (fun t => SLANG_DICT !! t = None) (split s) ->
  clean_text (PyStr s) normalize = join (py " ") (kept_tokens s).
Proof.
  intros Hs Hslang.
  assert (Hws : Forall word_or_space s).
  { eapply Forall_impl; [exact Hs|]. intros c (Hc & _). exact Hc. }
  assert (Hlow : Forall (fun c => lower_char c = c) s).
  { eapply Forall_impl; [exact Hs|]. intros c (_ & Hc & _). exact Hc. }
  assert (Hemo : emoji_free s).
  { eapply Forall_impl; [exact Hs|]. intros c (_ & _ & Hc). exact Hc. }
  destruct (decide (s = [])) as [->|Hne]; [reflexivity|].
  rewrite (clean_text_nonempty s normalize Hne). unfold clean_str.
  rewrite (lower_plain s Hlow), (remove_urls_word_or_space s Hws),
    (remove_mentions_word_or_space s Hws), (unwrap_hashtags_word_or_space s Hws),
    (remove_emojis_emoji_free s Hemo), (replace_special_word_or_space s Hws).
  pose proof (split_remove_numbers s Hws None eq_refl) as Hsplit.
  fold (re_sub match_number s) in Hsplit. fold (remove_numbers s) in Hsplit.
  pose proof (kept_tokens_tokens s) as Hkept.
  assert (Hgood : Forall (fun t => t <> []
                                   /\ Forall (fun c => is_space c = false) t)
                         (kept_tokens s)).
  { eapply Forall_impl; [exact Hkept|]. intros t (H1 & H2 & _). auto. }
  assert (Hnorm : normalize_slang (remove_numbers s) = join (py " ") (kept_tokens s)).
  { unfold normalize_slang. rewrite Hsplit. f_equal. apply fmap_fixed.
    eapply Forall_impl; [exact Hkept|]. intros t (_ & _ & Hin & Ht).
    unfold normalize_word.
    assert (Hlt : lower t = t).
    { apply lower_plain. apply Forall_forall. intros c Hc.
      rewrite Forall_forall in Hlow. apply Hlow. apply Hin. exact Hc. }
    rewrite Hlt. rewrite Forall_forall in Hslang. rewrite (Hslang t Ht).
    reflexivity. }
  assert (Hjoin : remove_extra_whitespace (join (py " ") (kept_tokens s))
                  = join (py " ") (kept_tokens s)).
  { unfold remove_extra_whitespace. rewrite (split_join _ Hgood). reflexivity. }
  destruct normalize.
  - rewrite Hnorm, Hjoin. apply strip_join. exact Hgood.
  - unfold remove_extra_whitespace at 1. rewrite Hsplit.
    apply strip_join. exact Hgood.
Qed.

(** What [clean_text] returns for a plain text is plain again, and has
    the kept tokens as its tokens. *)
Lemma join_kept_tokens_plain (s : pystr) :
  Forall plain_char s ->
  Forall plain_char (join (py " ") (kept_tokens s))
  /\ split (join (py " ") (kept_tokens s)) = kept_tokens s.
Proof.
  intros Hs. pose proof (kept_tokens_tokens s) as Hkept. split.
  - apply join_Forall; [exact plain_char_space|].
    eapply Forall_impl; [exact Hkept|]. intros t (_ & _ & Hin & _).
    apply Forall_forall. intros c Hc. rewrite Forall_forall in Hs.
    apply Hs. apply Hin. exact Hc.
  - apply split_join. eapply Forall_impl; [exact Hkept|].
    intros t (H1 & H2 & _). auto.
Qed.

Lemma clean_text_plain_twice (s : pystr) (normalize : bool) :
  Forall plain_char s ->
  Forall (fun t => SLANG_DICT !! t = None) (split s) ->
  clean_text (PyStr (clean_text (PyStr s) normalize)) normalize
  = clean_text (PyStr s) normalize.
Proof.
  intros Hs Hslang. rewrite (clean_text_plain s normalize Hs Hslang).
  destruct (join_kept_tokens_plain s Hs) as [Hplain Hsplit].
  rewrite clean_text_plain; [|exact Hplain|].
  - unfold kept_tokens at 1. rewrite Hsplit. unfold kept_tokens.
    rewrite filter_kept. reflexivity.
  - rewrite Hsplit. pose proof (kept_tokens_tokens s) as Hkept.
    eapply Forall_impl; [exact Hkept|]. intros t (_ & _ & _ & Ht).
    rewrite Forall_forall in Hslang. apply Hslang. exact Ht.
Qed.

End CleanTwice.

(** C9, as stated, fails: the string [bt日w] (with U+65E5, a letter) is
    in lower case and holds no punctuation, URL, mention or slang token.
    [remove_emojis] deletes the ideograph, whose code point lies in the
    range U+24C2..U+1F251 of its character class, the slang table then
    turns [btw] into [ngomong-ngomong], and a second cleaning replaces
    the hyphen by a space. *)
Lemma clean_text_not_idempotent :
  let x := py "bt" ++ [0x65E5%N] ++ py "w" in
  already_clean x
  /\ clean_text (PyStr x) true = py "ngomong-ngomong"
  /\ clean_text (PyStr (clean_text (PyStr x) true)) true = py "ngomong ngomong"
  /\ clean_text (PyStr (clean_text (PyStr x) true)) true
     <> clean_text (PyStr x) true.
Proof.
  cbv zeta. split; [|split; [|split]].
  - unfold already_clean. split; [vm_compute; reflexivity|].
    split; [repeat (constructor; [left; vm_compute; reflexivity|]); constructor|].
    split; [vm_compute; reflexivity|]. split; [vm_compute; reflexivity|].
    replace (split (py "bt" ++ [0x65E5%N] ++ py "w"))
      with [py "bt" ++ [0x65E5%N] ++ py "w"] by (vm_compute; reflexivity).
    constructor; [vm_compute; reflexivity|constructor].
  - vm_compute. reflexivity.
  - vm_compute. reflexivity.
  - intros Heq. vm_compute in Heq. discriminate.
Qed.

(** C9 (amended): for every string that is already clean (lower case,
    made of word characters and whitespace only, which leaves no
    punctuation, no other symbol or control character, and with them no
    URL and no mention, and with no token listed in the slang table) and
    that holds no character from the ranges that [remove_emojis] deletes,
    cleaning is idempotent: [clean(clean(x)) = clean(x)], with slang
    normalization on or off. *)
Theorem clean_text_idempotent `{UnicodeData} (x : pystr) (normalize : bool) :
  already_clean x ->
  emoji_free x ->
  clean_text (PyStr (clean_text (PyStr x) normalize)) normalize
  = clean_text (PyStr x) normalize.
Proof.
  intros (Hlower & Hws & _ & _ & Hslang) Hemoji.
  apply clean_text_plain_twice; [|exact Hslang].
  pose proof (lower_fixed x Hlower) as Hlow. unfold emoji_free in Hemoji.
  rewrite Forall_forall in Hws, Hlow, Hemoji. apply Forall_forall.
  intros c Hc. repeat split; auto.
Qed.

Lemma clean_text_idempotent_witness :
  clean_text (PyStr (clean_text (PyStr (py "bagus  banget 10 kali")) true)) true
  = clean_text (PyStr (py "bagus  banget 10 kali")) true.
Proof.
  apply clean_text_idempotent.
  - unfold already_clean. split; [vm_compute; reflexivity|].
    split.
    { apply Forall_forall. intros c Hc. unfold word_or_space.
      apply list_elem_of_In in Hc. vm_compute in Hc.
      repeat (destruct Hc as [<-|Hc];
              [first [left; vm_compute; reflexivity
                     |right; vm_compute; reflexivity]|]).
      contradiction. }
    split; [vm_compute; reflexivity|]. split; [vm_compute; reflexivity|].
    replace (split (py "bagus  banget 10 kali"))
      with [py "bagus"; py "banget"; py "10"; py "kali"]
      by (vm_compute; reflexivity).
    repeat (constructor; [vm_compute; reflexivity|]). constructor.
  - apply Forall_forall. intros c Hc.
    apply list_elem_of_In in Hc. vm_compute in Hc.
    repeat (destruct Hc as [<-|Hc]; [vm_compute; reflexivity|]).
    contradiction.
Defined.

(** * Further properties *)

(** ** The lexicon cache *)

(** X1: once [load_lexicon] has returned a lexicon, every later call
    returns that same lexicon from the cache and changes nothing,
    whatever has become of the file in the meantime. *)
Theorem load_lexicon_cache_hit (w w' : world) (lex : lexicon) (file' : lexicon_file) :
  load_lexicon w = (Returns lex, w') ->
  load_lexicon (World file' (cached_lexicon w'))
  = (Returns lex, World file' (cached_lexicon w')).
Proof.
  intros Hload. apply load_lexicon_cached.
  exact (load_lexicon_caches w w' lex Hload).
Qed.

Lemma load_lexicon_cache_hit_witness :
  load_lexicon (World FileMalformed (Some sample_lexicon))
  = (Returns sample_lexicon, World FileMalformed (Some sample_lexicon)).
Proof.
  apply (load_lexicon_cache_hit sample_world
           (World (FileJson sample_lexicon) (Some sample_lexicon))
           sample_lexicon FileMalformed).
  reflexivity.
Defined.

(** ** Texts without sentiment words *)

Lemma is_finite_zero_or_finite (x : float) :
  is_finite x = true -> zero_or_finite x = true.
Proof. destruct x; try discriminate; reflexivity. Qed.

(** Without a weight the score of a word is a zero, or a NaN when a
    modifier is an infinity or a NaN. *)
Lemma word_score_no_weight (lex : lexicon) (prev_word prev_prev_word word : pystr) :
  lexicon_get lex "positif" !! word = None ->
  lexicon_get lex "negatif" !! word = None ->
  zero_or_nan (word_score lex prev_word prev_prev_word word) = true.
Proof.
  intros Hp Hn. unfold word_score, base_weight. rewrite Hp, Hn.
  destruct (lexicon_get lex "negator" !! prev_word);
    destruct (lexicon_get lex "intensifier" !! prev_word);
    destruct (lexicon_get lex "intensifier" !! prev_prev_word);
    repeat apply fmul_zero_or_nan; reflexivity.
Qed.

Lemma word_score_no_weight_finite (lex : lexicon)
  (prev_word prev_prev_word word : pystr) :
  finite_modifiers lex ->
  lexicon_get lex "positif" !! word = None ->
  lexicon_get lex "negatif" !! word = None ->
  is_zero (word_score lex prev_word prev_prev_word word) = true.
Proof.
  intros Hfin Hp Hn. unfold word_score, base_weight. rewrite Hp, Hn.
  destruct (lexicon_get lex "negator" !! prev_word) as [a|] eqn:Ha;
    destruct (lexicon_get lex "intensifier" !! prev_word) as [b|] eqn:Hb;
    destruct (lexicon_get lex "intensifier" !! prev_prev_word) as [c|] eqn:Hc;
    repeat first
      [ reflexivity
      | apply fmul_is_zero
      | apply fmul_half_finite
      | apply is_finite_zero_or_finite
      | exact (Hfin "negator"%string _ _ (or_introl eq_refl) Ha)
      | exact (Hfin "intensifier"%string _ _ (or_intror eq_refl) Hb)
      | exact (Hfin "intensifier"%string _ _ (or_intror eq_refl) Hc) ].
Qed.

Lemma loop_no_weight (lex : lexicon) (words : list pystr) (st : loop_state) :
  Forall (fun word => lexicon_get lex "positif" !! word = None
                      /\ lexicon_get lex "negatif" !! word = None) words ->
  score st = fzero \/ score st = S754_nan ->
  score (fold_left (loop_body lex) words st) = fzero
  \/ score (fold_left (loop_body lex) words st) = S754_nan.
Proof.
  intros Hwords. revert st.
  induction Hwords as [|word words [Hp Hn] _ IH]; intros st Hst; [exact Hst|].
  cbn [fold_left]. apply IH. cbn [loop_body score].
  apply fadd_zero_or_nan; [exact Hst|].
  apply word_score_no_weight; assumption.
Qed.

Lemma loop_no_weight_finite (lex : lexicon) (words : list pystr) (st : loop_state) :
  finite_modifiers lex ->
  Forall (fun word => lexicon_get lex "positif" !! word = None
                      /\ lexicon_get lex "negatif" !! word = None) words ->
  score st = fzero ->
  score (fold_left (loop_body lex) words st) = fzero.
Proof.
  intros Hfin Hwords. revert st.
  induction Hwords as [|word words [Hp Hn] _ IH]; intros st Hst; [exact Hst|].
  cbn [fold_left]. apply IH. cbn [loop_body score]. rewrite Hst.
  apply fadd_pos_zero. apply word_score_no_weight_finite; assumption.
Qed.

(** X2: a text none of whose tokens is listed as a positive or a
    negative term is labelled 'neutral', whatever negators and
    intensifiers it holds; and it scores exactly 0.0 when the values of
    the negators and intensifiers are finite floats (an infinity or a NaN
    among them can turn the score into a NaN, which is still labelled
    'neutral'). *)
Theorem score_without_sentiment_words `{UnicodeData} (lex : lexicon) (text : py_value) :
  Forall (fun word => lexicon_get lex "positif" !! word = None
                      /\ lexicon_get lex "negatif" !! word = None)
         (tokenize (clean_text text true)) ->
  classify_sentiment (score_with lex text) POSITIVE_THRESHOLD NEGATIVE_THRESHOLD
  = py "neutral"
  /\ (finite_modifiers lex -> score_with lex text = fzero).
Proof.
  intros Hwords. unfold score_with. cbv zeta.
  destruct (tokenize (clean_text text true)) as [|word words] eqn:Hw;
    [split; reflexivity|].
  split.
  - destruct (loop_no_weight lex (word :: words) (LoopState fzero [] []) Hwords
                (or_introl eq_refl)) as [-> | ->].
    + rewrite fzero_normalized. reflexivity.
    + rewrite fdiv_nan_l. reflexivity.
  - intros Hfin.
    rewrite (loop_no_weight_finite lex (word :: words) (LoopState fzero [] [])
               Hfin Hwords eq_refl).
    apply fzero_normalized.
Qed.

Lemma sample_lexicon_finite : finite_modifiers sample_lexicon.
Proof.
  intros name word v [-> | ->] Hv.
  - replace (lexicon_get sample_lexicon "negator")
      with (words_of [("tidak"%string, float_of_int (-1))]) in Hv
      by (vm_compute; reflexivity).
    apply elem_of_list_to_map_2 in Hv. apply list_elem_of_In in Hv.
    destruct Hv as [Hv|[]]. inversion Hv. reflexivity.
  - replace (lexicon_get sample_lexicon "intensifier")
      with (words_of [("banget"%string, float_of_decimal 15 1);
                      ("parah"%string, float_of_decimal 15 1)]) in Hv
      by (vm_compute; reflexivity).
    apply elem_of_list_to_map_2 in Hv. apply list_elem_of_In in Hv.
    destruct Hv as [Hv|[Hv|[]]]; inversion Hv; reflexivity.
Qed.

Lemma score_without_sentiment_words_witness :
  classify_sentiment (score_with sample_lexicon (PyStr (py "gak banget sih")))
    POSITIVE_THRESHOLD NEGATIVE_THRESHOLD
  = py "neutral"
  /\ score_with sample_lexicon (PyStr (py "gak banget sih")) = fzero.
Proof.
  assert (Hwords :
    Forall (fun word => lexicon_get sample_lexicon "positif" !! word = None
                        /\ lexicon_get sample_lexicon "negatif" !! word = None)
           (tokenize (clean_text (PyStr (py "gak banget sih")) true))).
  { replace (tokenize (clean_text (PyStr (py "gak banget sih")) true))
      with [py "tidak"; py "banget"; py "sih"] by (vm_compute; reflexivity).
    repeat (constructor; [split; vm_compute; reflexivity|]). constructor. }
  destruct (score_without_sentiment_words sample_lexicon
              (PyStr (py "gak banget sih")) Hwords) as [Hlabel Hscore].
  split; [exact Hlabel|exact (Hscore sample_lexicon_finite)].
Defined.

(** ** The order of the labels *)

Lemma label_rank_values :
  label_rank (py "positive") = 2%nat
  /\ label_rank (py "negative") = 0%nat
  /\ label_rank (py "neutral") = 1%nat.
Proof. repeat split. Qed.

(** X3: [classify_sentiment] is monotone, for any thresholds: a score
    that is not smaller never gets a lower label (negative below neutral
    below positive). *)
Theorem classify_sentiment_monotone (s1 s2 pos neg : float) :
  fle s1 s2 = true ->
  (label_rank (classify_sentiment s1 pos neg)
   <= label_rank (classify_sentiment s2 pos neg))%nat.
Proof.
  intros Hle. destruct label_rank_values as (Hp & Hn & Hu).
  unfold classify_sentiment.
  destruct (flt pos s1) eqn:H1; destruct (flt pos s2) eqn:H2;
    destruct (flt s1 neg) eqn:H3; destruct (flt s2 neg) eqn:H4;
    rewrite ?Hp, ?Hn, ?Hu; try lia; exfalso;
    first [ rewrite (flt_fle_trans pos s1 s2 H1 Hle) in H2; discriminate
          | rewrite (fle_flt_trans s1 s2 neg Hle H4) in H3; discriminate ].
Qed.

Lemma classify_sentiment_monotone_witness :
  (label_rank (classify_sentiment (float_of_decimal (-5) 1)
                 POSITIVE_THRESHOLD NEGATIVE_THRESHOLD)
   <= label_rank (classify_sentiment half POSITIVE_THRESHOLD NEGATIVE_THRESHOLD))%nat.
Proof.
  apply classify_sentiment_monotone. vm_compute. reflexivity.
Defined.

(** ** Analysis and summary together *)





(** ** Word frequencies *)

Lemma count_texts_count_words (texts : list pystr) (d : list (pystr * Z)) :
  fold_left (fun d text => count_words d (tokenize text)) texts d
  = count_words d (concat (tokenize <$> texts)).
Proof.
  revert d. induction texts as [|text texts IH]; intros d; [reflexivity|].
  rewrite fmap_cons. cbn [fold_left concat]. rewrite count_words_app, IH.
  reflexivity.
Qed.

Lemma sorted_by_count_NoDup (d : list (pystr * Z)) :
  NoDup d.*1 -> NoDup (sorted_by_count d).*1.
Proof. intros Hnd. rewrite sorted_by_count_perm. exact Hnd. Qed.

(** X5: [get_word_frequencies] lists exactly the distinct tokens longer
    than two characters of the texts, each once and with the number of
    its occurrences, the larger counts first and, among equal counts,
    the word that appears first in the texts. *)
Theorem get_word_frequencies_ranking (texts : list pystr) :
  let table := get_word_frequencies texts in
  let stream := concat (tokenize <$> texts) in
  NoDup table.*1
  /\ (forall word,
        word ∈ table.*1 <-> word ∈ stream /\ (2 < length word)%nat)
  /\ Forall (fun kv => kv.2 = occurrences kv.1 stream) table
  /\ forall i j a b,
       (i < j)%nat -> table !! i = Some a -> table !! j = Some b ->
       (b.2 <= a.2)%Z
       /\ (a.2 = b.2 ->
           exists ia ib,
             first_index a.1 stream = Some ia
             /\ first_index b.1 stream = Some ib
             /\ (ia < ib)%nat).
Proof.
  intros table stream. subst table. unfold get_word_frequencies. cbv zeta.
  rewrite count_texts_count_words. fold stream.
  pose proof (count_words_counted stream [] [] counted_nil) as Hc.
  rewrite app_nil_l in Hc. destruct Hc as (Hnd & Hss & Hall & Hcov & Hin).
  set (d := count_words [] stream) in *.
  rewrite (dict_of_items_NoDup _ (sorted_by_count_NoDup d Hnd)).
  split; [exact (sorted_by_count_NoDup d Hnd)|]. split; [|split].
  - intros word. rewrite sorted_by_count_perm. split.
    + intros Hw. split; [apply Hin; exact Hw|].
      apply list_elem_of_fmap in Hw as (kv & -> & Hkv).
      rewrite Forall_forall in Hall. apply (Hall kv Hkv).
    + intros [Hw Hl]. apply Hcov; assumption.
  - rewrite sorted_by_count_perm. eapply Forall_impl; [exact Hall|].
    intros kv [_ Hv]. exact Hv.
  - intros i j a b Hij Ha Hb.
    pose proof (StronglySorted_lookup _ _ i j a b
                  (sorted_by_count_ranked stream d Hss) Hij Ha Hb) as Hab.
    destruct Hab as [Hlt|[Heq Hseen]].
    + split; [lia|]. intros Heq. lia.
    + split; [lia|]. intros _. exact Hseen.
Qed.

Lemma word_frequencies_cleaned_texts (results : list AnalysisResult) :
  word_frequencies results None
  = fold_left (fun d text => count_words d (tokenize text))
      (cleaned_text <$> results) [].
Proof.
  unfold word_frequencies. generalize ([] : list (pystr * Z)).
  induction results as [|r results IH]; intros d; [reflexivity|].
  rewrite fmap_cons. cbn [fold_left skipped]. apply IH.
Qed.

(** X6: without a label filter and for a [top_n] that is not negative,
    the table of [get_top_words] is the front of what
    [get_word_frequencies] returns for the cleaned texts of the results:
    the two rankings agree. *)
Theorem get_top_words_get_word_frequencies (results : list AnalysisResult) (top_n : Z) :
  (0 <= top_n)%Z ->
  get_top_words results None top_n
  = take (Z.to_nat top_n) (get_word_frequencies (cleaned_text <$> results)).
Proof.
  intros Hn. rewrite (get_top_words_take results None top_n Hn).
  unfold get_word_frequencies. cbv zeta.
  rewrite <- word_frequencies_cleaned_texts.
  destruct (word_frequencies_counted results None) as (Hnd & _).
  rewrite (dict_of_items_NoDup _ (sorted_by_count_NoDup _ Hnd)). reflexivity.
Qed.

Lemma get_top_words_get_word_frequencies_witness :
  get_top_words [Result PyNone (py "aaa bbb aaa") fzero (py "neutral")] None 1
  = take 1 (get_word_frequencies [py "aaa bbb aaa"]).
Proof.
  apply (get_top_words_get_word_frequencies
           [Result PyNone (py "aaa bbb aaa") fzero (py "neutral")] 1).
  lia.
Defined.

Lemma get_top_words_slice (results : list AnalysisResult)
  (sentiment : option pystr) (top_n : Z) :
  get_top_words results sentiment top_n
  = slice_to (sorted_by_count (word_frequencies results sentiment)) top_n.
Proof.
  unfold get_top_words. cbv zeta. apply dict_of_items_NoDup.
  destruct (word_frequencies_counted results sentiment) as (Hnd & _).
  unfold slice_to. destruct (0 <=? top_n)%Z; rewrite fmap_take;
    (eapply sublist_NoDup; [|apply sublist_take]);
    apply sorted_by_count_NoDup; exact Hnd.
Qed.

(** X7: the size of the table.  For a [top_n] that is not negative it is
    the smaller of [top_n] and the number of distinct words counted, so
    [top_n = 0] gives the empty table and a large [top_n] gives every
    word; for a negative [top_n] the slice drops that many entries from
    the end of the ranking instead. *)
Theorem get_top_words_length (results : list AnalysisResult)
  (sentiment : option pystr) (top_n : Z) :
  let distinct := Z.of_nat (length (word_frequencies results sentiment)) in
  Z.of_nat (length (get_top_words results sentiment top_n))
  = if (0 <=? top_n)%Z then Z.min top_n distinct
    else Z.max 0 (distinct + top_n).
Proof.
  intros distinct. subst distinct. rewrite get_top_words_slice. unfold slice_to.
  assert (Hlen : length (sorted_by_count (word_frequencies results sentiment))
                 = length (word_frequencies results sentiment))
    by (rewrite sorted_by_count_perm; reflexivity).
  destruct (0 <=? top_n)%Z eqn:Hn; rewrite length_take, Hlen.
  - apply Z.leb_le in Hn. lia.
  - apply Z.leb_gt in Hn. lia.
Qed.

(** ** The steps of the cleaning pipeline *)

Section Steps.
Context `{UnicodeData}.

(** A substitution by nothing only deletes. *)
Lemma re_sub_from_sublist (try_match : option char -> pystr -> option (nat * pystr)) :
  (forall prev s k repl, try_match prev s = Some (k, repl) -> repl = []) ->
  forall s k prev, re_sub_from try_match k prev s `sublist_of` s.
Proof.
  intros Hrepl s. induction s as [|c s IH]; intros k prev; [constructor|].
  destruct k as [|k]; [|apply sublist_cons, IH].
  rewrite re_sub_from_cons_0.
  destruct (try_match prev (c :: s)) as [[[|k] repl]|] eqn:Hm.
  - apply sublist_skip, IH.
  - rewrite (Hrepl _ _ _ _ Hm). apply sublist_cons, IH.
  - apply sublist_skip, IH.
Qed.

Lemma literal_then_nonspace_repl (pre s : pystr) (k : nat) (repl : pystr) :
  literal_then_nonspace pre s = Some (k, repl) -> repl = [].
Proof.
  unfold literal_then_nonspace. destruct (starts_with pre s); [|discriminate].
  destruct (span_len non_space (drop (length pre) s)); [discriminate|].
  intros [= _ <-]. reflexivity.
Qed.

(** X8: the steps of [utils.py] that remove something only delete
    characters: the results of [remove_urls], [remove_mentions],
    [remove_hashtags], [remove_emojis] and [remove_numbers] are
    subsequences of the input, so nothing is added, changed or
    reordered. *)
Theorem removals_only_delete (text : pystr) :
  remove_urls text `sublist_of` text
  /\ remove_mentions text `sublist_of` text
  /\ remove_hashtags text `sublist_of` text
  /\ remove_emojis text `sublist_of` text
  /\ remove_numbers text `sublist_of` text.
Proof.
  repeat split; apply re_sub_from_sublist; intros prev s k repl.
  - unfold match_url.
    destruct (literal_then_nonspace (py "https://") s) as [[k1 r1]|] eqn:H1.
    { intros [= <- <-]. exact (literal_then_nonspace_repl _ _ _ _ H1). }
    destruct (literal_then_nonspace (py "http://") s) as [[k2 r2]|] eqn:H2.
    { intros [= <- <-]. exact (literal_then_nonspace_repl _ _ _ _ H2). }
    apply literal_then_nonspace_repl.
  - unfold match_mention. destruct s as [|c rest]; [discriminate|].
    destruct (c =? 64)%N; [|discriminate].
    destruct (span_len is_word rest); [discriminate|].
    intros [= _ <-]. reflexivity.
  - unfold match_hashtag_word. destruct s as [|c rest]; [discriminate|].
    destruct (c =? 35)%N; [|discriminate].
    destruct (span_len is_word rest); [discriminate|].
    intros [= _ <-]. reflexivity.
  - unfold match_emoji. destruct (span_len is_emoji s); [discriminate|].
    intros [= _ <-]. reflexivity.
  - unfold match_number. destruct (word_boundary prev (head s)); [|discriminate].
    destruct (backtrack_digits s (span_len is_digit s)); [|discriminate].
    intros [= _ <-]. reflexivity.
Qed.

(** *** Emojis *)

Lemma remove_emojis_from (s : pystr) (k : nat) (prev : option char) :
  (k <= span_len is_emoji s)%nat ->
  re_sub_from match_emoji k prev s = filter (fun c => is_emoji c = false) s.
Proof.
  revert k prev. induction s as [|c s IH]; intros k prev Hk; [reflexivity|].
  cbn [span_len] in Hk. rewrite filter_cons.
  destruct k as [|k].
  - rewrite re_sub_from_cons_0. unfold match_emoji. cbn [span_len].
    destruct (is_emoji c) eqn:Hc.
    + rewrite decide_False by congruence. cbn [app]. apply IH. lia.
    + rewrite decide_True by reflexivity. f_equal. apply IH. lia.
  - destruct (is_emoji c) eqn:Hc; [|lia].
    rewrite decide_False by congruence. cbn [re_sub_from]. apply IH. lia.
Qed.

Lemma remove_emojis_as_filter (text : pystr) :
  remove_emojis text = filter (fun c => is_emoji c = false) text.
Proof. unfold remove_emojis, re_sub. apply remove_emojis_from. lia. Qed.

(** X9: [remove_emojis] deletes exactly the characters of its ranges and
    keeps every other character, in order. *)
Theorem remove_emojis_filter (text : pystr) :
  remove_emojis text = filter (fun c => is_emoji c = false) text.
Proof. exact (remove_emojis_as_filter text). Qed.

(** *** Numbers *)

Lemma backtrack_digits_le (s : pystr) (n k : nat) :
  backtrack_digits s n = Some k -> (1 <= k <= n)%nat.
Proof.
  induction n as [|n IH]; [discriminate|]. cbn [backtrack_digits].
  destruct (word_boundary (s !! n) (s !! S n)).
  - intros [= <-]. lia.
  - intros Hk. specialize (IH Hk). lia.
Qed.

Lemma remove_numbers_from (s : pystr) (k : nat) (prev : option char) :
  (k <= span_len is_digit s)%nat ->
  filter (fun c => is_digit c = false) (re_sub_from match_number k prev s)
  = filter (fun c => is_digit c = false) s.
Proof.
  revert k prev. induction s as [|c s IH]; intros k prev Hk; [reflexivity|].
  cbn [span_len] in Hk. destruct k as [|k].
  - rewrite re_sub_from_cons_0. unfold match_number.
    destruct (word_boundary prev (head (c :: s))).
    + destruct (backtrack_digits (c :: s) (span_len is_digit (c :: s)))
        as [k|] eqn:Hb.
      * apply backtrack_digits_le in Hb. cbn [span_len] in Hb.
        destruct k as [|k]; [lia|]. cbn [app].
        destruct (is_digit c) eqn:Hc; [|lia].
        rewrite (filter_cons _ c), decide_False by congruence.
        apply IH. lia.
      * rewrite !filter_cons. case_decide; [f_equal|]; apply IH; lia.
    + rewrite !filter_cons. case_decide; [f_equal|]; apply IH; lia.
  - destruct (is_digit c) eqn:Hc; [|lia]. cbn [re_sub_from].
    rewrite (filter_cons _ c), decide_False by congruence. apply IH. lia.
Qed.

(** X10: [remove_numbers] deletes digits only: every character that is
    not a digit is kept, in order. *)
Theorem remove_numbers_keeps_non_digits (text : pystr) :
  filter (fun c => is_digit c = false) (remove_numbers text)
  = filter (fun c => is_digit c = false) text.
Proof. unfold remove_numbers, re_sub. apply remove_numbers_from. lia. Qed.

End Steps.

(** ** Whitespace *)

Section Whitespace.
Context `{UnicodeData}.

Lemma split_good (s : pystr) :
  Forall (fun t => t <> [] /\ Forall (fun c => is_space c = false) t) (split s).
Proof.
  eapply Forall_impl; [exact (split_tokens s)|]. intros t (H1 & H2 & _). auto.
Qed.

Lemma remove_extra_whitespace_tokens (text : pystr) :
  tokenize (remove_extra_whitespace text) = tokenize text
  /\ strip (remove_extra_whitespace text) = remove_extra_whitespace text
  /\ remove_extra_whitespace (remove_extra_whitespace text)
     = remove_extra_whitespace text.
Proof.
  assert (Hsplit : split (remove_extra_whitespace text) = split text)
    by exact (split_join _ (split_good text)).
  split; [exact Hsplit|]. split.
  - exact (strip_join _ (split_good text)).
  - unfold remove_extra_whitespace at 1. rewrite Hsplit. reflexivity.
Qed.

(** X11: [remove_extra_whitespace] keeps the tokens of the text; its
    result has no whitespace at either end ([strip] leaves it as it is),
    and a second application changes nothing. *)
Theorem remove_extra_whitespace_normal (text : pystr) :
  tokenize (remove_extra_whitespace text) = tokenize text
  /\ strip (remove_extra_whitespace text) = remove_extra_whitespace text
  /\ remove_extra_whitespace (remove_extra_whitespace text)
     = remove_extra_whitespace text.
Proof. exact (remove_extra_whitespace_tokens text). Qed.

(** X12: whatever the input, the text that [clean_text] returns is its
    own tokens joined by single spaces: it has no whitespace at either
    end, no run of whitespace and no whitespace other than the space. *)
Theorem clean_text_single_spaced (text : py_value) (normalize : bool) :
  clean_text text normalize
  = join (py " ") (tokenize (clean_text text normalize)).
Proof.
  destruct text as [[|c s]| | | |]; try reflexivity.
  cbn [clean_text]. unfold clean_str, tokenize.
  set (z := if normalize then _ else _).
  destruct (remove_extra_whitespace_tokens z) as (Htok & Hstrip & _).
  rewrite Hstrip. unfold tokenize in Htok. rewrite Htok. reflexivity.
Qed.

End Whitespace.

(** ** Slang normalization, twice *)

Section SlangTwice.
Context `{UnicodeData}.

Lemma split_from_app_space (a tok b : pystr) (sp : char) :
  is_space sp = true ->
  split_from tok (a ++ sp :: b) = split_from tok a ++ split_from [] b.
Proof.
  intros Hsp. revert tok. induction a as [|c a IH]; intros tok.
  - cbn [app split_from]. rewrite Hsp. destruct tok; reflexivity.
  - cbn [app split_from]. destruct (is_space c).
    + destruct tok; rewrite IH; reflexivity.
    + apply IH.
Qed.

Lemma split_join_concat (l : list pystr) :
  split (join (py " ") l) = concat (split <$> l).
Proof.
  induction l as [|a l IH]; [reflexivity|]. destruct l as [|b l].
  - cbn [join fmap list_fmap concat]. rewrite app_nil_r. reflexivity.
  - rewrite join_cons_cons, fmap_cons. cbn [concat]. rewrite <- IH.
    change (py " ") with [32%N]. unfold split.
    exact (split_from_app_space a [] _ 32%N eq_refl).
Qed.

Lemma join_app (sep : pystr) (l1 l2 : list pystr) :
  l1 <> [] -> l2 <> [] ->
  join sep (l1 ++ l2) = join sep l1 ++ sep ++ join sep l2.
Proof.
  intros H1 H2. induction l1 as [|a l1 IH]; [congruence|].
  destruct l1 as [|b l1].
  - destruct l2 as [|c l2]; [congruence|]. reflexivity.
  - cbn [app] in *. rewrite !join_cons_cons, IH by discriminate.
    rewrite <- !app_assoc. reflexivity.
Qed.

(** Splitting the pieces of a text and joining all the tokens gives the
    text back when each piece is its own tokens joined. *)
Lemma join_concat_split (l : list pystr) :
  Forall (fun e => split e <> [] /\ join (py " ") (split e) = e) l ->
  join (py " ") (concat (split <$> l)) = join (py " ") l.
Proof.
  induction 1 as [|e l [Hne He] Hl IH]; [reflexivity|].
  rewrite fmap_cons. cbn [concat]. destruct l as [|e2 l].
  - cbn [fmap list_fmap concat]. rewrite app_nil_r. exact He.
  - assert (Hne2 : concat (split <$> e2 :: l) <> []).
    { rewrite fmap_cons. cbn [concat]. apply Forall_cons in Hl as [[Hne2 _] _].
      destruct (split e2); [congruence|discriminate]. }
    rewrite (join_app _ _ _ Hne Hne2), IH, He, join_cons_cons. reflexivity.
Qed.

(** The expansions of the table are stable: their tokens are expanded no
    further, and they are single-spaced. *)
Lemma SLANG_ENTRIES_stable :
  Forall (fun e => split (py e.2) <> []
                   /\ normalize_word <$> split (py e.2) = split (py e.2)
                   /\ join (py " ") (split (py e.2)) = py e.2)
         SLANG_ENTRIES.
Proof.
  unfold SLANG_ENTRIES.
  repeat (constructor;
          [split; [vm_compute; discriminate|split; vm_compute; reflexivity]|]).
  constructor.
Qed.

Lemma normalize_word_stable (t : pystr) :
  t <> [] -> Forall (fun c => is_space c = false) t ->
  split (normalize_word t) <> []
  /\ normalize_word <$> split (normalize_word t) = split (normalize_word t)
  /\ join (py " ") (split (normalize_word t)) = normalize_word t.
Proof.
  intros Hne Ht.
  destruct (SLANG_DICT !! lower t) as [v|] eqn:Hv.
  - assert (Hnw : normalize_word t = v)
      by (unfold normalize_word; rewrite Hv; reflexivity).
    rewrite Hnw. unfold SLANG_DICT in Hv. apply elem_of_list_to_map_2 in Hv.
    apply list_elem_of_fmap in Hv as (e & Heq & He).
    injection Heq as _ ->.
    pose proof SLANG_ENTRIES_stable as Hall. rewrite Forall_forall in Hall.
    exact (Hall e He).
  - assert (Hnw : normalize_word t = t)
      by (unfold normalize_word; rewrite Hv; reflexivity).
    rewrite Hnw, (split_token t Hne Ht). repeat split; [discriminate|].
    cbn [fmap list_fmap]. rewrite Hnw. reflexivity.
Qed.

(** X13: [normalize_slang] is idempotent on every text: what it returns
    holds no token that the slang table would still expand. *)
Theorem normalize_slang_idempotent (text : pystr) :
  normalize_slang (normalize_slang text) = normalize_slang text.
Proof.
  unfold normalize_slang at 1 2. rewrite split_join_concat.
  assert (Hall : Forall (fun e => split e <> []
                                  /\ normalize_word <$> split e = split e
                                  /\ join (py " ") (split e) = e)
                        (normalize_word <$> split text)).
  { apply Forall_fmap. eapply Forall_impl; [exact (split_good text)|].
    intros t [Hne Ht]. exact (normalize_word_stable t Hne Ht). }
  assert (Hfix : normalize_word <$> concat (split <$> (normalize_word <$> split text))
                 = concat (split <$> (normalize_word <$> split text))).
  { induction Hall as [|e l (_ & He & _) _ IH]; [reflexivity|].
    rewrite fmap_cons. cbn [concat]. rewrite fmap_app, He, IH. reflexivity. }
  rewrite Hfix. unfold normalize_slang. apply join_concat_split.
  eapply Forall_impl; [exact Hall|]. intros e (H1 & _ & H3). auto.
Qed.

End SlangTwice.

(** ** The characters of a cleaned text *)

Section CleanCharacters.
Context `{UnicodeData}.

Lemma replace_special_from (s : pystr) (prev : option char) :
  re_sub_from match_special 0 prev s
  = (fun c => if is_special c then 32%N else c) <$> s.
Proof.
  revert prev. induction s as [|c s IH]; intros prev; [reflexivity|].
  rewrite re_sub_from_cons_0, fmap_cons. unfold match_special.
  destruct (is_special c); cbn [app re_sub_from]; f_equal; apply IH.
Qed.

Lemma special_free_step (s : pystr) :
  Forall (fun c => is_emoji c = false) s ->
  Forall (fun c => word_or_space c /\ is_emoji c = false) (replace_special s).
Proof.
  intros Hs. unfold replace_special, re_sub. rewrite replace_special_from.
  apply Forall_fmap. eapply Forall_impl; [exact Hs|]. intros c Hc. simpl.
  unfold is_special, word_or_space.
  destruct (is_word c) eqn:Hw; [cbn; auto|].
  destruct (is_space c) eqn:Hsp; cbn; [auto|].
  split; [right|]; reflexivity.
Qed.

(** The expansions of the table are made of word characters, spaces and
    hyphens. *)
Lemma SLANG_ENTRIES_characters :
  Forall (fun e => Forall (fun c => (is_word c = true \/ c = 32%N \/ c = 45%N)
                                    /\ is_emoji c = false) (py e.2))
         SLANG_ENTRIES.
Proof. apply (bool_decide_unpack _). vm_compute. exact I. Qed.

(** X14: whatever the input, a cleaned text holds word characters and
    single spaces only, and no character of the emoji ranges: no
    punctuation survives.  The one exception are the hyphens of the slang
    table's expansions, which can appear when slang normalization is
    on. *)
Theorem clean_text_characters (text : py_value) (normalize : bool) :
  Forall (fun c => (is_word c = true \/ c = 32%N
                    \/ (normalize = true /\ c = 45%N))
                   /\ is_emoji c = false)
         (clean_text text normalize).
Proof.
  destruct text as [[|c0 s0]| | | |]; try constructor.
  cbn [clean_text]. unfold clean_str.
  set (s := unwrap_hashtags _).
  set (Q := fun c : char => (is_word c = true \/ c = 32%N
                             \/ (normalize = true /\ c = 45%N))
                            /\ is_emoji c = false).
  assert (H6 : Forall (fun c => word_or_space c /\ is_emoji c = false)
                      (replace_special (remove_emojis s))).
  { apply special_free_step. rewrite remove_emojis_as_filter.
    apply Forall_forall. intros c Hc.
    apply list_elem_of_filter in Hc as [Hc _]. exact Hc. }
  set (z6 := replace_special (remove_emojis s)) in *.
  assert (H7 : Forall (fun c => word_or_space c /\ is_emoji c = false)
                      (remove_numbers z6)).
  { rewrite Forall_forall in H6. apply Forall_forall. intros c Hc. apply H6.
    eapply elem_of_sublist; [exact Hc|].
    apply re_sub_from_sublist. intros prev s' k repl. unfold match_number.
    destruct (word_boundary prev (head s')); [|discriminate].
    destruct (backtrack_digits s' (span_len is_digit s')); [|discriminate].
    intros [= _ <-]. reflexivity. }
  set (z7 := remove_numbers z6) in *.
  assert (Htok : forall z, (forall t, t ∈ split z -> Forall Q t) ->
                           Forall Q (strip (remove_extra_whitespace z))).
  { intros z Hz.
    destruct (remove_extra_whitespace_tokens z) as (_ & Hstrip & _).
    rewrite Hstrip. unfold remove_extra_whitespace.
    apply join_Forall; [split; [auto|reflexivity]|].
    apply Forall_forall. exact Hz. }
  assert (Hplain : forall t, t ∈ split z7 -> Forall Q t).
  { intros t Ht. pose proof (split_tokens z7) as Hall.
    rewrite Forall_forall in Hall. destruct (Hall t Ht) as (_ & Hns & Hin).
    rewrite Forall_forall in Hns, H7. apply Forall_forall. intros c Hc.
    destruct (H7 c (Hin c Hc)) as [[Hw|Hsp] He].
    - split; [left; exact Hw|exact He].
    - rewrite (Hns c Hc) in Hsp. discriminate. }
  destruct normalize eqn:Hn; apply Htok; [|exact Hplain].
  assert (HX : Forall Q (normalize_slang z7)).
  { unfold normalize_slang.
    apply join_Forall; [split; [auto|reflexivity]|].
    apply Forall_fmap, Forall_forall. intros t Ht. simpl.
    unfold normalize_word.
    destruct (SLANG_DICT !! lower t) as [v|] eqn:Hv; [|exact (Hplain t Ht)].
    unfold SLANG_DICT in Hv. apply elem_of_list_to_map_2 in Hv.
    apply list_elem_of_fmap in Hv as (e & Heq & He). injection Heq as _ ->.
    pose proof SLANG_ENTRIES_characters as Hall. rewrite Forall_forall in Hall.
    eapply Forall_impl; [exact (Hall e He)|].
    intros c [[Hw|[Hc|Hc]] Hem]; (split; [|exact Hem]); auto. }
  intros t Ht. pose proof (split_tokens (normalize_slang z7)) as Hall.
  rewrite Forall_forall in Hall. destruct (Hall t Ht) as (_ & _ & Hin).
  rewrite Forall_forall in HX. apply Forall_forall. intros c Hc.
  apply HX, Hin, Hc.
Qed.

End CleanCharacters.

(** ** The charts and the classifier *)

(** X15: [create_score_histogram] colours the bar of a bin with the
    colour of the label that [classify_sentiment], with its default
    thresholds, gives to the centre of the bin: the chart and the
    classifier draw the same lines, both strict. *)
Theorem patch_facecolor_classify_sentiment (bin_low bin_high : float) :
  patch_facecolor bin_low bin_high
  = COLORS (classify_sentiment (fdiv (fadd bin_low bin_high) (float_of_int 2))
              POSITIVE_THRESHOLD NEGATIVE_THRESHOLD).
Proof.
  unfold patch_facecolor, classify_sentiment, POSITIVE_THRESHOLD. cbv zeta.
  change (fopp tenth) with NEGATIVE_THRESHOLD.
  destruct (flt tenth (fdiv (fadd bin_low bin_high) (float_of_int 2)));
    [reflexivity|].
  destruct (flt (fdiv (fadd bin_low bin_high) (float_of_int 2)) NEGATIVE_THRESHOLD);
    reflexivity.
Qed.

(** X16: for a label that is not the empty string,
    [create_wordcloud_by_sentiment] counts exactly what [get_top_words]
    counts under that filter: the word cloud of a label and the top
    words of that label rest on the same frequencies. *)
Theorem wordcloud_frequencies_word_frequencies (results : list AnalysisResult)
  (sentiment : pystr) :
  sentiment <> [] ->
  wordcloud_frequencies results sentiment
  = word_frequencies results (Some sentiment).
Proof.
  intros Hne. unfold wordcloud_frequencies, word_frequencies.
  generalize ([] : list (pystr * Z)).
  induction results as [|r results IH]; intros d; [reflexivity|].
  cbn [fold_left]. rewrite IH. f_equal.
  unfold skipped. destruct sentiment as [|c s]; [congruence|].
  destruct (bool_decide (sentiment_label r = c :: s)); reflexivity.
Qed.

Lemma wordcloud_frequencies_word_frequencies_witness :
  wordcloud_frequencies
    [Result PyNone (py "bagus sekali") (float_of_int 1) (py "positive");
     Result PyNone (py "jelek sekali") (float_of_int (-1)) (py "negative")]
    (py "positive")
  = word_frequencies
      [Result PyNone (py "bagus sekali") (float_of_int 1) (py "positive");
       Result PyNone (py "jelek sekali") (float_of_int (-1)) (py "negative")]
      (Some (py "positive")).
Proof.
  apply wordcloud_frequencies_word_frequencies. vm_compute. discriminate.
Defined.

(** ** Hashtags *)

Section Hashtags.
Context `{UnicodeData}.

Lemma span_len_le (p : char -> bool) (s : pystr) : (span_len p s <= length s)%nat.
Proof.
  induction s as [|c s IH]; [reflexivity|]. simpl. destruct (p c); lia.
Qed.

Lemma re_sub_from_drop (try_match : option char -> pystr -> option (nat * pystr))
  (s : pystr) (k : nat) (prev : option char) :
  (k <= length s)%nat ->
  exists prev',
    re_sub_from try_match k prev s = re_sub_from try_match 0 prev' (drop k s).
Proof.
  intros Hk.
  destruct (re_sub_from_skip try_match (take k s) prev (drop k s)) as [prev' Hp].
  exists prev'. rewrite take_drop, length_take, Nat.min_l in Hp by exact Hk.
  exact Hp.
Qed.

Lemma match_hashtag_cons (prev : option char) (c : char) (s : pystr) :
  match_hashtag prev (c :: s)
  = if (c =? 35)%N then
      match span_len is_word s with
      | O => None
      | S k => Some (S (S k), take (S k) s)
      end
    else None.
Proof. reflexivity. Qed.

Lemma unwrap_hashtags_from (n : nat) (s : pystr) (prev : option char) :
  (length s <= n)%nat ->
  re_sub_from match_hashtag 0 prev s `sublist_of` s
  /\ filter (fun c => c <> 35%N) (re_sub_from match_hashtag 0 prev s)
     = filter (fun c => c <> 35%N) s.
Proof.
  revert s prev. induction n as [|n IH]; intros s prev Hn.
  - destruct s; [|simpl in Hn; lia]. split; [constructor|reflexivity].
  - destruct s as [|c s]; [split; [constructor|reflexivity]|].
    simpl in Hn. rewrite re_sub_from_cons_0, match_hashtag_cons.
    destruct (c =? 35)%N eqn:Hc.
    + apply N.eqb_eq in Hc. subst c.
      destruct (span_len is_word s) as [|k] eqn:Hspan.
      * cbv beta iota.
        destruct (IH s (Some 35%N) ltac:(lia)) as [Hsub Hfil].
        split; [apply sublist_skip; exact Hsub|].
        rewrite !filter_cons, Hfil. reflexivity.
      * cbv beta iota.
        pose proof (span_len_le is_word s) as Hle. rewrite Hspan in Hle.
        destruct (re_sub_from_drop match_hashtag s (S k) (Some 35%N) Hle)
          as [prev' Hdrop].
        rewrite Hdrop.
        destruct (IH (drop (S k) s) prev'
                    ltac:(rewrite length_drop; lia)) as [Hsub Hfil].
        split.
        -- apply sublist_cons.
           assert (Hs2 : take (S k) s
                           ++ re_sub_from match_hashtag 0 prev' (drop (S k) s)
                         `sublist_of` take (S k) s ++ drop (S k) s)
             by (apply sublist_app; [reflexivity|exact Hsub]).
           rewrite take_drop in Hs2. exact Hs2.
        -- rewrite filter_app, Hfil, <- filter_app, take_drop.
           rewrite (filter_cons _ 35%N), decide_False by (intros Hf; apply Hf; reflexivity).
           reflexivity.
    + cbv beta iota.
      destruct (IH s (Some c) ltac:(lia)) as [Hsub Hfil].
      split; [apply sublist_skip; exact Hsub|].
      rewrite !filter_cons, Hfil. reflexivity.
Qed.

(** X17: the hashtag step of [clean_text] deletes [#] characters and
    nothing else: its result is a subsequence of the text in which every
    character other than [#] is kept, so the word of a hashtag stays
    (where [remove_hashtags] would delete it). *)
Theorem unwrap_hashtags_keeps_words (text : pystr) :
  unwrap_hashtags text `sublist_of` text
  /\ filter (fun c => c <> 35%N) (unwrap_hashtags text)
     = filter (fun c => c <> 35%N) text.
Proof. exact (unwrap_hashtags_from (length text) text None (le_n _)). Qed.

End Hashtags.

(** ** The scraper's comments *)

Lemma comment_of_item_usable (url : pystr) (item : json) :
  usable_item item ->
  exists c, comment_of_item url item = Done c
            /\ match c with
               | Some c => truthy (item_text item) = true
                           /\ comment_text c = item_text item
                           /\ video_url c = url
               | None => truthy (item_text item) = false
               end.
Proof.
  destruct item as [| | | | |fields]; try contradiction.
  unfold usable_item, comment_of_item, item_text. intros Hu.
  cbn [py_get mbind attempt_bind].
  destruct (truthy (default (JStr []) (fields_get fields (py "text")))) eqn:Ht.
  - cbn [negb]. destruct Hu as [Hu|Hu]; [discriminate|].
    destruct (fields_get fields (py "author")) as [[| | | | |af]|];
      try contradiction; cbn [default py_get mbind attempt_bind mret attempt_ret];
      eexists; (split; [reflexivity|]); repeat split.
  - cbn [negb]. exists None. split; reflexivity.
Qed.

Lemma comment_of_item_unusable (url : pystr) (item : json) :
  ~ usable_item item -> comment_of_item url item = Failed AttributeError.
Proof.
  destruct item as [| | | | |fields]; try reflexivity.
  unfold usable_item, comment_of_item, item_text. intros Hu.
  cbn [py_get mbind attempt_bind].
  destruct (truthy (default (JStr []) (fields_get fields (py "text")))) eqn:Ht;
    [|exfalso; apply Hu; left; reflexivity].
  cbn [negb].
  destruct (fields_get fields (py "author")) as [[| | | | |af]|];
    try reflexivity; exfalso; apply Hu; right; exact I.
Qed.

Lemma collect_comments_usable (url : pystr) (items : list json) (acc : list comment) :
  Forall usable_item items ->
  exists new,
    collect_comments url items acc = Done (acc ++ new)
    /\ comment_text <$> new
       = filter (fun v => truthy v = true) (item_text <$> items)
    /\ Forall (fun c => video_url c = url) new.
Proof.
  intros Hitems. revert acc.
  induction Hitems as [|item items Hitem _ IH]; intros acc.
  - exists []. rewrite app_nil_r. repeat split. constructor.
  - destruct (comment_of_item_usable url item Hitem) as (c & Hc & Hprop).
    cbn [collect_comments]. rewrite Hc. cbn [mbind attempt_bind].
    rewrite fmap_cons, filter_cons. destruct c as [c|].
    + destruct Hprop as (Ht & Htext & Hurl).
      destruct (IH (acc ++ [c])) as (new & Hrun & Htexts & Hurls).
      exists (c :: new). rewrite Hrun, <- app_assoc.
      rewrite decide_True by exact Ht.
      split; [reflexivity|]. split.
      * rewrite fmap_cons, Htext, Htexts. reflexivity.
      * constructor; assumption.
    + destruct (IH acc) as (new & Hrun & Htexts & Hurls).
      exists new. rewrite Hrun.
      rewrite decide_False by (rewrite Hprop; discriminate).
      repeat split; assumption.
Qed.

Lemma classic_usable (item : json) : usable_item item \/ ~ usable_item item.
Proof.
  destruct item as [| | | | |fields]; try (right; intros Hf; exact Hf).
  cbn [usable_item].
  destruct (truthy (item_text (JObj fields))); [|left; left; reflexivity].
  destruct (fields_get fields (py "author")) as [[| | | | |af]|];
    try (left; right; exact I);
    right; intros [Hf|Hf]; try discriminate; exact Hf.
Qed.

Lemma collect_comments_unusable (url : pystr) (items : list json) (acc : list comment) :
  ~ Forall usable_item items ->
  collect_comments url items acc = Failed AttributeError.
Proof.
  revert acc. induction items as [|item items IH]; intros acc Hn.
  - exfalso. apply Hn. constructor.
  - cbn [collect_comments].
    destruct (comment_of_item url item) as [c|e] eqn:Hc; cbn [mbind attempt_bind].
    + apply IH. intros Hitems. apply Hn. constructor; [|exact Hitems].
      destruct (classic_usable item) as [Hu|Hu]; [exact Hu|].
      rewrite (comment_of_item_unusable url item Hu) in Hc. discriminate.
    + destruct (classic_usable item) as [Hu|Hu].
      * destruct (comment_of_item_usable url item Hu) as (c & Hc' & _).
        congruence.
      * rewrite (comment_of_item_unusable url item Hu) in Hc.
        inversion Hc. reflexivity.
Qed.

Lemma classic_usable_items (items : list json) :
  Forall usable_item items \/ ~ Forall usable_item items.
Proof.
  induction items as [|item items [IH|IH]].
  - left. constructor.
  - destruct (classic_usable item) as [Hu|Hu].
    + left. constructor; assumption.
    + right. intros Hall. apply Forall_cons in Hall as [Hitem _]. exact (Hu Hitem).
  - right. intros Hall. apply Forall_cons in Hall as [_ Hitems]. exact (IH Hitems).
Qed.

Lemma scrape_outcome_done (url api_token : pystr) (max_comments : Z)
  (dataset : list json) :
  (exists result,
     scrape_comments_apify url api_token max_comments dataset = Done result) ->
  api_token <> [] /\ Forall usable_item dataset.
Proof.
  unfold scrape_comments_apify. intros [r Hr].
  destruct api_token as [|c token]; [discriminate|]. split; [discriminate|].
  destruct (classic_usable_items dataset) as [Hu|Hu]; [exact Hu|].
  rewrite (collect_comments_unusable url dataset [] Hu) in Hr. discriminate.
Qed.

Lemma scrape_cases (url api_token : pystr) (max_comments : Z) (dataset : list json) :
  (api_token = []
   /\ scrape_comments_apify url api_token max_comments dataset
      = Failed ValueError)
  \/ (api_token <> [] /\ ~ Forall usable_item dataset
      /\ scrape_comments_apify url api_token max_comments dataset
         = Failed AttributeError)
  \/ (api_token <> [] /\ Forall usable_item dataset
      /\ exists result,
           scrape_comments_apify url api_token max_comments dataset
           = Done result).
Proof.
  unfold scrape_comments_apify. destruct api_token as [|c token].
  - left. split; reflexivity.
  - right. destruct (classic_usable_items dataset) as [Hu|Hu].
    + right. split; [discriminate|]. split; [exact Hu|].
      destruct (collect_comments_usable url dataset [] Hu) as (new & Hrun & _).
      rewrite Hrun. eexists. reflexivity.
    + left. split; [discriminate|]. split; [exact Hu|].
      rewrite (collect_comments_unusable url dataset [] Hu). reflexivity.
Qed.

(** X18: when [scrape_comments_apify] fails and when it returns.  It
    raises [ValueError] exactly when the API token is empty, whatever the
    dataset holds; with a token it raises [AttributeError] exactly when
    some item is not usable (not an object, or an object with a text
    whose author is present but no object); otherwise it returns. *)
Theorem scrape_comments_apify_outcome (video_url api_token : pystr)
  (max_comments : Z) (dataset : list json) :
  (scrape_comments_apify video_url api_token max_comments dataset
   = Failed ValueError <-> api_token = [])
  /\ (scrape_comments_apify video_url api_token max_comments dataset
      = Failed AttributeError
      <-> api_token <> [] /\ ~ Forall usable_item dataset)
  /\ ((exists result,
         scrape_comments_apify video_url api_token max_comments dataset
         = Done result)
      <-> api_token <> [] /\ Forall usable_item dataset).
Proof.
  destruct (scrape_cases video_url api_token max_comments dataset)
    as [[Ht Hr]|[(Ht & Hu & Hr)|(Ht & Hu & r & Hr)]]; rewrite Hr.
  - split; [tauto|]. split.
    + split; [discriminate|]. intros [Hn _]. contradiction.
    + split; [intros [r Hd]; discriminate|]. intros [Hn _]. contradiction.
  - split; [split; [discriminate|contradiction]|]. split; [tauto|].
    split; [intros [r Hd]; discriminate|]. intros [_ Hall]. contradiction.
  - split; [split; [discriminate|contradiction]|]. split.
    + split; [discriminate|]. intros [_ Hn]. contradiction.
    + split; [tauto|]. intros _. exists r. reflexivity.
Qed.

(** X19: what [scrape_comments_apify] returns.  The comments are the
    items with a text that is not empty, in the order of the dataset and
    each with its text; every comment carries the URL asked for; there are
    no more comments than items; and the one video listed is the
    default record for that URL. *)
Theorem scrape_comments_apify_result (url api_token : pystr)
  (max_comments : Z) (dataset : list json) (result : scrape_result) :
  scrape_comments_apify url api_token max_comments dataset = Done result ->
  comment_text <$> comments result
  = filter (fun v => truthy v = true) (item_text <$> dataset)
  /\ Forall (fun c => truthy (comment_text c) = true /\ video_url c = url)
            (comments result)
  /\ (length (comments result) <= length dataset)%nat
  /\ videos result
     = [ {| meta_video_url := url;
            video_title := py "TikTok Video";
            author := py "Unknown";
            meta_likes_count := 0;
            comments_count := 0 |} ].
Proof.
  intros Hrun.
  assert (Hok : api_token <> [] /\ Forall usable_item dataset).
  { apply (scrape_outcome_done url api_token max_comments dataset). eauto. }
  destruct Hok as [Htoken Hu]. unfold scrape_comments_apify in Hrun.
  destruct api_token as [|c token]; [congruence|].
  destruct (collect_comments_usable url dataset [] Hu) as (new & Hcol & Htexts & Hurls).
  rewrite Hcol in Hrun. cbn [mbind attempt_bind app] in Hrun.
  unfold mret, attempt_ret in Hrun. injection Hrun as <-. cbn [comments videos].
  assert (Htruthy : Forall (fun c => truthy (comment_text c) = true) new).
  { assert (Hv : Forall (fun v => truthy v = true) (comment_text <$> new)).
    { rewrite Htexts. apply Forall_forall. intros v Hv.
      apply list_elem_of_filter in Hv as [Hv _]. exact Hv. }
    rewrite Forall_fmap in Hv. exact Hv. }
  split; [exact Htexts|]. split; [|split; [|reflexivity]].
  - rewrite Forall_forall in Htruthy, Hurls. apply Forall_forall.
    intros cm Hcm. split; auto.
  - rewrite <- (length_fmap comment_text new), Htexts.
    rewrite <- (length_fmap item_text dataset). apply length_filter.
Qed.

Lemma scrape_comments_apify_result_witness :
  exists result,
    scrape_comments_apify (py "https://t.co/v") (py "token") 100
      [JObj [(py "text", JStr (py "bagus")); (py "diggCount", JNum (Int 3))];
       JObj [(py "text", JStr [])];
       JObj [(py "text", JStr (py "jelek"));
             (py "author", JObj [(py "uniqueId", JStr (py "ani"))])]]
    = Done result
    /\ comment_text <$> comments result = [JStr (py "bagus"); JStr (py "jelek")].
Proof.
  destruct (scrape_comments_apify (py "https://t.co/v") (py "token") 100
              [JObj [(py "text", JStr (py "bagus")); (py "diggCount", JNum (Int 3))];
               JObj [(py "text", JStr [])];
               JObj [(py "text", JStr (py "jelek"));
                     (py "author", JObj [(py "uniqueId", JStr (py "ani"))])]])
    as [result|e] eqn:Hrun; [|vm_compute in Hrun; discriminate].
  exists result. split; [reflexivity|].
  rewrite (proj1 (scrape_comments_apify_result _ _ _ _ _ Hrun)).
  vm_compute. reflexivity.
Defined.

(** ** The label filter and the order of the results *)

Lemma elem_of_tokens_read (results : list AnalysisResult)
  (sentiment : option pystr) (word : pystr) :
  word ∈ tokens_read results sentiment ->
  exists r, r ∈ results /\ skipped sentiment r = false
            /\ word ∈ tokenize (cleaned_text r).
Proof.
  unfold tokens_read. induction results as [|r results IH].
  - intros Hw. apply elem_of_nil in Hw. contradiction.
  - rewrite fmap_cons. cbn [concat]. rewrite elem_of_app. intros [Hw|Hw].
    + exists r. destruct (skipped sentiment r).
      * apply elem_of_nil in Hw. contradiction.
      * split; [left|]. split; [reflexivity|exact Hw].
    + destruct (IH Hw) as (r' & Hr' & Hrest). exists r'.
      split; [right; exact Hr'|exact Hrest].
Qed.

(** X20: under a label filter that is not empty, every word of the table
    of [get_top_words] comes from the cleaned text of a result with that
    label, for any [top_n]: results of other labels contribute
    nothing. *)
Theorem get_top_words_filter (results : list AnalysisResult)
  (label : pystr) (top_n : Z) (word : pystr) :
  label <> [] ->
  word ∈ (get_top_words results (Some label) top_n).*1 ->
  exists r, r ∈ results /\ sentiment_label r = label
            /\ word ∈ tokenize (cleaned_text r).
Proof.
  intros Hne Hw. rewrite get_top_words_slice in Hw.
  destruct (word_frequencies_counted results (Some label))
    as (_ & _ & _ & _ & Hin).
  assert (Hkey : word ∈ (word_frequencies results (Some label)).*1).
  { rewrite <- (sorted_by_count_perm (word_frequencies results (Some label))).
    unfold slice_to in Hw.
    destruct (0 <=? top_n)%Z; rewrite fmap_take in Hw;
      exact (elem_of_sublist _ _ _ Hw (sublist_take _ _)). }
  destruct (elem_of_tokens_read results (Some label) word (Hin word Hkey))
    as (r & Hr & Hskip & Hword).
  exists r. split; [exact Hr|]. split; [|exact Hword].
  unfold skipped in Hskip. destruct label as [|c l]; [congruence|].
  apply negb_false_iff, bool_decide_eq_true_1 in Hskip. exact Hskip.
Qed.

Lemma get_top_words_filter_witness :
  exists r,
    r ∈ [Result PyNone (py "bagus sekali") (float_of_int 1) (py "positive");
         Result PyNone (py "jelek sekali") (float_of_int (-1)) (py "negative")]
    /\ sentiment_label r = py "positive"
    /\ py "sekali" ∈ tokenize (cleaned_text r).
Proof.
  apply (get_top_words_filter _ (py "positive") 5 (py "sekali")).
  - vm_compute. discriminate.
  - vm_compute. right. left.
Defined.

Lemma count_label_perm (label : pystr) (results results' : list AnalysisResult) :
  results ≡ₚ results' -> count_label label results = count_label label results'.
Proof. intros Hp. unfold count_label. rewrite Hp. reflexivity. Qed.

(** X21: the total, the three counts and the three percentages of
    [get_sentiment_summary] do not depend on the order of the results. *)
Theorem get_sentiment_summary_order (results results' : list AnalysisResult) :
  results ≡ₚ results' ->
  total (get_sentiment_summary results) = total (get_sentiment_summary results')
  /\ positive_count (get_sentiment_summary results)
     = positive_count (get_sentiment_summary results')
  /\ negative_count (get_sentiment_summary results)
     = negative_count (get_sentiment_summary results')
  /\ neutral_count (get_sentiment_summary results)
     = neutral_count (get_sentiment_summary results')
  /\ positive_pct (get_sentiment_summary results)
     = positive_pct (get_sentiment_summary results')
  /\ negative_pct (get_sentiment_summary results)
     = negative_pct (get_sentiment_summary results')
  /\ neutral_pct (get_sentiment_summary results)
     = neutral_pct (get_sentiment_summary results').
Proof.
  intros Hp.
  pose proof (Permutation_length Hp) as Hlen.
  pose proof (count_label_perm (py "positive") _ _ Hp) as Hpos.
  pose proof (count_label_perm (py "negative") _ _ Hp) as Hneg.
  pose proof (count_label_perm (py "neutral") _ _ Hp) as Hneu.
  destruct results as [|r results]; destruct results' as [|r' results'];
    try discriminate; [repeat split|].
  cbn [get_sentiment_summary total positive_count negative_count neutral_count
       positive_pct negative_pct neutral_pct].
  rewrite Hlen, Hpos, Hneg, Hneu. repeat split.
Qed.

Lemma get_sentiment_summary_order_witness :
  positive_pct
    (get_sentiment_summary
       [Result PyNone [] (float_of_int 1) (py "positive"); Result PyNone [] fzero (py "neutral")])
  = positive_pct
      (get_sentiment_summary
         [Result PyNone [] fzero (py "neutral"); Result PyNone [] (float_of_int 1) (py "positive")]).
Proof.
  apply (get_sentiment_summary_order
           [Result PyNone [] (float_of_int 1) (py "positive"); Result PyNone [] fzero (py "neutral")]
           [Result PyNone [] fzero (py "neutral"); Result PyNone [] (float_of_int 1) (py "positive")]).
  apply Permutation_swap.
Defined.

(** ** No mention is left *)

Section Mentions.
Context `{UnicodeData}.

Lemma span_len_drop (p : char -> bool) (s : pystr) :
  span_len p (drop (span_len p s) s) = 0%nat.
Proof.
  induction s as [|c s IH]; [reflexivity|].
  cbn [span_len]. destruct (p c) eqn:Hc; [exact IH|].
  cbn [drop span_len]. rewrite Hc. reflexivity.
Qed.

Lemma match_mention_cons (prev : option char) (c : char) (s : pystr) :
  match_mention prev (c :: s)
  = if (c =? 64)%N then
      match span_len is_word s with
      | O => None
      | S k => Some (S (S k), [])
      end
    else None.
Proof. reflexivity. Qed.

(** Where the text does not start with a word character, neither does
    what is left of it. *)
Lemma remove_mentions_head (n : nat) (s : pystr) (prev : option char) :
  (length s <= n)%nat ->
  span_len is_word s = 0%nat ->
  span_len is_word (re_sub_from match_mention 0 prev s) = 0%nat.
Proof.
  revert s prev. induction n as [|n IH]; intros [|c s] prev Hlen Hs;
    try reflexivity; [cbn [length] in Hlen; lia|].
  cbn [length] in Hlen.
  assert (Hc : is_word c = false).
  { cbn [span_len] in Hs. destruct (is_word c); [discriminate|reflexivity]. }
  rewrite re_sub_from_cons_0, match_mention_cons.
  destruct (c =? 64)%N; [destruct (span_len is_word s) as [|k] eqn:Hk|].
  - cbn [span_len]. rewrite Hc. reflexivity.
  - pose proof (span_len_le is_word s) as Hle. rewrite Hk in Hle.
    destruct (re_sub_from_drop match_mention s (S k) (Some c) Hle) as [prev' ->].
    rewrite app_nil_l. apply IH.
    + rewrite length_drop. lia.
    + rewrite <- Hk. apply span_len_drop.
  - cbn [span_len]. rewrite Hc. reflexivity.
Qed.

Lemma remove_mentions_from (n : nat) (s : pystr) (prev : option char) :
  (length s <= n)%nat ->
  mention_free (re_sub_from match_mention 0 prev s).
Proof.
  revert s prev. induction n as [|n IH]; intros [|c s] prev Hlen;
    try exact I; [cbn [length] in Hlen; lia|].
  cbn [length] in Hlen.
  rewrite re_sub_from_cons_0, match_mention_cons.
  destruct (c =? 64)%N eqn:Hc; [destruct (span_len is_word s) as [|k] eqn:Hk|].
  - cbn [mention_free]. split; [|apply IH; lia].
    rewrite match_mention_cons, Hc.
    rewrite (remove_mentions_head (length s) s (Some c) (le_n _) Hk). reflexivity.
  - pose proof (span_len_le is_word s) as Hle. rewrite Hk in Hle.
    destruct (re_sub_from_drop match_mention s (S k) (Some c) Hle) as [prev' ->].
    rewrite app_nil_l. apply IH. rewrite length_drop. lia.
  - cbn [mention_free]. split; [|apply IH; lia].
    rewrite match_mention_cons, Hc. reflexivity.
Qed.

Lemma mention_free_fixed (s : pystr) (prev : option char) :
  mention_free s -> re_sub_from match_mention 0 prev s = s.
Proof.
  revert prev. induction s as [|c s IH]; intros prev Hs; [reflexivity|].
  cbn [mention_free] in Hs. destruct Hs as [Hm Hs].
  rewrite re_sub_from_cons_0.
  replace (match_mention prev (c :: s)) with (match_mention None (c :: s))
    by reflexivity.
  rewrite Hm. f_equal. exact (IH (Some c) Hs).
Qed.

(** X22: [remove_mentions] leaves no mention: nowhere in its result is
    an [@] followed by a word character, and running it again changes
    nothing. *)
Theorem remove_mentions_complete (text : pystr) :
  mention_free (remove_mentions text)
  /\ remove_mentions (remove_mentions text) = remove_mentions text.
Proof.
  assert (Hfree : mention_free (remove_mentions text)).
  { apply (remove_mentions_from (length text)). reflexivity. }
  split; [exact Hfree|].
  apply (mention_free_fixed _ None Hfree).
Qed.

End Mentions.
